(** * Trading dashboard: FIFO lot matching and P&L aggregation

    A shallow embedding of
      - [app/services/fifo_engine.py]        (class [FIFOEngine]),
      - [app/services/metrics_calculator.py] (class [MetricsCalculator]),
      - [app/services/enhanced_metrics.py]   ([calculate_streaks]),
    together with the part of Python's [decimal] arithmetic these modules
    rely on, and the properties of the specification proved over it. *)

From Stdlib Require Import ZArith Lia Bool.
From stdpp Require Import base option list sorting gmap strings.

Local Open Scope Z_scope.

(** ** Outcomes of a Python call

    A call either returns a value or raises.  The engine's [while] loop is
    written with fuel; [NoFuel] marks a loop that was cut short and is shown
    to be unreachable ([match_against_queue_fuel]). *)

Inductive exn : Type :=
| InvalidOperation
| DivisionByZero
| KeyError.

Inductive result (A : Type) : Type :=
| Returns (a : A)
| Raises (e : exn)
| NoFuel.

Arguments Returns {A} a.
Arguments Raises {A} e.
Arguments NoFuel {A}.

#[export] Instance result_ret : MRet result := fun A a => Returns a.

#[export] Instance result_bind : MBind result := fun A B k r =>
  match r with
  | Returns a => k a
  | Raises e => Raises e
  | NoFuel => NoFuel
  end.

(** ** Decimal arithmetic

    [decimal.Decimal] values are a coefficient and an exponent; the value is
    [coef * 10 ^ dexp].  The sign is carried by the coefficient, so the two
    zeros [0] and [-0] of Python (which compare equal and are both falsy) are
    one value here.  Arithmetic runs in the default context: 28 significant
    digits, results rounded half-even.  The exponent limits of the context
    ([Emax = 999999]) are far outside anything a trade can carry and are not
    modelled. *)

Record Decimal : Type := mkDecimal { coef : Z; dexp : Z }.

Definition prec : Z := 28.

Fixpoint ndigits_aux (fuel : nat) (n : Z) : Z :=
  match fuel with
  | O => 1
  | S fuel' => if n <? 10 then 1 else 1 + ndigits_aux fuel' (n / 10)
  end.

(** Length of the decimal representation of [|c|] (1 for 0). *)
Definition ndigits (c : Z) : Z :=
  ndigits_aux (Z.to_nat (Z.log2 (Z.abs c))) (Z.abs c).

(** Drop the last [k] digits of [c], rounding half-even. *)
Definition round_half_even (c k : Z) : Z :=
  let p := 10 ^ k in
  let q := Z.abs c / p in
  let r := Z.abs c mod p in
  Z.sgn c * (if (p <? 2 * r) || ((p =? 2 * r) && Z.odd q) then q + 1 else q).

(** Drop the last [k] digits of [c], rounding half-up (ties away from zero). *)
Definition round_half_up (c k : Z) : Z :=
  let p := 10 ^ k in
  let q := Z.abs c / p in
  let r := Z.abs c mod p in
  Z.sgn c * (if p <=? 2 * r then q + 1 else q).

(** [Decimal._fix]: round a result to the context precision. *)
Definition fix_prec (d : Decimal) : Decimal :=
  let n := ndigits (coef d) in
  if n <=? prec then d
  else
    let k := n - prec in
    let c := round_half_even (coef d) k in
    if ndigits c <=? prec then mkDecimal c (dexp d + k)
    else mkDecimal (c / 10) (dexp d + k + 1).

Definition Decimal_of_int (n : Z) : Decimal := mkDecimal n 0.

(** Coefficient of [d] written at exponent [e] ([e <= dexp d]). *)
Definition align (e : Z) (d : Decimal) : Z := coef d * 10 ^ (dexp d - e).

Definition exact_add (a b : Decimal) : Decimal :=
  let e := Z.min (dexp a) (dexp b) in
  mkDecimal (align e a + align e b) e.

Definition exact_mul (a b : Decimal) : Decimal :=
  mkDecimal (coef a * coef b) (dexp a + dexp b).

Definition dneg (a : Decimal) : Decimal := mkDecimal (- coef a) (dexp a).

Definition exact_sub (a b : Decimal) : Decimal := exact_add a (dneg b).

Definition dadd (a b : Decimal) : Decimal := fix_prec (exact_add a b).
Definition dsub (a b : Decimal) : Decimal := dadd a (dneg b).
Definition dmul (a b : Decimal) : Decimal := fix_prec (exact_mul a b).
Definition dabs (a : Decimal) : Decimal :=
  fix_prec (mkDecimal (Z.abs (coef a)) (dexp a)).

(** Comparisons are exact (no rounding). *)
Definition dcompare (a b : Decimal) : comparison :=
  let e := Z.min (dexp a) (dexp b) in
  align e a ?= align e b.

Definition dltb (a b : Decimal) : bool :=
  match dcompare a b with Lt => true | _ => false end.
Definition dgtb (a b : Decimal) : bool := dltb b a.
Definition deqb (a b : Decimal) : bool :=
  match dcompare a b with Eq => true | _ => false end.

(** Truth value of a [Decimal]: false exactly for zero. *)
Definition dbool (a : Decimal) : bool := negb (coef a =? 0).

(** [Decimal.__truediv__].  The quotient is computed with [prec + 1] extra
    digits and a sticky last digit, then rounded by [fix_prec]; an exact
    quotient is brought as close to the ideal exponent as possible. *)
Fixpoint strip_zeros (fuel : nat) (c e ideal : Z) : Z * Z :=
  match fuel with
  | O => (c, e)
  | S fuel' =>
      if (e <? ideal) && (c mod 10 =? 0) then strip_zeros fuel' (c / 10) (e + 1) ideal
      else (c, e)
  end.

Definition ddiv (a b : Decimal) : result Decimal :=
  if coef b =? 0 then
    Raises (if coef a =? 0 then InvalidOperation else DivisionByZero)
  else if coef a =? 0 then
    Returns (fix_prec (mkDecimal 0 (dexp a - dexp b)))
  else
    let sign := Z.sgn (coef a) * Z.sgn (coef b) in
    let shift := ndigits (coef b) - ndigits (coef a) + prec + 1 in
    let e := dexp a - dexp b - shift in
    let num := if 0 <=? shift then Z.abs (coef a) * 10 ^ shift else Z.abs (coef a) in
    let den := if 0 <=? shift then Z.abs (coef b) else Z.abs (coef b) * 10 ^ (- shift) in
    let q := num / den in
    let r := num mod den in
    if r =? 0 then
      let '(c, e') := strip_zeros (Z.to_nat (ndigits q)) q e (dexp a - dexp b) in
      Returns (fix_prec (mkDecimal (sign * c) e'))
    else
      let c := if q mod 5 =? 0 then q + 1 else q in
      Returns (fix_prec (mkDecimal (sign * c) e)).

(** [d.quantize(q, rounding=ROUND_HALF_UP)]: rewrite [d] at the exponent of
    [q].  Raises [InvalidOperation] when the result needs more than [prec]
    digits. *)
Definition rescale_half_up (e : Z) (d : Decimal) : Decimal :=
  if e <=? dexp d then mkDecimal (align e d) e
  else mkDecimal (round_half_up (coef d) (e - dexp d)) e.

Definition quantize (d q : Decimal) : result Decimal :=
  let e := dexp q in
  if coef d =? 0 then Returns (mkDecimal 0 e)
  else if prec <? dexp d + ndigits (coef d) - e then Raises InvalidOperation
  else
    let ans := rescale_half_up e d in
    if prec <? ndigits (coef ans) then Raises InvalidOperation
    else Returns ans.

(** Literals used by the services. *)
Definition cent : Decimal := mkDecimal 1 (-2).        (* Decimal('0.01')   *)
Definition basis_point : Decimal := mkDecimal 1 (-4). (* Decimal('0.0001') *)
Definition zero : Decimal := mkDecimal 0 0.           (* Decimal('0'), int 0 *)

(** [sum(ds)] and [sum(ds, Decimal('0'))]: left fold from zero. *)
Definition py_sum (ds : list Decimal) : Decimal := fold_left dadd ds zero.

(** [min(a, b)]: the first argument wins ties. *)
Definition py_min (a b : Decimal) : Decimal := if dltb b a then b else a.

(** ** Records of [app/models/trade.py] and [app/models/metrics.py]

    Timestamps are instants on the time line (POSIX seconds),
    calendar dates are proleptic Gregorian ordinals ([date.toordinal()]), row
    identifiers are opaque numbers. *)

Definition UUID : Type := N.
Definition datetime : Type := Z.
Definition date : Type := Z.

Record NormalizedTrade : Type := mkTrade {
  id : UUID;
  account_id : option string;
  symbol : string;
  side : string;
  quantity : Decimal;
  price : Decimal;
  executed_at : datetime;
  notes : option string
}.

Record ClosedLot : Type := mkLot {
  lot_account_id : option string;
  lot_symbol : string;
  position_type : string;
  open_trade_id : UUID;
  open_quantity : Decimal;
  open_price : Decimal;
  open_executed_at : datetime;
  close_trade_id : UUID;
  close_quantity : Decimal;
  close_price : Decimal;
  close_executed_at : datetime;
  realized_pnl : Decimal
}.

Record PerDayPnL : Type := mkPerDay {
  day_account_id : option string;
  day_date : date;
  daily_pnl : Decimal;
  cumulative_pnl : Decimal;
  lots_closed : nat
}.

(** Attributes that the constructor call leaves out are [None] on the
    Python object (column defaults are applied by the database on insert). *)
Record Aggregate : Type := mkAggregate {
  agg_account_id : option string;
  total_realized_pnl : option Decimal;
  total_lots_closed : option nat;
  total_trades : option nat;
  winning_lots : option nat;
  losing_lots : option nat;
  total_gains : option Decimal;
  total_losses : option Decimal;
  win_rate : option Decimal;
  profit_factor : option Decimal;
  average_gain : option Decimal;
  average_loss : option Decimal;
  best_symbol : option string;
  best_symbol_pnl : option Decimal;
  worst_symbol : option string;
  worst_symbol_pnl : option Decimal;
  best_weekday : option string;
  best_weekday_pnl : option Decimal;
  worst_weekday : option string;
  worst_weekday_pnl : option Decimal;
  first_trade_date : option date;
  last_trade_date : option date
}.

(** ** [FIFOEngine] ([app/services/fifo_engine.py]) *)

(** An open position entry: the opening trade and what is left of it. *)
Definition entry : Type := NormalizedTrade * Decimal.

(** The two [defaultdict(deque)] maps and the list of lots.  The list that
    [process_trades] returns is this very [closed_lots] object. *)
Record FIFOEngine : Type := mkEngine {
  long_queues : gmap string (list entry);
  short_queues : gmap string (list entry);
  closed_lots : list ClosedLot
}.

(** [FIFOEngine()] *)
Definition new_engine : FIFOEngine := mkEngine ∅ ∅ [].

(** [queues[symbol]] on a [defaultdict(deque)]. *)
Definition queue_of (queues : gmap string (list entry)) (sym : string) : list entry :=
  default [] (queues !! sym).

Definition _create_closed_lot (open_trade close_trade : NormalizedTrade)
    (qty : Decimal) (pos : string) : result ClosedLot :=
  let open_price := price open_trade in
  let close_price := price close_trade in
  let pnl :=
    if String.eqb pos "LONG" then dmul (dsub close_price open_price) qty
    else dmul (dsub open_price close_price) qty in
  pnl ← quantize pnl cent;
  Returns {|
    lot_account_id := account_id open_trade;
    lot_symbol := symbol open_trade;
    position_type := pos;
    open_trade_id := id open_trade;
    open_quantity := qty;
    open_price := open_price;
    open_executed_at := executed_at open_trade;
    close_trade_id := id close_trade;
    close_quantity := qty;
    close_price := close_price;
    close_executed_at := executed_at close_trade;
    realized_pnl := pnl
  |}.

(** The [while remaining > 0 and queue] loop of [_match_against_queue].
    The state is the unmatched quantity, the deque and the engine's list of
    closed lots; one unit of fuel pays for one test of the loop condition. *)
Fixpoint match_loop (fuel : nat) (trade : NormalizedTrade) (pos : string)
    (remaining : Decimal) (queue : list entry) (lots : list ClosedLot)
    : result (Decimal * list entry * list ClosedLot) :=
  match fuel with
  | O => NoFuel
  | S fuel' =>
      if dgtb remaining zero then
        match queue with
        | [] => Returns (remaining, queue, lots)
        | (open_trade, open_qty) :: rest =>
            let match_qty := py_min remaining open_qty in
            closed_lot ← _create_closed_lot open_trade trade match_qty pos;
            let lots := lots ++ [closed_lot] in
            let remaining := dsub remaining match_qty in
            let open_qty := dsub open_qty match_qty in
            let queue :=
              if deqb open_qty zero then rest
              else (open_trade, open_qty) :: rest in
            match_loop fuel' trade pos remaining queue lots
        end
      else Returns (remaining, queue, lots)
  end.

Definition _match_against_queue (lots : list ClosedLot) (trade : NormalizedTrade)
    (qty : Decimal) (queue : list entry) (pos : string)
    : result (Decimal * list entry * list ClosedLot) :=
  match_loop (S (length queue)) trade pos qty queue lots.

Definition _process_trade (self : FIFOEngine) (trade : NormalizedTrade)
    : result FIFOEngine :=
  let sym := symbol trade in
  let qty := quantity trade in
  if String.eqb (side trade) "BUY" then
    '(remaining, queue, lots) ←
      _match_against_queue (closed_lots self) trade qty
        (queue_of (short_queues self) sym) "SHORT";
    let shorts := <[sym := queue]> (short_queues self) in
    let longs :=
      if dgtb remaining zero then
        <[sym := queue_of (long_queues self) sym ++ [(trade, remaining)]]> (long_queues self)
      else long_queues self in
    Returns (mkEngine longs shorts lots)
  else if String.eqb (side trade) "SELL" then
    '(remaining, queue, lots) ←
      _match_against_queue (closed_lots self) trade qty
        (queue_of (long_queues self) sym) "LONG";
    let longs := <[sym := queue]> (long_queues self) in
    let shorts :=
      if dgtb remaining zero then
        <[sym := queue_of (short_queues self) sym ++ [(trade, remaining)]]> (short_queues self)
      else short_queues self in
    Returns (mkEngine longs shorts lots)
  else Returns self.

(** [for trade in trades: self._process_trade(trade)] *)
Fixpoint process_each (self : FIFOEngine) (trades : list NormalizedTrade)
    : result FIFOEngine :=
  match trades with
  | [] => Returns self
  | trade :: trades' =>
      self' ← _process_trade self trade;
      process_each self' trades'
  end.

(** [process_trades]: clear the three containers, process every trade, and
    return the engine's own list (second component) with the engine. *)
Definition process_trades (self : FIFOEngine) (trades : list NormalizedTrade)
    : result (FIFOEngine * list ClosedLot) :=
  let self := mkEngine ∅ ∅ [] in
  self ← process_each self trades;
  Returns (self, closed_lots self).

(** ** Python containers used by the metrics

    A [dict] keeps its keys in insertion order; it is modelled as an
    association list with unique keys. *)

Definition sum_Z (l : list Z) : Z := foldr Z.add 0 l.

Section PyDict.
Context {K V : Type} `{EqDecision K}.

Fixpoint dict_get (d : list (K * V)) (k : K) : option V :=
  match d with
  | [] => None
  | (k', v) :: d' => if decide (k' = k) then Some v else dict_get d' k
  end.

(** [d[k] = v] *)
Fixpoint dict_set (d : list (K * V)) (k : K) (v : V) : list (K * V) :=
  match d with
  | [] => [(k, v)]
  | (k', v') :: d' =>
      if decide (k' = k) then (k, v) :: d' else (k', v') :: dict_set d' k v
  end.

(** [k in d] *)
Definition dict_mem (d : list (K * V)) (k : K) : bool :=
  match dict_get d k with Some _ => true | None => false end.

Definition dict_keys (d : list (K * V)) : list K := d.*1.

(** Sum of [h] over the values, used to state totals. *)
Definition dict_sum (h : V -> Z) (d : list (K * V)) : Z :=
  sum_Z (map (fun kv => h kv.2) d).
End PyDict.

(** [sorted(l, key=key)]: a stable sort. *)
Fixpoint insert_sorted {A : Type} (key : A -> Z) (x : A) (l : list A) : list A :=
  match l with
  | [] => [x]
  | y :: l' => if key x <=? key y then x :: l else y :: insert_sorted key x l'
  end.

Definition py_sorted {A : Type} (key : A -> Z) (l : list A) : list A :=
  foldr (insert_sorted key) [] l.

(** [min(l)] and [max(l)] of a non-empty list of dates. *)
Definition min_list (x : Z) (l : list Z) : Z := fold_left Z.min l x.
Definition max_list (x : Z) (l : list Z) : Z := fold_left Z.max l x.

(** [max(items, key=lambda x: x[1])] and [min(...)]: the first extreme item
    in iteration order is kept. *)
Definition py_max_by {K : Type} (x : K * Decimal) (l : list (K * Decimal)) : K * Decimal :=
  fold_left (fun best item => if dgtb item.2 best.2 then item else best) l x.
Definition py_min_by {K : Type} (x : K * Decimal) (l : list (K * Decimal)) : K * Decimal :=
  fold_left (fun best item => if dltb item.2 best.2 then item else best) l x.

(** ** [MetricsCalculator] ([app/services/metrics_calculator.py]) *)

Definition weekday_names : list string :=
  ["Monday"; "Tuesday"; "Wednesday"; "Thursday"; "Friday"; "Saturday"; "Sunday"].

(** [date.weekday()]: Monday is 0; ordinal 1 is a Monday. *)
Definition weekday (d : date) : nat := Z.to_nat ((d + 6) mod 7).

(** [x.quantize(q, rounding=ROUND_HALF_UP) if x else None] *)
Definition quantize_if (x : option Decimal) (q : Decimal) : result (option Decimal) :=
  match x with
  | Some d => if dbool d then r ← quantize d q; Returns (Some r) else Returns None
  | None => Returns None
  end.

(** [[lot for lot in closed_lots if lot.realized_pnl > 0]] and
    [[lot for lot in closed_lots if lot.realized_pnl < 0]] *)
Definition winners (closed_lots : list ClosedLot) : list ClosedLot :=
  filter (fun lot => dgtb (realized_pnl lot) zero = true) closed_lots.
Definition losers (closed_lots : list ClosedLot) : list ClosedLot :=
  filter (fun lot => dltb (realized_pnl lot) zero = true) closed_lots.

Section Metrics.
(** [t.astimezone(EST).date()]: the calendar date of an instant in
    America/New_York.  The time-zone rules live in the [pytz] database,
    outside the repository; the services are modelled for any such map. *)
Variable est_date : datetime -> date.

(** [self.account_id] *)
Variable self_account_id : option string.

(** [while current_date <= max_date] of the gap filling. *)
Fixpoint fill_gaps_loop (fuel : nat) (current_date max_date : date)
    (daily_pnl_dict : list (date * (Decimal * nat)))
    : result (list (date * (Decimal * nat))) :=
  match fuel with
  | O => NoFuel
  | S fuel' =>
      if current_date <=? max_date then
        let daily_pnl_dict :=
          if dict_mem daily_pnl_dict current_date then daily_pnl_dict
          else dict_set daily_pnl_dict current_date (zero, 0%nat) in
        fill_gaps_loop fuel' (current_date + 1) max_date daily_pnl_dict
      else Returns daily_pnl_dict
  end.

(** [for day in sorted_dates] building the rows. *)
Fixpoint rows_loop (daily_pnl_dict : list (date * (Decimal * nat)))
    (sorted_dates : list date) (cumulative : Decimal)
    (per_day_pnl_list : list PerDayPnL) : result (list PerDayPnL) :=
  match sorted_dates with
  | [] => Returns per_day_pnl_list
  | day :: rest =>
      match dict_get daily_pnl_dict day with
      | None => Raises KeyError
      | Some (daily_total, lots_count) =>
          let cumulative := dadd cumulative daily_total in
          daily ← quantize daily_total cent;
          cum ← quantize cumulative cent;
          let per_day_pnl := {|
            day_account_id := self_account_id;
            day_date := day;
            daily_pnl := daily;
            cumulative_pnl := cum;
            lots_closed := lots_count
          |} in
          rows_loop daily_pnl_dict rest cumulative (per_day_pnl_list ++ [per_day_pnl])
      end
  end.

(** [lot.close_executed_at.astimezone(EST).date()] *)
Definition close_date (lot : ClosedLot) : date := est_date (close_executed_at lot).

(** [daily_lots[close_date].append(lot)] on a [defaultdict(list)]. *)
Definition append_lot (daily_lots : list (date * list ClosedLot)) (lot : ClosedLot)
    : list (date * list ClosedLot) :=
  dict_set daily_lots (close_date lot)
    (default [] (dict_get daily_lots (close_date lot)) ++ [lot]).

Definition group_by_date (closed_lots : list ClosedLot) : list (date * list ClosedLot) :=
  fold_left append_lot closed_lots [].

(** [daily_pnl_dict[day] = (sum(...), len(lots))] *)
Definition day_total (entry : date * list ClosedLot) : date * (Decimal * nat) :=
  (entry.1, (py_sum (map realized_pnl entry.2), length entry.2)).

Definition generate_daily_pnl_series (closed_lots : list ClosedLot) (fill_gaps : bool)
    : result (list PerDayPnL) :=
  match closed_lots with
  | [] => Returns []
  | _ =>
      let daily_lots := group_by_date closed_lots in
      let daily_pnl_dict :=
        map day_total daily_lots in
      match dict_keys daily_pnl_dict with
      | [] => Returns []
      | d0 :: ds =>
          let min_date := min_list d0 ds in
          let max_date := max_list d0 ds in
          daily_pnl_dict ←
            (if fill_gaps then
               fill_gaps_loop (Z.to_nat (max_date - min_date + 2)) min_date max_date
                 daily_pnl_dict
             else Returns daily_pnl_dict);
          let sorted_dates := py_sorted (fun d => d) (dict_keys daily_pnl_dict) in
          rows_loop daily_pnl_dict sorted_dates zero []
      end
  end.

(** [Aggregate(account_id=self.account_id)] *)
Definition empty_aggregate : Aggregate := {|
  agg_account_id := self_account_id;
  total_realized_pnl := None; total_lots_closed := None; total_trades := None;
  winning_lots := None; losing_lots := None;
  total_gains := None; total_losses := None;
  win_rate := None; profit_factor := None;
  average_gain := None; average_loss := None;
  best_symbol := None; best_symbol_pnl := None;
  worst_symbol := None; worst_symbol_pnl := None;
  best_weekday := None; best_weekday_pnl := None;
  worst_weekday := None; worst_weekday_pnl := None;
  first_trade_date := None; last_trade_date := None
|}.

(** [pnl[key(lot)] += lot.realized_pnl] for every lot, on a
    [defaultdict(Decimal)]. *)
Definition pnl_by (key : ClosedLot -> string) (closed_lots : list ClosedLot)
    : list (string * Decimal) :=
  fold_left
    (fun pnl lot =>
       dict_set pnl (key lot)
         (dadd (default zero (dict_get pnl (key lot))) (realized_pnl lot)))
    closed_lots [].

Definition weekday_name (lot : ClosedLot) : string :=
  default "" (weekday_names !! weekday (close_date lot)).

(** Best and worst entry of a P&L table, [None]s when it is empty. *)
Definition best_of (pnl : list (string * Decimal)) : option string * option Decimal :=
  match pnl with
  | [] => (None, None)
  | x :: l => let best := py_max_by x l in (Some best.1, Some best.2)
  end.
Definition worst_of (pnl : list (string * Decimal)) : option string * option Decimal :=
  match pnl with
  | [] => (None, None)
  | x :: l => let worst := py_min_by x l in (Some worst.1, Some worst.2)
  end.

Definition calculate_aggregates (closed_lots : list ClosedLot)
    (per_day_pnl : list PerDayPnL) : result Aggregate :=
  match closed_lots with
  | [] => Returns empty_aggregate
  | _ =>
      let total_pnl := py_sum (map realized_pnl closed_lots) in
      let total_lots := length closed_lots in
      let winning := winners closed_lots in
      let losing := losers closed_lots in
      let gains := py_sum (map realized_pnl winning) in
      let losses := py_sum (map realized_pnl losing) in
      win_rate ←
        (if (0 <? total_lots)%nat then
           r ← ddiv (Decimal_of_int (Z.of_nat (length winning)))
                    (Decimal_of_int (Z.of_nat total_lots));
           Returns (Some r)
         else Returns None);
      profit_factor ←
        (if dltb losses zero then r ← ddiv gains (dabs losses); Returns (Some r)
         else Returns None);
      avg_gain ←
        (match winning with
         | [] => Returns None
         | _ => r ← ddiv gains (Decimal_of_int (Z.of_nat (length winning)));
                Returns (Some r)
         end);
      avg_loss ←
        (match losing with
         | [] => Returns None
         | _ => r ← ddiv losses (Decimal_of_int (Z.of_nat (length losing)));
                Returns (Some r)
         end);
      let '(best_sym, best_sym_pnl) := best_of (pnl_by lot_symbol closed_lots) in
      let '(worst_sym, worst_sym_pnl) := worst_of (pnl_by lot_symbol closed_lots) in
      let '(best_day, best_day_pnl) := best_of (pnl_by weekday_name closed_lots) in
      let '(worst_day, worst_day_pnl) := worst_of (pnl_by weekday_name closed_lots) in
      let first_date := day_date <$> head per_day_pnl in
      let last_date := day_date <$> last per_day_pnl in
      let trades := (total_lots * 2)%nat in
      q_total ← quantize total_pnl cent;
      q_gains ← quantize gains cent;
      q_losses ← quantize losses cent;
      q_win_rate ← quantize_if win_rate basis_point;
      q_profit_factor ← quantize_if profit_factor cent;
      q_avg_gain ← quantize_if avg_gain cent;
      q_avg_loss ← quantize_if avg_loss cent;
      q_best_sym ← quantize_if best_sym_pnl cent;
      q_worst_sym ← quantize_if worst_sym_pnl cent;
      q_best_day ← quantize_if best_day_pnl cent;
      q_worst_day ← quantize_if worst_day_pnl cent;
      Returns {|
        agg_account_id := self_account_id;
        total_realized_pnl := Some q_total;
        total_lots_closed := Some total_lots;
        total_trades := Some trades;
        winning_lots := Some (length winning);
        losing_lots := Some (length losing);
        total_gains := Some q_gains;
        total_losses := Some q_losses;
        win_rate := q_win_rate;
        profit_factor := q_profit_factor;
        average_gain := q_avg_gain;
        average_loss := q_avg_loss;
        best_symbol := best_sym;
        best_symbol_pnl := q_best_sym;
        worst_symbol := worst_sym;
        worst_symbol_pnl := q_worst_sym;
        best_weekday := best_day;
        best_weekday_pnl := q_best_day;
        worst_weekday := worst_day;
        worst_weekday_pnl := q_worst_day;
        first_trade_date := first_date;
        last_trade_date := last_date
      |}
  end.
End Metrics.

(** ** [EnhancedMetricsCalculator.calculate_streaks]
    ([app/services/enhanced_metrics.py]) *)

Record Streaks : Type := mkStreaks {
  current_streak : Z;
  longest_win_streak : Z;
  longest_loss_streak : Z
}.

(** The local variables of the loop. *)
Record streak_state : Type := mkStreakState {
  st_current_streak : Z;
  st_longest_win_streak : Z;
  st_longest_loss_streak : Z;
  st_current_win_streak : Z;
  st_current_loss_streak : Z
}.

Definition streak_step (st : streak_state) (lot : ClosedLot) : streak_state :=
  if dgtb (realized_pnl lot) zero then
    let current_win_streak := st_current_win_streak st + 1 in
    {| st_current_win_streak := current_win_streak;
       st_current_loss_streak := 0;
       st_current_streak := current_win_streak;
       st_longest_win_streak := Z.max (st_longest_win_streak st) current_win_streak;
       st_longest_loss_streak := st_longest_loss_streak st |}
  else if dltb (realized_pnl lot) zero then
    let current_loss_streak := st_current_loss_streak st + 1 in
    {| st_current_loss_streak := current_loss_streak;
       st_current_win_streak := 0;
       st_current_streak := - current_loss_streak;
       st_longest_loss_streak := Z.max (st_longest_loss_streak st) current_loss_streak;
       st_longest_win_streak := st_longest_win_streak st |}
  else
    {| st_current_win_streak := 0;
       st_current_loss_streak := 0;
       st_current_streak := st_current_streak st;
       st_longest_win_streak := st_longest_win_streak st;
       st_longest_loss_streak := st_longest_loss_streak st |}.

Definition calculate_streaks (lots : list ClosedLot) : Streaks :=
  let sorted_lots := py_sorted close_executed_at lots in
  let st := fold_left streak_step sorted_lots (mkStreakState 0 0 0 0 0) in
  {| current_streak := st_current_streak st;
     longest_win_streak := st_longest_win_streak st;
     longest_loss_streak := st_longest_loss_streak st |}.

(** ** The pipeline of [app/api/ingest.py]

    [fifo_engine.process_trades(trades)], then
    [calculator.generate_daily_pnl_series(closed_lots, fill_gaps=True)], then
    [calculator.calculate_aggregates(closed_lots, daily_pnl_series)]. *)

Definition pipeline (est_date : datetime -> date) (acct : option string)
    (engine : FIFOEngine) (trades : list NormalizedTrade)
    : result (FIFOEngine * list ClosedLot * list PerDayPnL * Aggregate) :=
  '(engine, lots) ← process_trades engine trades;
  series ← generate_daily_pnl_series est_date acct lots true;
  aggregate ← calculate_aggregates est_date acct lots series;
  Returns (engine, lots, series, aggregate).

(** ** Validated input

    [TradeBase] ([app/schemas/trade.py]) admits [0 < quantity <= 1000000] and
    [0 < price <= 100000]; the columns of [NormalizedTrade] keep 8 fractional
    digits of a quantity and 2 of a price.  In units of 1e-8 shares and of
    cents: *)

Definition valid_quantity (q : Decimal) : Prop :=
  -8 <= dexp q /\ 0 < align (-8) q <= 10 ^ 14.

Definition valid_price (p : Decimal) : Prop :=
  -2 <= dexp p /\ 0 < align (-2) p <= 10 ^ 7.

Definition valid_trade (t : NormalizedTrade) : Prop :=
  valid_quantity (quantity t) /\ valid_price (price t).

(** A monetary amount with at most 2 fractional digits, and its value in
    cents. *)
Definition cents (d : Decimal) : Z := align (-2) d.

(** Lots whose P&L has at most two fractional digits (the [realized_pnl]
    column) and whose absolute values add up to fewer than 28 digits of
    cents. *)
Definition money_lots (lots : list ClosedLot) : Prop :=
  Forall (fun lot => -2 <= dexp (realized_pnl lot)) lots /\
  sum_Z (map (fun lot => Z.abs (cents (realized_pnl lot))) lots) < 10 ^ 28.

(** The price difference of a lot in cents, signed so that a gain is
    positive, and the P&L formula of the specification in integer units:
    cents times 1e-8 shares, rounded half-up to cents. *)
Definition price_move (lot : ClosedLot) : Z :=
  if String.eqb (position_type lot) "LONG"
  then cents (close_price lot) - cents (open_price lot)
  else cents (open_price lot) - cents (close_price lot).

Definition pnl_formula (lot : ClosedLot) : Decimal :=
  mkDecimal (round_half_up (price_move lot * align (-8) (open_quantity lot)) 8) (-2).

(** The P&L expression of [_create_closed_lot] before quantization. *)
Definition raw_pnl (lot : ClosedLot) : Decimal :=
  if String.eqb (position_type lot) "LONG"
  then dmul (dsub (close_price lot) (open_price lot)) (open_quantity lot)
  else dmul (dsub (open_price lot) (close_price lot)) (open_quantity lot).

(** At most one of the two queues of a symbol holds entries. *)
Definition one_sided (e : FIFOEngine) : Prop :=
  forall sym, queue_of (long_queues e) sym = [] \/ queue_of (short_queues e) sym = [].

(** ** Invariants of the engine on validated trades *)

(** An unmatched quantity inside the loop: valid, or used up. *)
Definition leftover (q : Decimal) : Prop :=
  -8 <= dexp q /\ 0 <= align (-8) q <= 10 ^ 14.

Definition entry_ok (en : entry) : Prop :=
  valid_price (price en.1) /\ valid_quantity en.2.

Definition lot_exact (lot : ClosedLot) : Prop :=
  (position_type lot = "LONG" \/ position_type lot = "SHORT") /\
  quantize (raw_pnl lot) cent = Returns (realized_pnl lot) /\
  realized_pnl lot = pnl_formula lot.

(** Every open entry and every lot of the engine is well formed. *)
Definition engine_ok (e : FIFOEngine) : Prop :=
  (forall sym, Forall entry_ok (queue_of (long_queues e) sym)) /\
  (forall sym, Forall entry_ok (queue_of (short_queues e) sym)) /\
  Forall lot_exact (closed_lots e).

(** ** Sample data *)

Definition sample_trade (i : N) (sym sd : string) (q p : Decimal) (t : datetime)
    : NormalizedTrade :=
  mkTrade i None sym sd q p t None.

(** 2024-01-01 10:00 UTC and 2024-01-02 10:00 UTC, as POSIX seconds. *)
Definition jan1 : datetime := 1704103200.
Definition jan2 : datetime := 1704189600.

(** SELL 100@160.00 then BUY 100@150.00 *)
Definition short_trades : list NormalizedTrade :=
  [sample_trade 1 "AAPL" "SELL" (mkDecimal 100 0) (mkDecimal 16000 (-2)) jan1;
   sample_trade 2 "AAPL" "BUY" (mkDecimal 100 0) (mkDecimal 15000 (-2)) jan2].

(** BUY 3@100.33 then SELL 3@100.67 *)
Definition rounding_trades : list NormalizedTrade :=
  [sample_trade 1 "AAPL" "BUY" (mkDecimal 3 0) (mkDecimal 10033 (-2)) jan1;
   sample_trade 2 "AAPL" "SELL" (mkDecimal 3 0) (mkDecimal 10067 (-2)) jan2].

(** BUY 100@150.00, BUY 100@155.00, SELL 250@160.00 *)
Definition buy_150 : NormalizedTrade :=
  sample_trade 1 "AAPL" "BUY" (mkDecimal 100 0) (mkDecimal 15000 (-2)) jan1.
Definition buy_155 : NormalizedTrade :=
  sample_trade 2 "AAPL" "BUY" (mkDecimal 10000 (-2)) (mkDecimal 15500 (-2)) jan1.
Definition sell_160 : NormalizedTrade :=
  sample_trade 3 "AAPL" "SELL" (mkDecimal 250 0) (mkDecimal 16000 (-2)) jan2.

Definition sample_lot (sym : string) (pnl : Decimal) (closed_at : datetime) : ClosedLot :=
  mkLot None sym "LONG" 1%N (mkDecimal 100 0) (mkDecimal 15000 (-2)) jan1
        2%N (mkDecimal 100 0) (mkDecimal 16000 (-2)) closed_at pnl.

(** A lot that lost 1.00, one that won 10.00, one that broke even. *)
Definition losing_lot : ClosedLot := sample_lot "AAPL" (mkDecimal (-100) (-2)) jan1.
Definition winning_lot : ClosedLot := sample_lot "AAPL" (mkDecimal 1000 (-2)) jan1.
Definition breakeven_lot : ClosedLot := sample_lot "AAPL" (mkDecimal 0 (-2)) jan2.

(** A calendar for the samples: UTC-5 all year (ordinal 719163 is
    1970-01-01). *)
Definition fixed_est_date (t : datetime) : date := 719163 + (t - 18000) / 86400.

(** ** Invariants used to state further properties *)

(** The counters of [calculate_streaks] stay ordered. *)
Definition streak_inv (st : streak_state) : Prop :=
  0 <= st_current_win_streak st <= st_longest_win_streak st /\
  0 <= st_current_loss_streak st <= st_longest_loss_streak st /\
  - st_longest_loss_streak st <= st_current_streak st <= st_longest_win_streak st.


(** Lots whose P&L is zero: neither winning nor losing. *)
Definition breakeven (closed_lots : list ClosedLot) : list ClosedLot :=
  filter (fun lot => deqb (realized_pnl lot) zero = true) closed_lots.

(** The side that opens a position of a type, and the side that closes it. *)
Definition opening_side (pos : string) : string :=
  if String.eqb pos "LONG" then "BUY" else "SELL".
Definition closing_side (pos : string) : string :=
  if String.eqb pos "LONG" then "SELL" else "BUY".

(** [lot] pairs the opening trade [o] with the closing trade [c]. *)
Definition lot_pairs (lot : ClosedLot) (o c : NormalizedTrade) : Prop :=
  (position_type lot = "LONG" \/ position_type lot = "SHORT") /\
  side o = opening_side (position_type lot) /\
  side c = closing_side (position_type lot) /\
  symbol c = symbol o /\ lot_symbol lot = symbol o /\
  lot_account_id lot = account_id o /\
  open_trade_id lot = id o /\ close_trade_id lot = id c /\
  open_price lot = price o /\ close_price lot = price c /\
  open_executed_at lot = executed_at o /\ close_executed_at lot = executed_at c /\
  close_quantity lot = open_quantity lot.

(** [o] stands before [c] in [trades]. *)
Definition before (trades : list NormalizedTrade) (o c : NormalizedTrade) : Prop :=
  exists l1 l2 l3, trades = l1 ++ o :: l2 ++ c :: l3.

Definition lot_from (trades : list NormalizedTrade) (lot : ClosedLot) : Prop :=
  exists o c, before trades o c /\ lot_pairs lot o c.

Definition entry_from (trades : list NormalizedTrade) (pos sym : string) (en : entry) : Prop :=
  en.1 ∈ trades /\ symbol en.1 = sym /\ side en.1 = opening_side pos.

(** Every open entry and every lot of the engine comes from [trades]. *)
Definition engine_from (trades : list NormalizedTrade) (e : FIFOEngine) : Prop :=
  (forall sym, Forall (entry_from trades "LONG" sym) (queue_of (long_queues e) sym)) /\
  (forall sym, Forall (entry_from trades "SHORT" sym) (queue_of (short_queues e) sym)) /\
  Forall (lot_from trades) (closed_lots e).

(** ** Share counts, in units of 1e-8 shares *)

Definition shares (q : Decimal) : Z := align (-8) q.

(** Shares still open in a queue. *)
Definition open_shares (queue : list entry) : Z :=
  sum_Z (map (fun en => shares en.2) queue).

(** Shares traded on side [sd] in symbol [sym]. *)
Definition traded_shares (sd sym : string) (trades : list NormalizedTrade) : Z :=
  sum_Z (map (fun t => shares (quantity t))
             (filter (fun t => side t = sd /\ symbol t = sym) trades)).

(** Shares matched into lots of symbol [sym]. *)
Definition matched_shares (sym : string) (lots : list ClosedLot) : Z :=
  sum_Z (map (fun lot => shares (open_quantity lot))
             (filter (fun lot => lot_symbol lot = sym) lots)).

(** Bought shares are matched or open long, sold shares matched or open
    short. *)
Definition conserved (trades : list NormalizedTrade) (e : FIFOEngine) : Prop :=
  forall sym,
    traded_shares "BUY" sym trades
    = matched_shares sym (closed_lots e) + open_shares (queue_of (long_queues e) sym) /\
    traded_shares "SELL" sym trades
    = matched_shares sym (closed_lots e) + open_shares (queue_of (short_queues e) sym).

(** ** [FIFOEngine.get_open_positions] ([app/services/fifo_engine.py]) *)

(** One value of the returned dict: ["type"], ["quantity"],
    ["average_price"], ["lots"]. *)
Record Position : Type := mkPosition {
  pos_type : string;
  pos_quantity : Decimal;
  pos_average_price : Decimal;
  pos_lots : nat
}.

(** The summary of one non-empty queue. *)
Definition position_of (type : string) (queue : list entry) : result Position :=
  let total_qty := py_sum (map snd queue) in
  avg_price ←
    (if dgtb total_qty zero then
       ddiv (py_sum (map (fun en => dmul (price en.1) en.2) queue)) total_qty
     else Returns zero);
  average_price ← quantize avg_price cent;
  Returns (mkPosition type total_qty average_price (length queue)).

(** [for symbol, queue in self.long_queues.items()] *)
Fixpoint long_positions (items : list (string * list entry))
    (positions : list (string * Position)) : result (list (string * Position)) :=
  match items with
  | [] => Returns positions
  | (sym, queue) :: rest =>
      match queue with
      | [] => long_positions rest positions
      | _ =>
          p ← position_of "LONG" queue;
          long_positions rest (dict_set positions sym p)
      end
  end.

(** [for symbol, queue in self.short_queues.items()] *)
Fixpoint short_positions (items : list (string * list entry))
    (positions : list (string * Position)) : result (list (string * Position)) :=
  match items with
  | [] => Returns positions
  | (sym, queue) :: rest =>
      match queue with
      | [] => short_positions rest positions
      | _ =>
          p ← position_of "SHORT" queue;
          let key := if dict_mem positions sym then (sym +:+ "_SHORT")%string else sym in
          short_positions rest (dict_set positions key p)
      end
  end.

(** The body of [get_open_positions], given the two [.items()] sequences. *)
Definition get_open_positions (long_items short_items : list (string * list entry))
    : result (list (string * Position)) :=
  positions ← long_positions long_items [];
  short_positions short_items positions.

(** [queues.items()] lists the keys of a dict with their deques in insertion
    order.  The maps of [FIFOEngine] do not record that order: [items] is any
    listing of the entries of [queues]. *)
Definition items_of (queues : gmap string (list entry))
    (items : list (string * list entry)) : Prop :=
  items ≡ₚ map_to_list queues.

(** BUY 100@150.00 then SELL 60@160.00 *)
Definition partial_fill_trades : list NormalizedTrade :=
  [sample_trade 1 "AAPL" "BUY" (mkDecimal 100 0) (mkDecimal 15000 (-2)) jan1;
   sample_trade 2 "AAPL" "SELL" (mkDecimal 60 0) (mkDecimal 16000 (-2)) jan2].

(** ** Totals per symbol *)

(** The summed P&L of the lots of one symbol, as [symbol_pnl[sym]] holds it. *)
Definition symbol_total (sym : string) (lots : list ClosedLot) : Decimal :=
  py_sum (map realized_pnl (filter (fun lot => lot_symbol lot = sym) lots)).

Definition two_symbol_lots : list ClosedLot :=
  [winning_lot; sample_lot "TSLA" (mkDecimal (-100) (-2)) jan2].

(** ** One symbol at a time *)

(** The trades, and the lots, of one symbol. *)
Definition on_symbol (sym : string) (trades : list NormalizedTrade) : list NormalizedTrade :=
  filter (fun t => symbol t = sym) trades.

Definition lots_of_symbol (sym : string) (lots : list ClosedLot) : list ClosedLot :=
  filter (fun lot => lot_symbol lot = sym) lots.

(** Every deque holds trades of its own key only. *)
Definition queues_keyed (e : FIFOEngine) : Prop :=
  forall s, Forall (fun en : entry => symbol en.1 = s) (queue_of (long_queues e) s) /\
            Forall (fun en : entry => symbol en.1 = s) (queue_of (short_queues e) s).

(** [es] is what engine [e] holds for [sym]. *)
Definition symbol_view (sym : string) (e es : FIFOEngine) : Prop :=
  queue_of (long_queues es) sym = queue_of (long_queues e) sym /\
  queue_of (short_queues es) sym = queue_of (short_queues e) sym /\
  closed_lots es = lots_of_symbol sym (closed_lots e).

Definition two_symbol_trades : list NormalizedTrade :=
  [ sample_trade 1 "AAPL" "BUY" (mkDecimal 100 0) (mkDecimal 15000 (-2)) jan1;
    sample_trade 2 "TSLA" "SELL" (mkDecimal 10 0) (mkDecimal 20000 (-2)) jan1;
    sample_trade 3 "AAPL" "SELL" (mkDecimal 60 0) (mkDecimal 16000 (-2)) jan2;
    sample_trade 4 "TSLA" "BUY" (mkDecimal 10 0) (mkDecimal 19000 (-2)) jan2 ].

(** The summed P&L of the lots closing on a weekday, as [weekday_pnl[name]]
    holds it. *)
Definition weekday_total (est_date : datetime -> date) (name : string)
    (lots : list ClosedLot) : Decimal :=
  py_sum (map realized_pnl (filter (fun lot => weekday_name est_date lot = name) lots)).

(** The P&L of a lot in cents. *)
Definition pnl_cents (lot : ClosedLot) : Z := cents (realized_pnl lot).

(** ** The rows of the daily series *)

(** The lots closing on a day, and what [daily_pnl_dict] holds for it. *)
Definition lots_on (est_date : datetime -> date) (day : date) (lots : list ClosedLot)
    : list ClosedLot :=
  filter (fun lot => close_date est_date lot = day) lots.

Definition day_spec (est_date : datetime -> date) (day : date) (lots : list ClosedLot)
    : Decimal * nat :=
  (py_sum (map realized_pnl (lots_on est_date day lots)), length (lots_on est_date day lots)).

(** A table with one entry per key, a key for every closing date, and under
    each key the total and the count of the lots of that day. *)
Definition table_ok (est_date : datetime -> date) (lots : list ClosedLot)
    (d : list (date * (Decimal * nat))) : Prop :=
  NoDup (dict_keys d) /\
  (forall lot, lot ∈ lots -> close_date est_date lot ∈ dict_keys d) /\
  (forall k v, dict_get d k = Some v -> v = day_spec est_date k lots).

(** The trades that the engine acts on. *)
Definition buys_and_sells (trades : list NormalizedTrade) : list NormalizedTrade :=
  filter (fun t => side t = "BUY" \/ side t = "SELL") trades.
(** * Properties *)

(** ** Decimal arithmetic *)

Example div_1_3 :
  ddiv (Decimal_of_int 1) (Decimal_of_int 3)
  = Returns (mkDecimal 3333333333333333333333333333 (-28)).
Proof. reflexivity. Qed.

Example div_2_3 :
  ddiv (Decimal_of_int 2) (Decimal_of_int 3)
  = Returns (mkDecimal 6666666666666666666666666667 (-28)).
Proof. reflexivity. Qed.

Example div_100_10 :
  ddiv (Decimal_of_int 100) (Decimal_of_int 10) = Returns (mkDecimal 10 0).
Proof. reflexivity. Qed.

Example div_1_8 :
  ddiv (Decimal_of_int 1) (Decimal_of_int 8) = Returns (mkDecimal 125 (-3)).
Proof. reflexivity. Qed.

Example add_rounds_to_precision :
  dadd (mkDecimal 99999999999999999999999999995 0) zero
  = mkDecimal 1000000000000000000000000000 2.
Proof. reflexivity. Qed.

Example quantize_half_up_tie :
  quantize (mkDecimal (-5) (-3)) cent = Returns (mkDecimal (-1) (-2)).
Proof. reflexivity. Qed.

Lemma ndigits_aux_spec (fuel : nat) (n : Z) :
  0 < n -> n < 2 ^ (Z.of_nat fuel + 1) ->
  10 ^ (ndigits_aux fuel n - 1) <= n < 10 ^ ndigits_aux fuel n /\ 1 <= ndigits_aux fuel n.
Proof.
  revert n. induction fuel as [|fuel IH]; intros n Hpos Hlt.
  - simpl in *. lia.
  - cbn [ndigits_aux]. destruct (Z.ltb_spec n 10) as [Hn|Hn].
    + simpl. lia.
    + assert (Hq : 0 < n / 10) by (apply Z.div_str_pos; lia).
      assert (Hq2 : n / 10 < 2 ^ (Z.of_nat fuel + 1)).
      { apply Z.div_lt_upper_bound; [lia|].
        replace (Z.of_nat (S fuel) + 1) with (Z.succ (Z.of_nat fuel + 1)) in Hlt by lia.
        rewrite Z.pow_succ_r in Hlt by lia. lia. }
      destruct (IH _ Hq Hq2) as [[Hlo Hhi] H1].
      replace (1 + ndigits_aux fuel (n / 10) - 1) with (Z.succ (ndigits_aux fuel (n / 10) - 1)) by lia.
      replace (1 + ndigits_aux fuel (n / 10)) with (Z.succ (ndigits_aux fuel (n / 10))) by lia.
      rewrite !Z.pow_succ_r by lia.
      pose proof (Z.mul_div_le n 10 ltac:(lia)).
      pose proof (Z.mod_pos_bound n 10 ltac:(lia)).
      pose proof (Z.div_mod n 10 ltac:(lia)).
      lia.
Qed.

Lemma ndigits_zero : ndigits 0 = 1.
Proof. reflexivity. Qed.

Lemma ndigits_pos (c : Z) : 1 <= ndigits c.
Proof.
  unfold ndigits. destruct (Z.eq_dec c 0) as [->|Hc]; [simpl; lia|].
  apply ndigits_aux_spec; [lia|].
  rewrite Z2Nat.id by apply Z.log2_nonneg.
  apply Z.log2_spec. lia.
Qed.

Lemma ndigits_spec (c : Z) :
  c <> 0 -> 10 ^ (ndigits c - 1) <= Z.abs c < 10 ^ ndigits c.
Proof.
  intros Hc. unfold ndigits. apply ndigits_aux_spec; [lia|].
  rewrite Z2Nat.id by apply Z.log2_nonneg.
  apply Z.log2_spec. lia.
Qed.

Lemma ndigits_le (c k : Z) : 1 <= k -> Z.abs c < 10 ^ k -> ndigits c <= k.
Proof.
  intros Hk Hc. destruct (Z.eq_dec c 0) as [->|Hne]; [rewrite ndigits_zero; lia|].
  destruct (ndigits_spec c Hne) as [Hlo _].
  destruct (Z.le_gt_cases (ndigits c) k) as [|Hgt]; [done|].
  assert (10 ^ k <= 10 ^ (ndigits c - 1)) by (apply Z.pow_le_mono_r; lia).
  lia.
Qed.

Lemma fix_prec_small (d : Decimal) : Z.abs (coef d) < 10 ^ prec -> fix_prec d = d.
Proof.
  intros H. unfold fix_prec.
  pose proof (ndigits_le (coef d) prec ltac:(unfold prec; lia) H) as Hn.
  destruct (Z.leb_spec (ndigits (coef d)) prec); [done|lia].
Qed.

Lemma pow10_pos (k : Z) : 0 <= k -> 0 < 10 ^ k.
Proof. intros. apply Z.pow_pos_nonneg; lia. Qed.

Lemma pow10_ge1 (k : Z) : 0 <= k -> 1 <= 10 ^ k.
Proof. intros. pose proof (pow10_pos k). lia. Qed.

Lemma align_shift (e0 e : Z) (d : Decimal) :
  e0 <= e -> e <= dexp d -> align e0 d = align e d * 10 ^ (e - e0).
Proof.
  intros H1 H2. unfold align.
  replace (dexp d - e0) with ((dexp d - e) + (e - e0)) by lia.
  rewrite Z.pow_add_r by lia. lia.
Qed.

Lemma align_self (d : Decimal) : align (dexp d) d = coef d.
Proof. unfold align. rewrite Z.sub_diag. simpl. lia. Qed.

Lemma abs_coef_le_align (e : Z) (d : Decimal) :
  e <= dexp d -> Z.abs (coef d) <= Z.abs (align e d).
Proof.
  intros H. unfold align. rewrite Z.abs_mul.
  pose proof (pow10_ge1 (dexp d - e) ltac:(lia)).
  rewrite (Z.abs_eq (10 ^ _)) by lia. nia.
Qed.

Lemma align_sign (e : Z) (d : Decimal) :
  e <= dexp d -> Z.sgn (align e d) = Z.sgn (coef d).
Proof.
  intros H. unfold align. rewrite Z.sgn_mul.
  rewrite (Z.sgn_pos (10 ^ _)) by (apply pow10_pos; lia). lia.
Qed.

Lemma align_dneg (e : Z) (d : Decimal) : align e (dneg d) = - align e d.
Proof. unfold align, dneg. simpl. lia. Qed.

Lemma exact_add_align (e0 : Z) (a b : Decimal) :
  e0 <= dexp a -> e0 <= dexp b ->
  align e0 (exact_add a b) = align e0 a + align e0 b.
Proof.
  intros Ha Hb.
  rewrite (align_shift e0 (Z.min (dexp a) (dexp b)) a) by lia.
  rewrite (align_shift e0 (Z.min (dexp a) (dexp b)) b) by lia.
  unfold exact_add, align at 1. simpl. lia.
Qed.

Lemma exact_mul_align (e1 e2 : Z) (a b : Decimal) :
  e1 <= dexp a -> e2 <= dexp b ->
  align (e1 + e2) (exact_mul a b) = align e1 a * align e2 b.
Proof.
  intros Ha Hb. unfold exact_mul, align. simpl.
  replace (dexp a + dexp b - (e1 + e2)) with ((dexp a - e1) + (dexp b - e2)) by lia.
  rewrite Z.pow_add_r by lia. lia.
Qed.

Lemma dadd_exact (e0 : Z) (a b : Decimal) :
  e0 <= dexp a -> e0 <= dexp b ->
  Z.abs (align e0 a + align e0 b) < 10 ^ prec ->
  dadd a b = exact_add a b.
Proof.
  intros Ha Hb Hlt. unfold dadd. apply fix_prec_small.
  rewrite <- exact_add_align in Hlt by done.
  assert (He : e0 <= dexp (exact_add a b)) by (simpl; lia).
  pose proof (abs_coef_le_align e0 (exact_add a b) He). lia.
Qed.

Lemma dsub_exact (e0 : Z) (a b : Decimal) :
  e0 <= dexp a -> e0 <= dexp b ->
  Z.abs (align e0 a - align e0 b) < 10 ^ prec ->
  dsub a b = exact_sub a b.
Proof.
  intros Ha Hb Hlt. unfold dsub, exact_sub.
  apply (dadd_exact e0); [done|done|]. rewrite align_dneg. lia.
Qed.

Lemma exact_sub_align (e0 : Z) (a b : Decimal) :
  e0 <= dexp a -> e0 <= dexp b ->
  align e0 (exact_sub a b) = align e0 a - align e0 b.
Proof.
  intros Ha Hb. unfold exact_sub. rewrite exact_add_align by done.
  rewrite align_dneg. lia.
Qed.

Lemma exact_sub_dexp (a b : Decimal) :
  dexp (exact_sub a b) = Z.min (dexp a) (dexp b).
Proof. reflexivity. Qed.

Lemma dmul_exact (e1 e2 : Z) (a b : Decimal) :
  e1 <= dexp a -> e2 <= dexp b ->
  Z.abs (align e1 a * align e2 b) < 10 ^ prec ->
  dmul a b = exact_mul a b.
Proof.
  intros Ha Hb Hlt. unfold dmul. apply fix_prec_small.
  rewrite <- exact_mul_align in Hlt by done.
  assert (He : e1 + e2 <= dexp (exact_mul a b)) by (simpl; lia).
  pose proof (abs_coef_le_align (e1 + e2) (exact_mul a b) He). lia.
Qed.

Lemma dcompare_align (e0 : Z) (a b : Decimal) :
  e0 <= dexp a -> e0 <= dexp b ->
  dcompare a b = (align e0 a ?= align e0 b).
Proof.
  intros Ha Hb. unfold dcompare.
  rewrite (align_shift e0 (Z.min (dexp a) (dexp b)) a) by lia.
  rewrite (align_shift e0 (Z.min (dexp a) (dexp b)) b) by lia.
  pose proof (pow10_pos (Z.min (dexp a) (dexp b) - e0) ltac:(lia)) as Hp.
  apply Zmult_compare_compat_r. lia.
Qed.

Lemma dltb_align (e0 : Z) (a b : Decimal) :
  e0 <= dexp a -> e0 <= dexp b -> dltb a b = (align e0 a <? align e0 b).
Proof.
  intros Ha Hb. unfold dltb. rewrite (dcompare_align e0) by done.
  unfold Z.ltb. by destruct (_ ?= _).
Qed.

Lemma deqb_align (e0 : Z) (a b : Decimal) :
  e0 <= dexp a -> e0 <= dexp b -> deqb a b = (align e0 a =? align e0 b).
Proof.
  intros Ha Hb. unfold deqb. rewrite (dcompare_align e0) by done.
  destruct (Z.eqb_spec (align e0 a) (align e0 b)) as [->|Hne].
  - by rewrite Z.compare_refl.
  - destruct (_ ?= _) eqn:E; try done. by apply Z.compare_eq_iff in E.
Qed.

Lemma dgtb_zero (a : Decimal) : dgtb a zero = (0 <? coef a).
Proof.
  unfold dgtb. rewrite (dltb_align (Z.min 0 (dexp a))) by (simpl; lia).
  unfold align at 1. simpl coef. rewrite Z.mul_0_l.
  pose proof (align_sign (Z.min 0 (dexp a)) a ltac:(lia)) as Hs.
  destruct (Z.ltb_spec 0 (align (Z.min 0 (dexp a)) a)), (Z.ltb_spec 0 (coef a)); lia.
Qed.

Lemma dltb_zero (a : Decimal) : dltb a zero = (coef a <? 0).
Proof.
  rewrite (dltb_align (Z.min 0 (dexp a))) by (simpl; lia).
  unfold align at 2. simpl coef. rewrite Z.mul_0_l.
  pose proof (align_sign (Z.min 0 (dexp a)) a ltac:(lia)) as Hs.
  destruct (Z.ltb_spec (align (Z.min 0 (dexp a)) a) 0), (Z.ltb_spec (coef a) 0); lia.
Qed.

Lemma deqb_zero (a : Decimal) : deqb a zero = (coef a =? 0).
Proof.
  rewrite (deqb_align (Z.min 0 (dexp a))) by (simpl; lia).
  unfold align at 2. simpl coef. rewrite Z.mul_0_l.
  pose proof (align_sign (Z.min 0 (dexp a)) a ltac:(lia)) as Hs.
  destruct (Z.eqb_spec (align (Z.min 0 (dexp a)) a) 0), (Z.eqb_spec (coef a) 0); lia.
Qed.

Lemma fix_prec_zero (e : Z) : fix_prec (mkDecimal 0 e) = mkDecimal 0 e.
Proof. apply fix_prec_small. simpl. unfold prec. lia. Qed.

Lemma dsub_self (a : Decimal) : dsub a a = mkDecimal 0 (dexp a).
Proof.
  unfold dsub, dadd, exact_add, align, dneg. simpl.
  rewrite Z.min_id, Z.sub_diag.
  replace (coef a * 10 ^ 0 + - coef a * 10 ^ 0) with 0 by lia.
  apply fix_prec_zero.
Qed.

Lemma round_half_up_0 (c : Z) : round_half_up c 0 = c.
Proof.
  unfold round_half_up. simpl. rewrite Z.div_1_r, Z.mod_1_r. simpl. lia.
Qed.

Lemma round_half_up_zero (k : Z) : round_half_up 0 k = 0.
Proof. unfold round_half_up. simpl. lia. Qed.

Lemma round_half_up_scale (c j k : Z) :
  0 <= j -> 0 <= k -> round_half_up (c * 10 ^ j) (k + j) = round_half_up c k.
Proof.
  intros Hj Hk. unfold round_half_up.
  pose proof (pow10_pos j Hj) as Hpj. pose proof (pow10_pos k Hk) as Hpk.
  rewrite Z.pow_add_r by lia.
  rewrite Z.abs_mul, (Z.abs_eq (10 ^ j)) by lia.
  rewrite Z.div_mul_cancel_r by lia.
  rewrite Z.mul_mod_distr_r by lia.
  rewrite Z.sgn_mul, (Z.sgn_pos (10 ^ j)) by lia.
  rewrite Z.mul_1_r. f_equal.
  destruct (Z.leb_spec (10 ^ k * 10 ^ j) (2 * (Z.abs c mod 10 ^ k * 10 ^ j))),
           (Z.leb_spec (10 ^ k) (2 * (Z.abs c mod 10 ^ k))); try done; nia.
Qed.

Lemma round_half_up_bound (c k : Z) :
  1 <= k -> Z.abs c < 10 ^ prec -> Z.abs (round_half_up c k) < 10 ^ prec.
Proof.
  intros Hk Hc. unfold round_half_up.
  pose proof (pow10_pos k ltac:(lia)) as Hp.
  assert (H10 : 10 <= 10 ^ k).
  { replace k with (Z.succ (k - 1)) by lia. rewrite Z.pow_succ_r by lia.
    pose proof (pow10_pos (k - 1) ltac:(lia)). lia. }
  assert (Hq : 0 <= Z.abs c / 10 ^ k <= Z.abs c / 10).
  { split; [apply Z.div_pos; lia|]. apply Z.div_le_compat_l; lia. }
  assert (Hq2 : Z.abs c / 10 < 10 ^ 27).
  { apply Z.div_lt_upper_bound; [lia|]. unfold prec in Hc. lia. }
  rewrite Z.abs_mul.
  assert (Hs : Z.abs (Z.sgn c) <= 1) by lia.
  unfold prec.
  destruct (10 ^ k <=? 2 * (Z.abs c mod 10 ^ k)); nia.
Qed.

Lemma quantize_exact (d q : Decimal) :
  dexp q <= dexp d -> Z.abs (align (dexp q) d) < 10 ^ prec ->
  quantize d q = Returns (mkDecimal (align (dexp q) d) (dexp q)).
Proof.
  intros He Hlt. unfold quantize.
  destruct (Z.eqb_spec (coef d) 0) as [H0|Hne].
  { unfold align. rewrite H0. by rewrite Z.mul_0_l. }
  assert (Hg : dexp d + ndigits (coef d) - dexp q <= prec).
  { destruct (ndigits_spec (coef d) Hne) as [Hlo _].
    destruct (Z.le_gt_cases (dexp d + ndigits (coef d) - dexp q) prec) as [|Hgt]; [done|].
    exfalso. unfold align in Hlt. rewrite Z.abs_mul in Hlt.
    pose proof (pow10_pos (dexp d - dexp q) ltac:(lia)) as Hp.
    rewrite (Z.abs_eq (10 ^ _)) in Hlt by lia.
    assert (10 ^ prec <= 10 ^ (ndigits (coef d) - 1) * 10 ^ (dexp d - dexp q)).
    { pose proof (ndigits_pos (coef d)).
      rewrite <- Z.pow_add_r by lia. apply Z.pow_le_mono_r; lia. }
    nia. }
  destruct (Z.ltb_spec prec (dexp d + ndigits (coef d) - dexp q)); [lia|].
  unfold rescale_half_up. destruct (Z.leb_spec (dexp q) (dexp d)); [|lia].
  simpl coef.
  pose proof (ndigits_le _ prec ltac:(unfold prec; lia) Hlt).
  destruct (Z.ltb_spec prec (ndigits (align (dexp q) d))); [lia|done].
Qed.

Lemma quantize_round (d q : Decimal) :
  dexp d < dexp q -> Z.abs (coef d) < 10 ^ prec ->
  quantize d q = Returns (mkDecimal (round_half_up (coef d) (dexp q - dexp d)) (dexp q)).
Proof.
  intros He Hlt. unfold quantize.
  destruct (Z.eqb_spec (coef d) 0) as [H0|Hne].
  { by rewrite H0, round_half_up_zero. }
  pose proof (ndigits_le _ prec ltac:(unfold prec; lia) Hlt).
  destruct (Z.ltb_spec prec (dexp d + ndigits (coef d) - dexp q)); [lia|].
  unfold rescale_half_up. destruct (Z.leb_spec (dexp q) (dexp d)); [lia|].
  simpl coef.
  pose proof (round_half_up_bound (coef d) (dexp q - dexp d) ltac:(lia) Hlt) as Hr.
  pose proof (ndigits_le _ prec ltac:(unfold prec; lia) Hr).
  destruct (Z.ltb_spec prec (ndigits (round_half_up (coef d) (dexp q - dexp d)))); [lia|done].
Qed.

(** Quantizing to cents an amount with at most ten fractional digits. *)
Lemma quantize_cent (d : Decimal) :
  -10 <= dexp d -> Z.abs (align (-10) d) < 10 ^ prec ->
  quantize d cent = Returns (mkDecimal (round_half_up (align (-10) d) 8) (-2)).
Proof.
  intros He Hlt.
  destruct (Z.le_gt_cases (-2) (dexp d)) as [Hge|Hlow].
  - rewrite (align_shift (-10) (-2) d) in * by lia.
    change (-2 - -10) with 8 in *.
    pose proof (round_half_up_scale (align (-2) d) 8 0 ltac:(lia) ltac:(lia)) as Hr.
    change (0 + 8) with 8 in Hr. rewrite Hr, round_half_up_0.
    apply (quantize_exact d cent); simpl; [lia|].
    rewrite Z.abs_mul in Hlt. simpl in Hlt. lia.
  - pose proof (abs_coef_le_align (-10) d He).
    rewrite (quantize_round d cent) by (simpl; lia).
    simpl dexp. do 2 f_equal. unfold align.
    replace 8 with ((-2 - dexp d) + (dexp d - -10)) at 1 by lia.
    rewrite round_half_up_scale by lia. done.
Qed.

(** ** The matching loop *)

Lemma queue_of_insert (m : gmap string (list entry)) (sym sym' : string) (q : list entry) :
  queue_of (<[sym := q]> m) sym' = if decide (sym = sym') then q else queue_of m sym'.
Proof.
  unfold queue_of. rewrite lookup_insert. by destruct (decide (sym = sym')).
Qed.

Lemma queue_of_empty (sym : string) : queue_of ∅ sym = [].
Proof. unfold queue_of. by rewrite lookup_empty. Qed.

Lemma create_closed_lot_not_nofuel (ot ct : NormalizedTrade) (q : Decimal) (pos : string) :
  _create_closed_lot ot ct q pos <> NoFuel.
Proof.
  unfold _create_closed_lot, quantize.
  repeat (case_match; simpl); done.
Qed.

(** What is left of a deque entry that was not used up leaves nothing of
    the closing trade. *)
Lemma partial_match_exhausts (r oq : Decimal) :
  deqb (dsub oq (py_min r oq)) zero = false ->
  dgtb (dsub r (py_min r oq)) zero = false.
Proof.
  unfold py_min. destruct (dltb oq r).
  - rewrite dsub_self, deqb_zero. done.
  - intros _. rewrite dsub_self, dgtb_zero. done.
Qed.

Lemma match_loop_fuel (fuel : nat) (trade : NormalizedTrade) (pos : string)
    (r : Decimal) (queue : list entry) (lots : list ClosedLot) :
  (length queue < fuel)%nat \/ ((0 < fuel)%nat /\ dgtb r zero = false) ->
  match_loop fuel trade pos r queue lots <> NoFuel.
Proof.
  revert r queue lots. induction fuel as [|fuel IH]; intros r queue lots Hf.
  { lia. }
  cbn [match_loop]. destruct (dgtb r zero) eqn:Hr; [|done].
  destruct Hf as [Hlen|[_ ?]]; [|done].
  destruct queue as [|[ot oq] rest]; [done|].
  pose proof (create_closed_lot_not_nofuel ot trade (py_min r oq) pos) as Hc.
  destruct (_create_closed_lot ot trade (py_min r oq) pos) as [lot| |]; [|done|done].
  cbn. destruct (deqb (dsub oq (py_min r oq)) zero) eqn:Hq.
  - apply IH. left. simpl in Hlen. lia.
  - apply IH. right. split; [simpl in Hlen; lia|].
    by apply partial_match_exhausts.
Qed.

(** The loop of [_match_against_queue] always runs to completion. *)
Lemma match_against_queue_fuel (lots : list ClosedLot) (trade : NormalizedTrade)
    (qty : Decimal) (queue : list entry) (pos : string) :
  _match_against_queue lots trade qty queue pos <> NoFuel.
Proof. apply match_loop_fuel. left. lia. Qed.

(** On exit, a positive remainder means the deque was drained; lots are
    only appended. *)
Lemma match_loop_drained (fuel : nat) (trade : NormalizedTrade) (pos : string)
    (r : Decimal) (queue : list entry) (lots : list ClosedLot)
    (r' : Decimal) (queue' : list entry) (lots' : list ClosedLot) :
  match_loop fuel trade pos r queue lots = Returns (r', queue', lots') ->
  (dgtb r' zero = true -> queue' = []) /\ (queue = [] -> queue' = []).
Proof.
  revert r queue lots. induction fuel as [|fuel IH]; intros r queue lots H; [done|].
  cbn [match_loop] in H. destruct (dgtb r zero) eqn:Hr.
  - destruct queue as [|[ot oq] rest].
    + by inversion H.
    + destruct (_create_closed_lot ot trade (py_min r oq) pos) as [lot| |]; [|done|done].
      cbn in H. apply IH in H as [H1 _]. split; [done|done].
  - inversion H; subst. split; [congruence|done].
Qed.

Lemma process_trade_one_sided (e e' : FIFOEngine) (trade : NormalizedTrade) :
  one_sided e -> _process_trade e trade = Returns e' -> one_sided e'.
Proof.
  intros Hinv H. unfold _process_trade in H.
  destruct (String.eqb (side trade) "BUY").
  - unfold _match_against_queue in H.
    destruct (match_loop _ _ _ _ _ _) as [[[r q] lots]| |] eqn:Hm; [|done|done].
    cbn in H. inversion H; subst; clear H.
    apply match_loop_drained in Hm as [Hd He].
    intros sym. simpl. destruct (dgtb r zero) eqn:Hr.
    + rewrite !queue_of_insert. destruct (decide (symbol trade = sym)) as [->|Hne].
      * right. by apply Hd.
      * apply Hinv.
    + rewrite queue_of_insert. destruct (decide (symbol trade = sym)) as [<-|Hne].
      * destruct (Hinv (symbol trade)) as [Hl|Hs]; [by left|right; by apply He].
      * apply Hinv.
  - destruct (String.eqb (side trade) "SELL"); [|by inversion H; subst].
    unfold _match_against_queue in H.
    destruct (match_loop _ _ _ _ _ _) as [[[r q] lots]| |] eqn:Hm; [|done|done].
    cbn in H. inversion H; subst; clear H.
    apply match_loop_drained in Hm as [Hd He].
    intros sym. simpl. destruct (dgtb r zero) eqn:Hr.
    + rewrite !queue_of_insert. destruct (decide (symbol trade = sym)) as [->|Hne].
      * left. by apply Hd.
      * apply Hinv.
    + rewrite queue_of_insert. destruct (decide (symbol trade = sym)) as [<-|Hne].
      * destruct (Hinv (symbol trade)) as [Hl|Hs]; [left; by apply He|by right].
      * apply Hinv.
Qed.

Lemma process_each_one_sided (trades : list NormalizedTrade) (e e' : FIFOEngine) :
  one_sided e -> process_each e trades = Returns e' -> one_sided e'.
Proof.
  revert e. induction trades as [|t trades IH]; intros e Hinv H.
  - by inversion H; subst.
  - cbn [process_each] in H.
    destruct (_process_trade e t) as [e1| |] eqn:Ht; [|done|done].
    cbn in H. eapply IH; [|done]. by eapply process_trade_one_sided.
Qed.

Lemma process_each_app (pre post : list NormalizedTrade) (e : FIFOEngine) :
  process_each e (pre ++ post) = (e1 ← process_each e pre; process_each e1 post).
Proof.
  revert e. induction pre as [|t pre IH]; intros e; [done|].
  cbn [process_each app]. destruct (_process_trade e t) as [e1| |]; [|done|done].
  cbn. apply IH.
Qed.

Lemma new_engine_one_sided : one_sided new_engine.
Proof. intros sym. left. apply queue_of_empty. Qed.

(** ** Lots of validated trades *)

Lemma valid_quantity_leftover (q : Decimal) : valid_quantity q -> leftover q.
Proof. unfold valid_quantity, leftover. lia. Qed.

Lemma leftover_positive (q : Decimal) :
  leftover q -> dgtb q zero = true -> valid_quantity q.
Proof.
  intros [He [Hlo Hhi]] Hpos. rewrite dgtb_zero in Hpos.
  apply Z.ltb_lt in Hpos. split; [done|]. split; [|done].
  pose proof (align_sign (-8) q He). lia.
Qed.

Lemma py_min_valid (r oq : Decimal) :
  valid_quantity r -> valid_quantity oq ->
  valid_quantity (py_min r oq) /\
  align (-8) (py_min r oq) = Z.min (align (-8) r) (align (-8) oq).
Proof.
  intros Hr Ho. unfold py_min.
  rewrite (dltb_align (-8)) by (unfold valid_quantity in *; lia).
  destruct (Z.ltb_spec (align (-8) oq) (align (-8) r)); split; try done; lia.
Qed.

(** Subtracting a smaller valid quantity is exact. *)
Lemma dsub_quantity (a m : Decimal) :
  valid_quantity a -> valid_quantity m -> align (-8) m <= align (-8) a ->
  leftover (dsub a m) /\ align (-8) (dsub a m) = align (-8) a - align (-8) m.
Proof.
  intros [Ha [Ha1 Ha2]] [Hm [Hm1 Hm2]] Hle.
  rewrite (dsub_exact (-8)) by (try done; unfold prec; lia).
  rewrite (exact_sub_align (-8)) by done.
  split; [|done]. split; [rewrite exact_sub_dexp; lia|].
  rewrite (exact_sub_align (-8)) by done. lia.
Qed.

Lemma create_closed_lot_exact (ot ct : NormalizedTrade) (q : Decimal) (pos : string) :
  valid_price (price ot) -> valid_price (price ct) -> valid_quantity q ->
  pos = "LONG" \/ pos = "SHORT" ->
  exists lot,
    _create_closed_lot ot ct q pos = Returns lot /\
    lot_exact lot /\
    position_type lot = pos /\ open_trade_id lot = id ot /\ close_trade_id lot = id ct /\
    open_quantity lot = q /\ close_quantity lot = q /\
    open_price lot = price ot /\ close_price lot = price ct /\
    lot_symbol lot = symbol ot.
Proof.
  intros [Ho [Ho1 Ho2]] [Hc [Hc1 Hc2]] [Hq [Hq1 Hq2]] Hside.
  assert (Hraw : forall a b, -2 <= dexp a -> -2 <= dexp b ->
            0 < align (-2) a <= 10 ^ 7 -> 0 < align (-2) b <= 10 ^ 7 ->
            quantize (dmul (dsub a b) q) cent =
            Returns (mkDecimal
              (round_half_up ((align (-2) a - align (-2) b) * align (-8) q) 8) (-2))).
  { intros a b Ha Hb Ha1 Hb1.
    rewrite (dsub_exact (-2)) by (try done; unfold prec; lia).
    assert (He : -2 <= dexp (exact_sub a b)) by (rewrite exact_sub_dexp; lia).
    pose proof (exact_sub_align (-2) a b Ha Hb) as Hs.
    assert (Hb28 : Z.abs (align (-2) (exact_sub a b) * align (-8) q) < 10 ^ prec).
    { rewrite Hs. unfold prec. nia. }
    rewrite (dmul_exact (-2) (-8)) by done.
    pose proof (exact_mul_align (-2) (-8) (exact_sub a b) q He Hq) as Hm.
    change (-2 + -8) with (-10) in Hm.
    rewrite quantize_cent; [by rewrite Hm, Hs| simpl; lia | by rewrite Hm]. }
  unfold _create_closed_lot. destruct (String.eqb pos "LONG") eqn:Hpos.
  - pose proof (Hraw _ _ Hc Ho (conj Hc1 Hc2) (conj Ho1 Ho2)) as Hq'. rewrite Hq'. cbn.
    eexists. split; [done|].
    unfold lot_exact, raw_pnl, pnl_formula, price_move, cents. simpl. rewrite Hpos.
    repeat split; done.
  - pose proof (Hraw _ _ Ho Hc (conj Ho1 Ho2) (conj Hc1 Hc2)) as Hq'. rewrite Hq'. cbn.
    eexists. split; [done|].
    unfold lot_exact, raw_pnl, pnl_formula, price_move, cents. simpl. rewrite Hpos.
    repeat split; done.
Qed.

Lemma match_loop_valid (fuel : nat) (trade : NormalizedTrade) (pos : string)
    (r : Decimal) (queue : list entry) (lots : list ClosedLot) :
  (length queue < fuel)%nat ->
  pos = "LONG" \/ pos = "SHORT" ->
  valid_price (price trade) -> leftover r ->
  Forall entry_ok queue -> Forall lot_exact lots ->
  exists r' queue' lots',
    match_loop fuel trade pos r queue lots = Returns (r', queue', lots') /\
    leftover r' /\ Forall entry_ok queue' /\ Forall lot_exact lots'.
Proof.
  intros Hf Hside. revert r queue lots Hf.
  induction fuel as [|fuel IH]; intros r queue lots Hf Hp Hr Hq Hl.
  { lia. }
  cbn [match_loop]. destruct (dgtb r zero) eqn:Hpos; [|by eauto 10].
  destruct queue as [|[ot oq] rest]; [by eauto 10|].
  apply Forall_cons in Hq as [[Hop Hoq] Hrest]. simpl in Hop, Hoq.
  pose proof (leftover_positive r Hr Hpos) as Hrv.
  destruct (py_min_valid r oq Hrv Hoq) as [Hmv Hmin].
  destruct (create_closed_lot_exact ot trade (py_min r oq) pos Hop Hp Hmv Hside)
    as (lot & -> & Hlot & _).
  cbn.
  destruct (dsub_quantity r (py_min r oq) Hrv Hmv ltac:(lia)) as [Hr' Hr'eq].
  destruct (dsub_quantity oq (py_min r oq) Hoq Hmv ltac:(lia)) as [Ho' Ho'eq].
  assert (Hl' : Forall lot_exact (lots ++ [lot])).
  { apply Forall_app. split; [done|]. by apply Forall_singleton. }
  destruct (deqb (dsub oq (py_min r oq)) zero) eqn:Hz.
  - apply IH; try done. simpl in Hf. lia.
  - assert (Hnz : dgtb (dsub r (py_min r oq)) zero = false)
      by (by apply partial_match_exhausts).
    destruct fuel as [|fuel]; [simpl in Hf; lia|].
    cbn [match_loop]. rewrite Hnz. eexists _, _, _. split; [done|].
    split; [done|]. split; [|done].
    apply Forall_cons. split; [|done]. split; [done|]. simpl.
    destruct Ho' as [He [Hlo Hhi]]. split; [done|]. split; [|done].
    rewrite deqb_zero in Hz. apply Z.eqb_neq in Hz.
    pose proof (align_sign (-8) _ He). lia.
Qed.

Lemma new_engine_ok : engine_ok new_engine.
Proof.
  repeat split; try (intros sym; rewrite queue_of_empty); constructor.
Qed.

Lemma queues_insert_ok (m : gmap string (list entry)) (sym : string) (q : list entry) :
  (forall s, Forall entry_ok (queue_of m s)) -> Forall entry_ok q ->
  forall s, Forall entry_ok (queue_of (<[sym := q]> m) s).
Proof.
  intros Hm Hq s. rewrite queue_of_insert. by destruct (decide (sym = s)).
Qed.

Lemma process_trade_valid (e : FIFOEngine) (trade : NormalizedTrade) :
  engine_ok e -> valid_trade trade ->
  exists e', _process_trade e trade = Returns e' /\ engine_ok e'.
Proof.
  intros (Hlong & Hshort & Hlots) [Hq Hp]. unfold _process_trade.
  destruct (String.eqb (side trade) "BUY").
  - destruct (match_loop_valid (S (length (queue_of (short_queues e) (symbol trade))))
                trade "SHORT" (quantity trade) (queue_of (short_queues e) (symbol trade))
                (closed_lots e) ltac:(lia) ltac:(by right) Hp
                (valid_quantity_leftover _ Hq) (Hshort _) Hlots)
      as (r & q & lots & Hm & Hr & Hq' & Hl').
    unfold _match_against_queue. rewrite Hm. cbn. eexists. split; [done|].
    split; [|split; [|done]]; simpl.
    + destruct (dgtb r zero) eqn:Hpos; [|done].
      apply queues_insert_ok; [done|]. apply Forall_app. split; [done|].
      apply Forall_singleton. split; [done|]. by apply leftover_positive.
    + by apply queues_insert_ok.
  - destruct (String.eqb (side trade) "SELL"); [|exists e; by repeat split].
    destruct (match_loop_valid (S (length (queue_of (long_queues e) (symbol trade))))
                trade "LONG" (quantity trade) (queue_of (long_queues e) (symbol trade))
                (closed_lots e) ltac:(lia) ltac:(by left) Hp
                (valid_quantity_leftover _ Hq) (Hlong _) Hlots)
      as (r & q & lots & Hm & Hr & Hq' & Hl').
    unfold _match_against_queue. rewrite Hm. cbn. eexists. split; [done|].
    split; [|split; [|done]]; simpl.
    + by apply queues_insert_ok.
    + destruct (dgtb r zero) eqn:Hpos; [|done].
      apply queues_insert_ok; [done|]. apply Forall_app. split; [done|].
      apply Forall_singleton. split; [done|]. by apply leftover_positive.
Qed.

Lemma process_each_valid (trades : list NormalizedTrade) (e : FIFOEngine) :
  engine_ok e -> Forall valid_trade trades ->
  exists e', process_each e trades = Returns e' /\ engine_ok e'.
Proof.
  revert e. induction trades as [|t trades IH]; intros e He Hv.
  - by eauto.
  - apply Forall_cons in Hv as [Ht Hv].
    destruct (process_trade_valid e t He Ht) as (e1 & H1 & He1).
    cbn [process_each]. rewrite H1. cbn. by apply IH.
Qed.

Lemma match_loop_empty (fuel : nat) (trade : NormalizedTrade) (pos : string)
    (r : Decimal) (lots : list ClosedLot) :
  match_loop (S fuel) trade pos r [] lots = Returns (r, [], lots).
Proof. cbn [match_loop]. by destruct (dgtb r zero). Qed.

Lemma match_loop_pop (fuel : nat) (trade : NormalizedTrade) (pos : string)
    (r : Decimal) (ot : NormalizedTrade) (oq : Decimal) (rest : list entry)
    (lots : list ClosedLot) (lot : ClosedLot) :
  dgtb r zero = true ->
  _create_closed_lot ot trade (py_min r oq) pos = Returns lot ->
  deqb (dsub oq (py_min r oq)) zero = true ->
  match_loop (S fuel) trade pos r ((ot, oq) :: rest) lots
  = match_loop fuel trade pos (dsub r (py_min r oq)) rest (lots ++ [lot]).
Proof.
  intros Hr Hlot Hz. cbn [match_loop]. rewrite Hr, Hlot. cbn. by rewrite Hz.
Qed.

Lemma process_buy_opens (e : FIFOEngine) (t : NormalizedTrade) :
  side t = "BUY" -> valid_quantity (quantity t) ->
  queue_of (short_queues e) (symbol t) = [] ->
  _process_trade e t =
  Returns (mkEngine
    (<[symbol t := queue_of (long_queues e) (symbol t) ++ [(t, quantity t)]]> (long_queues e))
    (<[symbol t := []]> (short_queues e))
    (closed_lots e)).
Proof.
  intros Hside [He [Hpos _]] Hq. unfold _process_trade, _match_against_queue.
  rewrite Hside, Hq. cbn [String.eqb Ascii.eqb Bool.eqb length].
  rewrite match_loop_empty. cbn.
  rewrite dgtb_zero. pose proof (align_sign (-8) (quantity t) He).
  destruct (Z.ltb_spec 0 (coef (quantity t))); [done|lia].
Qed.

Lemma align_zero_coef (e : Z) (d : Decimal) : e <= dexp d -> align e d = 0 -> coef d = 0.
Proof. intros He H0. pose proof (align_sign e d He). lia. Qed.

(** C1. FIFO order: two BUYs of one symbol followed by a SELL that covers
    both give exactly two LONG lots for that SELL, the first closing the whole
    of the earlier BUY, the second the whole of the later BUY. *)
Theorem fifo_order_two_buys_one_sell (self : FIFOEngine) (b1 b2 s : NormalizedTrade) :
  side b1 = "BUY" -> side b2 = "BUY" -> side s = "SELL" ->
  symbol b2 = symbol b1 -> symbol s = symbol b1 ->
  valid_trade b1 -> valid_trade b2 -> valid_trade s ->
  align (-8) (quantity b1) + align (-8) (quantity b2) <= align (-8) (quantity s) ->
  exists e lot1 lot2,
    process_trades self [b1; b2; s] = Returns (e, [lot1; lot2]) /\
    (open_trade_id lot1 = id b1 /\ close_trade_id lot1 = id s /\
     position_type lot1 = "LONG" /\
     open_quantity lot1 = quantity b1 /\ close_quantity lot1 = quantity b1) /\
    (open_trade_id lot2 = id b2 /\ close_trade_id lot2 = id s /\
     position_type lot2 = "LONG" /\
     deqb (open_quantity lot2) (quantity b2) = true /\
     close_quantity lot2 = open_quantity lot2) /\
    queue_of (long_queues e) (symbol b1) = [].
Proof.
  intros Hb1 Hb2 Hs Hsym2 Hsyms [Hq1 Hp1] [Hq2 Hp2] [Hqs Hps] Hsum.
  unfold process_trades. cbn [process_each].
  rewrite (process_buy_opens _ b1) by (try done; apply queue_of_empty). cbn.
  rewrite (process_buy_opens _ b2);
    [|done|done|simpl; rewrite Hsym2, queue_of_insert; by rewrite decide_True].
  cbn. rewrite Hsym2, !queue_of_insert, !decide_True, queue_of_empty by done.
  unfold _process_trade, _match_against_queue. rewrite Hs, Hsyms.
  change (String.eqb "SELL" "BUY") with false.
  change (String.eqb "SELL" "SELL") with true. cbn match.
  simpl long_queues. simpl closed_lots.
  rewrite !queue_of_insert, !decide_True by done. simpl app. simpl length.
  (* first iteration: the whole of the earlier BUY *)
  pose proof Hq1 as [He1 [Hq1lo Hq1hi]]. pose proof Hq2 as [He2 [Hq2lo Hq2hi]].
  pose proof Hqs as [Hes [Hqslo Hqshi]].
  assert (Hmin1 : py_min (quantity s) (quantity b1) = quantity b1).
  { unfold py_min. rewrite (dltb_align (-8)) by done.
    destruct (Z.ltb_spec (align (-8) (quantity b1)) (align (-8) (quantity s))); [done|lia]. }
  destruct (create_closed_lot_exact b1 s (quantity b1) "LONG" Hp1 Hps Hq1 ltac:(by left))
    as (lot1 & Hlot1 & _ & Hpos1 & Ho1 & Hc1 & Hoq1 & Hcq1 & _).
  rewrite (match_loop_pop _ _ _ _ _ _ _ _ lot1);
    [|by rewrite dgtb_zero; apply Z.ltb_lt; pose proof (align_sign (-8) (quantity s) Hes); lia|by rewrite Hmin1|by rewrite Hmin1, dsub_self, deqb_zero].
  rewrite Hmin1.
  (* second iteration: the whole of the later BUY *)
  destruct (dsub_quantity (quantity s) (quantity b1) Hqs Hq1 ltac:(lia)) as [Hr1 Hr1eq].
  remember (dsub (quantity s) (quantity b1)) as r1 eqn:Er1. clear Er1.
  assert (Hr1pos : dgtb r1 zero = true).
  { rewrite dgtb_zero. destruct Hr1 as [He _]. pose proof (align_sign (-8) r1 He).
    destruct (Z.ltb_spec 0 (coef r1)); [done|lia]. }
  pose proof (leftover_positive r1 Hr1 Hr1pos) as Hr1v.
  destruct (py_min_valid r1 (quantity b2) Hr1v Hq2) as [Hm2v Hm2].
  remember (py_min r1 (quantity b2)) as m2 eqn:Em2.
  assert (Hm2eq : align (-8) m2 = align (-8) (quantity b2)) by lia.
  destruct (create_closed_lot_exact b2 s m2 "LONG" Hp2 Hps Hm2v ltac:(by left))
    as (lot2 & Hlot2 & _ & Hpos2 & Ho2 & Hc2 & Hoq2 & Hcq2 & _).
  destruct (dsub_quantity (quantity b2) m2 Hq2 Hm2v ltac:(lia)) as [[Hd2 _] Hd2eq].
  rewrite (match_loop_pop _ _ _ _ _ _ _ _ lot2); [|done|by rewrite <- Em2|].
  2:{ rewrite <- Em2, deqb_zero. apply Z.eqb_eq. apply (align_zero_coef (-8)); [done|lia]. }
  rewrite match_loop_empty. cbn.
  eexists _, lot1, lot2. split; [done|].
  split; [done|]. split.
  - repeat split; try done.
    + rewrite Hoq2. rewrite (deqb_align (-8)) by (try done; apply Hm2v).
      by apply Z.eqb_eq.
    + by rewrite Hcq2, Hoq2.
  - simpl. destruct (dgtb _ zero); simpl; by rewrite !queue_of_insert, !decide_True.
Qed.

Lemma fifo_order_witness :
  exists e lot1 lot2,
    process_trades new_engine [buy_150; buy_155; sell_160] = Returns (e, [lot1; lot2]) /\
    (open_trade_id lot1 = 1%N /\ close_trade_id lot1 = 3%N /\
     position_type lot1 = "LONG" /\
     open_quantity lot1 = mkDecimal 100 0 /\ close_quantity lot1 = mkDecimal 100 0) /\
    (open_trade_id lot2 = 2%N /\ close_trade_id lot2 = 3%N /\
     position_type lot2 = "LONG" /\
     deqb (open_quantity lot2) (mkDecimal 10000 (-2)) = true /\
     close_quantity lot2 = open_quantity lot2) /\
    queue_of (long_queues e) "AAPL" = [].
Proof.
  apply (fifo_order_two_buys_one_sell new_engine buy_150 buy_155 sell_160);
    try reflexivity;
    try (unfold valid_trade, valid_quantity, valid_price, align; simpl; lia).
Defined.

(** C2. Realized P&L of every emitted lot: on validated trades the engine
    returns, and each lot is LONG or SHORT with [realized_pnl] the single
    half-up rounding to cents of the exact product
    (close - open) x quantity for LONG, (open - close) x quantity for SHORT.
    SELL 100@160.00 then BUY 100@150.00 gives one SHORT lot of 1000.00;
    BUY 3@100.33 then SELL 3@100.67 gives 1.02. *)
Theorem closed_lot_realized_pnl (self : FIFOEngine) (trades : list NormalizedTrade) :
  Forall valid_trade trades ->
  (exists e lots,
     process_trades self trades = Returns (e, lots) /\
     Forall (fun lot =>
       (position_type lot = "LONG" \/ position_type lot = "SHORT") /\
       quantize (raw_pnl lot) cent = Returns (realized_pnl lot) /\
       realized_pnl lot = pnl_formula lot) lots) /\
  (exists e lot,
     process_trades self short_trades = Returns (e, [lot]) /\
     position_type lot = "SHORT" /\ realized_pnl lot = mkDecimal 100000 (-2)) /\
  (exists e lot,
     process_trades self rounding_trades = Returns (e, [lot]) /\
     position_type lot = "LONG" /\ realized_pnl lot = mkDecimal 102 (-2)).
Proof.
  intros Hv. split; [|split].
  - destruct (process_each_valid trades (mkEngine ∅ ∅ []) new_engine_ok Hv)
      as (e & He & _ & _ & Hlots).
    unfold process_trades. rewrite He. cbn. by eauto.
  - by eexists _, _.
  - by eexists _, _.
Qed.

Lemma closed_lot_realized_pnl_witness :
  exists e lots,
    process_trades new_engine [buy_150; buy_155; sell_160] = Returns (e, lots) /\
    Forall (fun lot =>
       (position_type lot = "LONG" \/ position_type lot = "SHORT") /\
       quantize (raw_pnl lot) cent = Returns (realized_pnl lot) /\
       realized_pnl lot = pnl_formula lot) lots.
Proof.
  apply (closed_lot_realized_pnl new_engine [buy_150; buy_155; sell_160]).
  repeat constructor;
    unfold valid_quantity, valid_price, align; simpl; lia.
Defined.

(** C8. Empty input: each stage returns its empty result and does not raise. *)
Theorem empty_input_stages (est_date : datetime -> date) (acct : option string)
    (self : FIFOEngine) (fill_gaps : bool) (series : list PerDayPnL) :
  process_trades self [] = Returns (mkEngine ∅ ∅ [], []) /\
  generate_daily_pnl_series est_date acct [] fill_gaps = Returns [] /\
  calculate_aggregates est_date acct [] series = Returns (empty_aggregate acct) /\
  total_realized_pnl (empty_aggregate acct) = None /\
  total_lots_closed (empty_aggregate acct) = None /\
  win_rate (empty_aggregate acct) = None /\
  profit_factor (empty_aggregate acct) = None.
Proof. repeat split. Qed.

(** C9. Idempotence: a second run of the pipeline on the same trades, on
    the engine the first run left behind, returns the same lots, daily series
    and aggregate; [process_trades] starts from cleared containers whatever
    the engine held. *)
Theorem pipeline_idempotent (est_date : datetime -> date) (acct : option string)
    (engine e1 : FIFOEngine) (trades : list NormalizedTrade)
    (lots : list ClosedLot) (series : list PerDayPnL) (agg : Aggregate) :
  pipeline est_date acct engine trades = Returns (e1, lots, series, agg) ->
  pipeline est_date acct e1 trades = Returns (e1, lots, series, agg) /\
  lots = closed_lots e1 /\
  (forall e2, process_trades e2 trades = Returns (e1, lots)) /\
  process_each (mkEngine ∅ ∅ []) trades = Returns e1.
Proof.
  intros H. unfold pipeline, process_trades in *.
  destruct (process_each _ trades) as [e| |] eqn:He; [|done|done].
  cbn in *.
  destruct (generate_daily_pnl_series _ _ _ _) as [s| |]; [|done|done].
  cbn in *.
  destruct (calculate_aggregates _ _ _ _) as [a| |]; [|done|done].
  cbn in *. by inversion H; subst.
Qed.

Lemma pipeline_idempotent_witness :
  exists e1 lots series agg,
    pipeline fixed_est_date None e1 short_trades = Returns (e1, lots, series, agg) /\
    lots = closed_lots e1.
Proof.
  eassert (Hrun : pipeline fixed_est_date None new_engine short_trades = Returns _)
    by (vm_compute; reflexivity).
  destruct (pipeline_idempotent _ _ _ _ _ _ _ _ Hrun) as (H1 & H2 & _).
  eexists _, _, _, _. split; [exact H1|exact H2].
Defined.

(** C10. One side per symbol: in a run of [process_trades], after every
    trade, no symbol has entries in both its long and its short queue. *)
Theorem queues_one_sided (self e : FIFOEngine) (pre post : list NormalizedTrade)
    (lots : list ClosedLot) :
  process_trades self (pre ++ post) = Returns (e, lots) ->
  exists e1,
    process_each new_engine pre = Returns e1 /\
    process_each e1 post = Returns e /\
    one_sided e1 /\ one_sided e.
Proof.
  unfold process_trades. rewrite process_each_app. intros H.
  change (mkEngine ∅ ∅ []) with new_engine in H.
  destruct (process_each new_engine pre) as [e1| |] eqn:H1; [|done|done].
  cbn in H. destruct (process_each e1 post) as [e'| |] eqn:H2; [|done|done].
  cbn in H. inversion H; subst. exists e1.
  assert (one_sided e1) by (eapply process_each_one_sided; [apply new_engine_one_sided|done]).
  repeat split; try done. by eapply process_each_one_sided.
Qed.

Lemma queues_one_sided_witness :
  exists e1 e,
    process_each new_engine [buy_150; buy_155] = Returns e1 /\
    process_each e1 [sell_160] = Returns e /\
    one_sided e1 /\ one_sided e.
Proof.
  eassert (Hrun : process_trades new_engine ([buy_150; buy_155] ++ [sell_160]) = Returns _)
    by (vm_compute; reflexivity).
  destruct (queues_one_sided _ _ _ _ _ Hrun) as (e1 & H).
  exists e1. eexists. exact H.
Defined.

(** ** Streaks *)

Lemma insert_sorted_last {A : Type} (key : A -> Z) (x y : A) (l : list A) :
  key x <= key y -> insert_sorted key x (l ++ [y]) = insert_sorted key x l ++ [y].
Proof.
  intros Hxy. induction l as [|z l IH]; simpl.
  - destruct (Z.leb_spec (key x) (key y)); [done|lia].
  - destruct (key x <=? key z); [done|]. by rewrite IH.
Qed.

Lemma py_sorted_last {A : Type} (key : A -> Z) (y : A) (l : list A) :
  Forall (fun x => key x <= key y) l -> py_sorted key (l ++ [y]) = py_sorted key l ++ [y].
Proof.
  induction 1 as [|x l Hx Hl IH]; [done|].
  unfold py_sorted in *. simpl. rewrite IH. by apply insert_sorted_last.
Qed.

(** C5 (the code departs from the claim). A breakeven lot that closes last
    leaves [current_streak] at the value it had before that lot; it is not
    set to zero. *)
Theorem streak_survives_trailing_breakeven (lots : list ClosedLot) (lot : ClosedLot) :
  dgtb (realized_pnl lot) zero = false -> dltb (realized_pnl lot) zero = false ->
  Forall (fun l => close_executed_at l <= close_executed_at lot) lots ->
  current_streak (calculate_streaks (lots ++ [lot])) = current_streak (calculate_streaks lots).
Proof.
  intros Hw Hl Hlast. unfold calculate_streaks.
  rewrite py_sorted_last by done. rewrite fold_left_app. simpl.
  unfold streak_step at 1. by rewrite Hw, Hl.
Qed.

Lemma streak_survives_trailing_breakeven_witness :
  current_streak (calculate_streaks ([winning_lot] ++ [breakeven_lot]))
  = current_streak (calculate_streaks [winning_lot]).
Proof.
  apply (streak_survives_trailing_breakeven [winning_lot] breakeven_lot);
    [reflexivity|reflexivity|].
  repeat constructor. vm_compute. discriminate.
Defined.

Example streak_after_win_then_breakeven :
  calculate_streaks [winning_lot; breakeven_lot] = mkStreaks 1 1 0.
Proof. reflexivity. Qed.

(** ** Aggregates *)

Lemma round_half_even_nonzero (c k : Z) :
  0 <= k -> 10 ^ k <= Z.abs c -> round_half_even c k <> 0.
Proof.
  intros Hk Hc. unfold round_half_even.
  pose proof (pow10_pos k Hk) as Hp.
  assert (1 <= Z.abs c / 10 ^ k).
  { apply Z.div_le_lower_bound; lia. }
  assert (Z.sgn c <> 0) by lia.
  destruct ((10 ^ k <? 2 * (Z.abs c mod 10 ^ k)) || _); nia.
Qed.

Lemma fix_prec_nonzero (d : Decimal) : coef d <> 0 -> coef (fix_prec d) <> 0.
Proof.
  intros Hc. unfold fix_prec.
  destruct (Z.leb_spec (ndigits (coef d)) prec) as [|Hn]; [done|].
  destruct (ndigits_spec (coef d) Hc) as [Hlo _].
  assert (Hr : round_half_even (coef d) (ndigits (coef d) - prec) <> 0).
  { apply round_half_even_nonzero; [lia|].
    etrans; [|exact Hlo]. apply Z.pow_le_mono_r; unfold prec in *; lia. }
  destruct (Z.leb_spec (ndigits (round_half_even (coef d) (ndigits (coef d) - prec))) prec)
    as [|Hn2]; [done|].
  simpl. destruct (ndigits_spec _ Hr) as [Hlo2 _].
  assert (H10 : 10 ^ 1 <= 10 ^ (ndigits (round_half_even (coef d) (ndigits (coef d) - prec)) - 1))
    by (apply Z.pow_le_mono_r; unfold prec in *; lia).
  change (10 ^ 1) with 10 in H10.
  intros Hz. apply Z.div_small_iff in Hz; [|lia].
  clear Hlo Hn Hn2 Hr.
  remember (round_half_even _ _) as c' eqn:Ec. remember (10 ^ _) as p eqn:Ep.
  clear Ec Ep. lia.
Qed.

Lemma ddiv_zero_numerator (a b : Decimal) :
  coef a = 0 -> coef b <> 0 -> ddiv a b = Returns (mkDecimal 0 (dexp a - dexp b)).
Proof.
  intros Ha Hb. unfold ddiv.
  destruct (Z.eqb_spec (coef b) 0); [done|].
  rewrite Ha. simpl. by rewrite fix_prec_zero.
Qed.

Lemma dabs_nonzero (a : Decimal) : coef a <> 0 -> coef (dabs a) <> 0.
Proof. intros Ha. unfold dabs. apply fix_prec_nonzero. simpl. lia. Qed.

Lemma winners_none (lots : list ClosedLot) :
  Forall (fun lot => dgtb (realized_pnl lot) zero = false) lots -> winners lots = [].
Proof.
  unfold winners. induction 1 as [|lot lots Hlot _ IH]; [done|].
  rewrite filter_cons_False; [done|]. by rewrite Hlot.
Qed.

Lemma quantize_if_zero (e : Z) (q : Decimal) :
  quantize_if (Some (mkDecimal 0 e)) q = Returns None.
Proof. reflexivity. Qed.

(** Peel the monadic steps of a call that returned. *)
Ltac returned H :=
  repeat match type of H with
  | mbind _ ?r = Returns _ =>
      let E := fresh "E" in
      destruct r eqn:E; cbn [mbind result_bind] in H; [|discriminate H|discriminate H]
  | (let '(_, _) := ?p in _) = Returns _ => destruct p
  end.

(** C3 (the code departs from the claim). With lots but no winning lot,
    [calculate_aggregates] reports zero winning lots, the number of lots and the
    rounded total, but leaves [win_rate] absent instead of 0.0000. *)
Theorem win_rate_absent_without_winners (est_date : datetime -> date)
    (acct : option string) (lots : list ClosedLot) (series : list PerDayPnL)
    (agg : Aggregate) :
  lots <> [] ->
  Forall (fun lot => dgtb (realized_pnl lot) zero = false) lots ->
  calculate_aggregates est_date acct lots series = Returns agg ->
  win_rate agg = None /\
  winning_lots agg = Some 0%nat /\
  total_lots_closed agg = Some (length lots) /\
  quantize (py_sum (map realized_pnl lots)) cent = Returns (default zero (total_realized_pnl agg)).
Proof.
  intros Hne Hnone H. unfold calculate_aggregates in H.
  destruct lots as [|lot lots]; [done|].
  rewrite (winners_none _ Hnone) in H.
  change (0 <? length (lot :: lots))%nat with true in H.
  rewrite (ddiv_zero_numerator (Decimal_of_int (Z.of_nat (length (@nil ClosedLot))))
             (Decimal_of_int (Z.of_nat (length (lot :: lots))))) in H
    by (unfold Decimal_of_int; cbn [coef length]; lia).
  cbn [mbind result_bind] in H.
  returned H.
  match goal with
  | E : quantize_if (Some (mkDecimal 0 _)) _ = Returns _ |- _ =>
      rewrite quantize_if_zero in E; inversion E; subst
  end.
  inversion H; subst. simpl. done.
Qed.

Lemma win_rate_absent_without_winners_witness :
  exists agg,
    calculate_aggregates fixed_est_date None [losing_lot] [] = Returns agg /\
    win_rate agg = None /\ winning_lots agg = Some 0%nat /\
    total_lots_closed agg = Some 1%nat /\
    total_realized_pnl agg = Some (mkDecimal (-100) (-2)).
Proof.
  eassert (Hrun : calculate_aggregates fixed_est_date None [losing_lot] [] = Returns _)
    by (vm_compute; reflexivity).
  assert (Hnone : Forall (fun lot => dgtb (realized_pnl lot) zero = false) [losing_lot])
    by (repeat constructor).
  destruct (win_rate_absent_without_winners fixed_est_date None [losing_lot] [] _
              ltac:(discriminate) Hnone Hrun) as (H1 & H2 & H3 & _).
  eexists. split; [exact Hrun|]. split; [exact H1|]. split; [exact H2|].
  split; [exact H3|reflexivity].
Defined.

(** C4 (the code departs from the claim). With losing lots but no winning
    lot, total losses are not zero, yet [profit_factor] is left absent instead
    of 0.00. *)
Theorem profit_factor_absent_without_gains (est_date : datetime -> date)
    (acct : option string) (lots : list ClosedLot) (series : list PerDayPnL)
    (agg : Aggregate) :
  Forall (fun lot => dgtb (realized_pnl lot) zero = false) lots ->
  dltb (py_sum (map realized_pnl (losers lots))) zero = true ->
  calculate_aggregates est_date acct lots series = Returns agg ->
  profit_factor agg = None /\
  quantize (py_sum (map realized_pnl (losers lots))) cent
  = Returns (default zero (total_losses agg)).
Proof.
  intros Hnone Hloss H. unfold calculate_aggregates in H.
  destruct lots as [|lot lots]; [done|].
  rewrite (winners_none _ Hnone) in H. rewrite Hloss in H.
  rewrite (ddiv_zero_numerator (py_sum (map realized_pnl []))
             (dabs (py_sum (map realized_pnl (losers (lot :: lots)))))) in H.
  2: reflexivity.
  2:{ apply dabs_nonzero. rewrite dltb_zero in Hloss. apply Z.ltb_lt in Hloss. lia. }
  returned H.
  cbn [mbind result_bind] in *.
  match goal with
  | E : quantize_if (Some (mkDecimal 0 _)) cent = Returns _ |- _ =>
      rewrite quantize_if_zero in E; inversion E; subst
  end.
  inversion H; subst. simpl. done.
Qed.

Lemma profit_factor_absent_without_gains_witness :
  exists agg,
    calculate_aggregates fixed_est_date None [losing_lot] [] = Returns agg /\
    profit_factor agg = None /\
    total_losses agg = Some (mkDecimal (-100) (-2)) /\
    total_gains agg = Some (mkDecimal 0 (-2)).
Proof.
  eassert (Hrun : calculate_aggregates fixed_est_date None [losing_lot] [] = Returns _)
    by (vm_compute; reflexivity).
  assert (Hnone : Forall (fun lot => dgtb (realized_pnl lot) zero = false) [losing_lot])
    by (repeat constructor).
  destruct (profit_factor_absent_without_gains fixed_est_date None [losing_lot] [] _
              Hnone ltac:(reflexivity) Hrun) as (H1 & _).
  eexists. split; [exact Hrun|]. split; [exact H1|]. split; reflexivity.
Defined.

(** ** Dictionaries and sorting *)

Section PyDictFacts.
Context {K V : Type} `{EqDecision K}.
Implicit Types (d : list (K * V)) (k : K) (v : V).

Lemma dict_get_set d k v k' :
  dict_get (dict_set d k v) k' = if decide (k = k') then Some v else dict_get d k'.
Proof.
  induction d as [|[k0 v0] d IH]; simpl.
  - by destruct (decide (k = k')).
  - destruct (decide (k0 = k)) as [->|Hne]; simpl.
    + by destruct (decide (k = k')).
    + destruct (decide (k0 = k')) as [->|Hne'].
      * by rewrite decide_False by done.
      * done.
Qed.

Lemma dict_keys_get d k : k ∈ dict_keys d <-> is_Some (dict_get d k).
Proof.
  unfold dict_keys. induction d as [|[k0 v0] d IH]; simpl.
  - split; [by intros ?%elem_of_nil|by intros [? ?]].
  - rewrite elem_of_cons. destruct (decide (k0 = k)) as [->|Hne].
    + split; [by eauto|by left].
    + rewrite <- IH. naive_solver.
Qed.

Lemma dict_get_None d k : k ∉ dict_keys d -> dict_get d k = None.
Proof.
  intros Hk. destruct (dict_get d k) eqn:E; [|done].
  exfalso. apply Hk, dict_keys_get. by eauto.
Qed.

Lemma dict_keys_set d k v :
  dict_keys (dict_set d k v) = if dict_mem d k then dict_keys d else dict_keys d ++ [k].
Proof.
  unfold dict_mem. induction d as [|[k0 v0] d IH]; [done|].
  cbn [dict_set dict_get]. destruct (decide (k0 = k)) as [->|Hne]; [done|].
  change (dict_keys ((k0, v0) :: dict_set d k v)) with (k0 :: dict_keys (dict_set d k v)).
  rewrite IH. by destruct (dict_get d k).
Qed.

Lemma dict_set_NoDup d k v : NoDup (dict_keys d) -> NoDup (dict_keys (dict_set d k v)).
Proof.
  intros Hd. rewrite dict_keys_set. unfold dict_mem.
  destruct (dict_get d k) eqn:E; [done|].
  apply NoDup_app. split; [done|]. split; [|apply NoDup_singleton].
  intros x Hx ->%list_elem_of_singleton.
  apply dict_keys_get in Hx as [? ?]. congruence.
Qed.

Lemma dict_get_elem_of d k v :
  NoDup (dict_keys d) -> (k, v) ∈ d -> dict_get d k = Some v.
Proof.
  unfold dict_keys. induction d as [|[k0 v0] d IH]; simpl; intros Hd Hin.
  - by apply elem_of_nil in Hin.
  - apply NoDup_cons in Hd as [Hk0 Hd]. apply elem_of_cons in Hin as [Heq|Hin].
    + inversion Heq; subst. by rewrite decide_True.
    + rewrite decide_False; [by apply IH|].
      intros ->. apply Hk0. apply list_elem_of_fmap. by exists (k, v).
Qed.

Lemma dict_get_Some_elem_of d k v : dict_get d k = Some v -> (k, v) ∈ d.
Proof.
  induction d as [|[k0 v0] d IH]; simpl; [done|].
  destruct (decide (k0 = k)) as [->|Hne].
  - intros [= ->]. by left.
  - intros H. right. by apply IH.
Qed.

Lemma dict_sum_set (h : V -> Z) d k v :
  dict_sum h (dict_set d k v)
  = dict_sum h d + h v - match dict_get d k with Some old => h old | None => 0 end.
Proof.
  unfold dict_sum. induction d as [|[k0 v0] d IH]; simpl; [lia|].
  destruct (decide (k0 = k)) as [->|Hne]; simpl; [lia|]. rewrite IH. lia.
Qed.

Lemma dict_sum_keys (h : V -> Z) (dflt : V) d :
  NoDup (dict_keys d) ->
  sum_Z (map (fun k => h (default dflt (dict_get d k))) (dict_keys d)) = dict_sum h d.
Proof.
  unfold dict_sum, dict_keys. induction d as [|[k0 v0] d IH]; simpl; intros Hd; [done|].
  apply NoDup_cons in Hd as [Hk0 Hd]. rewrite decide_True by done. simpl.
  rewrite <- (IH Hd). f_equal. f_equal. apply map_ext_in.
  intros k Hk. rewrite decide_False; [done|].
  intros ->. apply Hk0. by apply list_elem_of_In.
Qed.
End PyDictFacts.

Lemma sum_Z_app (l1 l2 : list Z) : sum_Z (l1 ++ l2) = sum_Z l1 + sum_Z l2.
Proof. unfold sum_Z. induction l1; simpl; lia. Qed.

Lemma sum_Z_perm (l1 l2 : list Z) : l1 ≡ₚ l2 -> sum_Z l1 = sum_Z l2.
Proof. unfold sum_Z. induction 1; simpl; lia. Qed.

Lemma sum_Z_nonneg (l : list Z) : Forall (fun x => 0 <= x) l -> 0 <= sum_Z l.
Proof. unfold sum_Z. induction 1; simpl; lia. Qed.

Lemma insert_sorted_perm {A : Type} (key : A -> Z) (x : A) (l : list A) :
  insert_sorted key x l ≡ₚ x :: l.
Proof.
  induction l as [|y l IH]; simpl; [done|].
  destruct (key x <=? key y); [done|]. rewrite IH. apply Permutation_swap.
Qed.

Lemma py_sorted_perm {A : Type} (key : A -> Z) (l : list A) : py_sorted key l ≡ₚ l.
Proof.
  unfold py_sorted. induction l as [|x l IH]; simpl; [done|].
  by rewrite insert_sorted_perm, IH.
Qed.

Lemma insert_sorted_sorted (x : Z) (l : list Z) :
  Sorted Z.le l -> Sorted Z.le (insert_sorted (fun d => d) x l).
Proof.
  induction 1 as [|y l Hl IH Hhd]; simpl.
  - by repeat constructor.
  - destruct (Z.leb_spec x y).
    + constructor; [by constructor|by constructor].
    + constructor; [done|].
      destruct Hhd as [|z l Hyz]; simpl.
      * constructor. lia.
      * destruct (x <=? z); constructor; lia.
Qed.

Lemma py_sorted_sorted (l : list Z) : Sorted Z.le (py_sorted (fun d => d) l).
Proof.
  unfold py_sorted. induction l as [|x l IH]; simpl; [constructor|].
  by apply insert_sorted_sorted.
Qed.

Lemma seqZ_sorted (n : nat) (a : Z) : Sorted Z.le (seqZ a (Z.of_nat n)).
Proof.
  revert a. induction n as [|n IH]; intros a.
  - rewrite seqZ_nil by lia. constructor.
  - rewrite seqZ_cons by lia. replace (Z.pred (Z.of_nat (S n))) with (Z.of_nat n) by lia.
    constructor; [apply IH|].
    destruct n as [|n].
    + rewrite seqZ_nil by lia. constructor.
    + rewrite seqZ_cons by lia. constructor. lia.
Qed.

(** A list of distinct integers that holds exactly the interval [lo..hi]
    is, once sorted, that interval. *)
Lemma py_sorted_interval (l : list Z) (lo hi : Z) :
  NoDup l -> (forall k, k ∈ l <-> lo <= k <= hi) ->
  py_sorted (fun d => d) l = seqZ lo (hi - lo + 1).
Proof.
  intros Hnd Hl.
  apply (Sorted_unique Z.le).
  - apply py_sorted_sorted.
  - destruct (Z.le_gt_cases lo (hi + 1)).
    + replace (hi - lo + 1) with (Z.of_nat (Z.to_nat (hi - lo + 1))) by lia.
      apply seqZ_sorted.
    + rewrite seqZ_nil by lia. constructor.
  - rewrite py_sorted_perm. apply NoDup_Permutation; [done|apply NoDup_seqZ|].
    intros k. rewrite Hl, elem_of_seqZ. lia.
Qed.

(** ** Sums of amounts in cents *)

Lemma dadd_cents (a b : Decimal) :
  -2 <= dexp a -> -2 <= dexp b -> Z.abs (cents a + cents b) < 10 ^ prec ->
  -2 <= dexp (dadd a b) /\ cents (dadd a b) = cents a + cents b.
Proof.
  intros Ha Hb Hlt. unfold cents in *.
  rewrite (dadd_exact (-2)) by done. split.
  - simpl. lia.
  - by apply exact_add_align.
Qed.

Lemma fold_dadd_cents (ds : list Decimal) (acc : Decimal) :
  -2 <= dexp acc -> Forall (fun d => -2 <= dexp d) ds ->
  Z.abs (cents acc) + sum_Z (map (fun d => Z.abs (cents d)) ds) < 10 ^ prec ->
  -2 <= dexp (fold_left dadd ds acc) /\
  cents (fold_left dadd ds acc) = cents acc + sum_Z (map cents ds).
Proof.
  intros Hacc Hds. revert acc Hacc.
  induction Hds as [|d ds Hd Hds IH]; intros acc Hacc Hlt; simpl in *.
  - split; [done|lia].
  - assert (Hnn : 0 <= sum_Z (map (fun d => Z.abs (cents d)) ds)).
    { apply sum_Z_nonneg, Forall_forall. intros x Hx%list_elem_of_In%in_map_iff.
      destruct Hx as (? & <- & _). lia. }
    destruct (dadd_cents acc d Hacc Hd ltac:(lia)) as [He Hc].
    destruct (IH (dadd acc d) He ltac:(lia)) as [He' Hc'].
    split; [done|]. rewrite Hc'. lia.
Qed.

Lemma py_sum_cents (ds : list Decimal) :
  Forall (fun d => -2 <= dexp d) ds ->
  sum_Z (map (fun d => Z.abs (cents d)) ds) < 10 ^ prec ->
  -2 <= dexp (py_sum ds) /\ cents (py_sum ds) = sum_Z (map cents ds).
Proof.
  intros Hds Hlt. unfold py_sum.
  destruct (fold_dadd_cents ds zero ltac:(simpl; lia) Hds) as [He Hc].
  - change (cents zero) with 0. simpl. lia.
  - split; [done|]. rewrite Hc. change (cents zero) with 0. lia.
Qed.

Lemma sum_Z_abs_ge (l : list Z) : Z.abs (sum_Z l) <= sum_Z (map Z.abs l).
Proof. unfold sum_Z. induction l; simpl; lia. Qed.

(** Quantizing an amount that already is in cents. *)
Lemma quantize_cents (d : Decimal) :
  -2 <= dexp d -> Z.abs (cents d) < 10 ^ prec ->
  quantize d cent = Returns (mkDecimal (cents d) (-2)).
Proof. intros He Hlt. by apply (quantize_exact d cent). Qed.

Lemma align_at (c e : Z) : align e (mkDecimal c e) = c.
Proof. apply align_self. Qed.

Lemma dadd_at_cents (a b : Z) :
  Z.abs (a + b) < 10 ^ prec ->
  dadd (mkDecimal a (-2)) (mkDecimal b (-2)) = mkDecimal (a + b) (-2).
Proof.
  intros Hlt. rewrite (dadd_exact (-2)).
  - unfold exact_add. cbn [dexp]. rewrite Z.min_id, !align_at. done.
  - cbn [dexp]. lia.
  - cbn [dexp]. lia.
  - by rewrite !align_at.
Qed.

Lemma sum_Z_map_le {A : Type} (g1 g2 : A -> Z) (l : list A) :
  Forall (fun x => g1 x <= g2 x) l -> sum_Z (map g1 l) <= sum_Z (map g2 l).
Proof. unfold sum_Z. induction 1; simpl; lia. Qed.

Lemma sum_Z_map_eq {A : Type} (g1 g2 : A -> Z) (l : list A) :
  Forall (fun x => g1 x = g2 x) l -> sum_Z (map g1 l) = sum_Z (map g2 l).
Proof. unfold sum_Z. induction 1; simpl; lia. Qed.

Lemma sum_Z_filter_le {A : Type} (g : A -> Z) (P : A -> Prop) `{forall x, Decision (P x)}
    (l : list A) :
  (forall x, 0 <= g x) -> sum_Z (map g (filter P l)) <= sum_Z (map g l).
Proof.
  intros Hg. unfold sum_Z. induction l as [|x l IH]; simpl; [done|].
  rewrite filter_cons. pose proof (Hg x). destruct (decide (P x)); simpl; lia.
Qed.

(** ** Grouping lots by closing date *)

Section DailySeries.
Variable est_date : datetime -> date.
Variable acct : option string.

Lemma append_lot_get (d : list (date * list ClosedLot)) (lot : ClosedLot) (day : date) :
  default [] (dict_get (append_lot est_date d lot) day)
  = default [] (dict_get d day)
    ++ (if decide (close_date est_date lot = day) then [lot] else []).
Proof.
  unfold append_lot. rewrite dict_get_set.
  destruct (decide (close_date est_date lot = day)) as [->|]; [done|].
  by rewrite app_nil_r.
Qed.

Lemma group_get (lots : list ClosedLot) (acc : list (date * list ClosedLot)) (day : date) :
  default [] (dict_get (fold_left (append_lot est_date) lots acc) day)
  = default [] (dict_get acc day) ++ filter (fun l => close_date est_date l = day) lots.
Proof.
  revert acc. induction lots as [|lot lots IH]; intros acc; simpl.
  - by rewrite app_nil_r.
  - rewrite IH, append_lot_get, filter_cons.
    destruct (decide (close_date est_date lot = day)); [by rewrite <- app_assoc|].
    by rewrite app_nil_r.
Qed.

Lemma append_lot_keys (d : list (date * list ClosedLot)) (lot : ClosedLot) (day : date) :
  day ∈ dict_keys (append_lot est_date d lot)
  <-> day ∈ dict_keys d \/ close_date est_date lot = day.
Proof.
  rewrite !dict_keys_get. unfold append_lot. rewrite dict_get_set.
  destruct (decide (close_date est_date lot = day)) as [Heq|Hne].
  - split; [by right|by eauto].
  - split; [by left|]. by intros [?|?].
Qed.

Lemma group_keys (lots : list ClosedLot) (acc : list (date * list ClosedLot)) (day : date) :
  day ∈ dict_keys (fold_left (append_lot est_date) lots acc)
  <-> day ∈ dict_keys acc \/ exists l, l ∈ lots /\ close_date est_date l = day.
Proof.
  revert acc. induction lots as [|lot lots IH]; intros acc; simpl.
  - split; [by left|]. intros [H|(l & Hl & _)]; [done|]. by apply elem_of_nil in Hl.
  - rewrite IH, append_lot_keys. split.
    + intros [[H|H]|(l & Hl & Hd)].
      * by left.
      * right. exists lot. split; [by left|done].
      * right. exists l. split; [by right|done].
    + intros [H|(l & Hl & Hd)]; [by left; left|].
      apply elem_of_cons in Hl as [->|Hl]; [by left; right|].
      right. by exists l.
Qed.

Lemma group_NoDup (lots : list ClosedLot) (acc : list (date * list ClosedLot)) :
  NoDup (dict_keys acc) -> NoDup (dict_keys (fold_left (append_lot est_date) lots acc)).
Proof.
  revert acc. induction lots as [|lot lots IH]; intros acc Hacc; simpl; [done|].
  apply IH. by apply dict_set_NoDup.
Qed.

Lemma group_sum (h : ClosedLot -> Z) (lots : list ClosedLot)
    (acc : list (date * list ClosedLot)) :
  dict_sum (fun ls => sum_Z (map h ls)) (fold_left (append_lot est_date) lots acc)
  = dict_sum (fun ls => sum_Z (map h ls)) acc + sum_Z (map h lots).
Proof.
  revert acc. induction lots as [|lot lots IH]; intros acc.
  - change (sum_Z (map h [])) with 0. cbn [fold_left]. lia.
  - cbn [fold_left]. rewrite IH. unfold append_lot at 1. rewrite dict_sum_set.
    rewrite map_app, sum_Z_app.
    change (sum_Z (map h [lot])) with (h lot + 0).
    change (sum_Z (map h (lot :: lots))) with (h lot + sum_Z (map h lots)).
    destruct (dict_get acc (close_date est_date lot)); cbn [default from_option Datatypes.id].
    + lia.
    + change (sum_Z (map h [])) with 0. lia.
Qed.

Lemma group_entry (lots : list ClosedLot) (day : date) (ls : list ClosedLot) :
  (day, ls) ∈ group_by_date est_date lots ->
  ls = filter (fun l => close_date est_date l = day) lots.
Proof.
  intros Hin. unfold group_by_date in *.
  pose proof (group_get lots [] day) as Hg.
  rewrite (dict_get_elem_of _ day ls) in Hg; [done| |done].
  apply group_NoDup. constructor.
Qed.

End DailySeries.

(** ** Streak bounds *)

Lemma streak_step_inv (st : streak_state) (lot : ClosedLot) :
  streak_inv st -> streak_inv (streak_step st lot).
Proof.
  unfold streak_inv, streak_step. intros (Hw & Hl & Hc).
  destruct (dgtb (realized_pnl lot) zero); [simpl; lia|].
  destruct (dltb (realized_pnl lot) zero); simpl; lia.
Qed.

Lemma streak_fold_inv (lots : list ClosedLot) (st : streak_state) :
  streak_inv st -> streak_inv (fold_left streak_step lots st).
Proof.
  revert st. induction lots as [|lot lots IH]; intros st Hst; [done|].
  simpl. by apply IH, streak_step_inv.
Qed.

(** The effect of one lot on the counters, by the sign of its P&L. *)
Lemma streak_step_fields (st : streak_state) (lot : ClosedLot) :
  let st' := streak_step st lot in
  (dgtb (realized_pnl lot) zero = true /\ dltb (realized_pnl lot) zero = false /\
   st_current_win_streak st' = st_current_win_streak st + 1 /\
   st_current_loss_streak st' = 0 /\
   st_current_streak st' = st_current_win_streak st + 1 /\
   st_longest_win_streak st'
     = Z.max (st_longest_win_streak st) (st_current_win_streak st + 1) /\
   st_longest_loss_streak st' = st_longest_loss_streak st) \/
  (dgtb (realized_pnl lot) zero = false /\ dltb (realized_pnl lot) zero = true /\
   st_current_win_streak st' = 0 /\
   st_current_loss_streak st' = st_current_loss_streak st + 1 /\
   st_current_streak st' = - (st_current_loss_streak st + 1) /\
   st_longest_win_streak st' = st_longest_win_streak st /\
   st_longest_loss_streak st'
     = Z.max (st_longest_loss_streak st) (st_current_loss_streak st + 1)) \/
  (dgtb (realized_pnl lot) zero = false /\ dltb (realized_pnl lot) zero = false /\
   st_current_win_streak st' = 0 /\ st_current_loss_streak st' = 0 /\
   st_current_streak st' = st_current_streak st /\
   st_longest_win_streak st' = st_longest_win_streak st /\
   st_longest_loss_streak st' = st_longest_loss_streak st).
Proof.
  cbn zeta. unfold streak_step.
  destruct (dgtb (realized_pnl lot) zero) eqn:Hw.
  - left. repeat split.
    rewrite dgtb_zero in Hw. rewrite dltb_zero. apply Z.ltb_lt in Hw.
    apply Z.ltb_ge. lia.
  - destruct (dltb (realized_pnl lot) zero) eqn:Hl.
    + right. left. by repeat split.
    + right. right. by repeat split.
Qed.

(** The counters against the number of winners and losers fed so far. *)
Lemma streak_fold_count (lots : list ClosedLot) (st : streak_state) :
  0 <= st_current_win_streak st -> 0 <= st_current_loss_streak st ->
  let st' := fold_left streak_step lots st in
  st_current_win_streak st' <= st_current_win_streak st + Z.of_nat (length (winners lots)) /\
  st_longest_win_streak st'
    <= Z.max (st_longest_win_streak st)
             (st_current_win_streak st + Z.of_nat (length (winners lots))) /\
  st_current_loss_streak st' <= st_current_loss_streak st + Z.of_nat (length (losers lots)) /\
  st_longest_loss_streak st'
    <= Z.max (st_longest_loss_streak st)
             (st_current_loss_streak st + Z.of_nat (length (losers lots))) /\
  st_longest_win_streak st <= st_longest_win_streak st' /\
  st_longest_loss_streak st <= st_longest_loss_streak st' /\
  (winners lots <> [] -> 1 <= st_longest_win_streak st') /\
  (losers lots <> [] -> 1 <= st_longest_loss_streak st').
Proof.
  revert st. induction lots as [|lot lots IH]; intros st Hcw Hcl; cbn zeta.
  { cbn. repeat split; try lia; done. }
  cbn [fold_left]. specialize (IH (streak_step st lot)). cbn zeta in IH.
  unfold winners, losers in *. rewrite !filter_cons.
  destruct (streak_step_fields st lot)
    as [(Hw & Hl & F1 & F2 & F3 & F4 & F5)|[(Hw & Hl & F1 & F2 & F3 & F4 & F5)
       |(Hw & Hl & F1 & F2 & F3 & F4 & F5)]];
    cbn zeta in *;
    remember (streak_step st lot) as s1 eqn:Es; clear Es;
    destruct (IH ltac:(lia) ltac:(lia)) as (I1 & I2 & I3 & I4 & I5 & I6 & I7 & I8);
    remember (fold_left streak_step lots s1) as s2 eqn:Es; clear Es;
    rewrite ?Hw, ?Hl.
  - rewrite decide_True by done. rewrite decide_False by done.
    cbn [length]. repeat split; try lia; try done; intros; lia.
  - rewrite decide_False by done. rewrite decide_True by done.
    cbn [length]. repeat split; try lia; try done; intros; lia.
  - rewrite !decide_False by done.
    repeat split; try lia; done.
Qed.

Lemma winners_perm (l1 l2 : list ClosedLot) :
  l1 ≡ₚ l2 -> length (winners l1) = length (winners l2).
Proof. intros H. unfold winners. by rewrite H. Qed.

Lemma losers_perm (l1 l2 : list ClosedLot) :
  l1 ≡ₚ l2 -> length (losers l1) = length (losers l2).
Proof. intros H. unfold losers. by rewrite H. Qed.

(** X1. The streak figures bound one another: the current streak lies
    between minus the longest losing run and the longest winning run, and the
    longest runs are at most the numbers of winning and of losing lots (and
    at least 1 when there is one). *)
Theorem calculate_streaks_bounds (lots : list ClosedLot) :
  - longest_loss_streak (calculate_streaks lots) <= current_streak (calculate_streaks lots)
    <= longest_win_streak (calculate_streaks lots) /\
  0 <= longest_win_streak (calculate_streaks lots) <= Z.of_nat (length (winners lots)) /\
  0 <= longest_loss_streak (calculate_streaks lots) <= Z.of_nat (length (losers lots)) /\
  (winners lots <> [] -> 1 <= longest_win_streak (calculate_streaks lots)) /\
  (losers lots <> [] -> 1 <= longest_loss_streak (calculate_streaks lots)).
Proof.
  unfold calculate_streaks. cbn [current_streak longest_win_streak longest_loss_streak].
  pose proof (py_sorted_perm close_executed_at lots) as Hp.
  pose proof (streak_fold_inv (py_sorted close_executed_at lots) (mkStreakState 0 0 0 0 0)
                ltac:(unfold streak_inv; simpl; lia)) as (Hw & Hl & Hc).
  pose proof (streak_fold_count (py_sorted close_executed_at lots) (mkStreakState 0 0 0 0 0)
                ltac:(simpl; lia) ltac:(simpl; lia))
    as (C1 & C2 & C3 & C4 & C5 & C6 & C7 & C8).
  cbn zeta in *. cbn [st_current_win_streak st_longest_win_streak
    st_current_loss_streak st_longest_loss_streak] in *.
  rewrite (winners_perm _ _ Hp) in *. rewrite (losers_perm _ _ Hp) in *.
  repeat split; try lia.
  - intros Hne. apply C7. intros E. apply Hne.
    apply length_zero_iff_nil. rewrite <- (winners_perm _ _ Hp), E. done.
  - intros Hne. apply C8. intros E. apply Hne.
    apply length_zero_iff_nil. rewrite <- (losers_perm _ _ Hp), E. done.
Qed.

(** ** Counts of the aggregate *)

Lemma win_lose_breakeven (lots : list ClosedLot) :
  (length (winners lots) + length (losers lots) + length (breakeven lots)
   = length lots)%nat.
Proof.
  unfold winners, losers, breakeven. induction lots as [|lot lots IH]; [done|].
  rewrite !filter_cons. rewrite dgtb_zero, dltb_zero, deqb_zero.
  destruct (Z.ltb_spec 0 (coef (realized_pnl lot))),
           (Z.ltb_spec (coef (realized_pnl lot)) 0),
           (Z.eqb_spec (coef (realized_pnl lot)) 0); try lia;
    repeat (first [rewrite decide_True by done | rewrite decide_False by done]);
    cbn [length]; lia.
Qed.

(** X2. The counts of a returned aggregate: the lots, twice the lots as
    trades, the winning and the losing lots, which with the breakeven lots
    make up all lots; the first and last dates are those of the first and
    last row of the series passed in. *)
Theorem aggregate_counts (est_date : datetime -> date) (acct : option string)
    (lots : list ClosedLot) (series : list PerDayPnL) (agg : Aggregate) :
  lots <> [] ->
  calculate_aggregates est_date acct lots series = Returns agg ->
  total_lots_closed agg = Some (length lots) /\
  total_trades agg = Some (length lots * 2)%nat /\
  winning_lots agg = Some (length (winners lots)) /\
  losing_lots agg = Some (length (losers lots)) /\
  (length (winners lots) + length (losers lots) + length (breakeven lots)
   = length lots)%nat /\
  first_trade_date agg = day_date <$> head series /\
  last_trade_date agg = day_date <$> last series.
Proof.
  intros Hne H. unfold calculate_aggregates in H.
  destruct lots as [|lot lots]; [done|].
  returned H. inversion H; subst. cbn.
  repeat split. apply (win_lose_breakeven (lot :: lots)).
Qed.

Lemma aggregate_counts_witness :
  exists agg,
    calculate_aggregates fixed_est_date None [winning_lot; losing_lot; breakeven_lot] []
    = Returns agg /\
    total_lots_closed agg = Some 3%nat /\ total_trades agg = Some 6%nat /\
    winning_lots agg = Some 1%nat /\ losing_lots agg = Some 1%nat.
Proof.
  eassert (Hrun : calculate_aggregates fixed_est_date None
                    [winning_lot; losing_lot; breakeven_lot] [] = Returns _)
    by (vm_compute; reflexivity).
  destruct (aggregate_counts fixed_est_date None [winning_lot; losing_lot; breakeven_lot] [] _
              ltac:(discriminate) Hrun) as (H1 & H2 & H3 & H4 & _).
  eexists. split; [exact Hrun|]. split; [exact H1|]. split; [exact H2|].
  split; [exact H3|exact H4].
Defined.

(** ** Where lots come from *)

Lemma before_app (trades : list NormalizedTrade) (o c t : NormalizedTrade) :
  before trades o c -> before (trades ++ [t]) o c.
Proof.
  intros (l1 & l2 & l3 & ->). exists l1, l2, (l3 ++ [t]).
  by rewrite <- !app_assoc, <- !app_comm_cons, <- !app_assoc.
Qed.

Lemma before_last (trades : list NormalizedTrade) (o c : NormalizedTrade) :
  o ∈ trades -> before (trades ++ [c]) o c.
Proof.
  intros (l1 & l2 & ->)%list_elem_of_split. exists l1, l2, [].
  by rewrite <- !app_assoc, <- !app_comm_cons.
Qed.

Lemma lot_from_app (trades : list NormalizedTrade) (t : NormalizedTrade) (lot : ClosedLot) :
  lot_from trades lot -> lot_from (trades ++ [t]) lot.
Proof. intros (o & c & Hb & Hp). exists o, c. split; [by apply before_app|done]. Qed.

Lemma entry_from_app (trades : list NormalizedTrade) (t : NormalizedTrade)
    (pos sym : string) (en : entry) :
  entry_from trades pos sym en -> entry_from (trades ++ [t]) pos sym en.
Proof. intros (Hin & Hs & Hd). split; [|done]. apply elem_of_app. by left. Qed.

Lemma create_closed_lot_pairs (o c : NormalizedTrade) (q : Decimal) (pos : string)
    (lot : ClosedLot) :
  pos = "LONG" \/ pos = "SHORT" ->
  side o = opening_side pos -> side c = closing_side pos -> symbol c = symbol o ->
  _create_closed_lot o c q pos = Returns lot ->
  lot_pairs lot o c /\ position_type lot = pos /\ open_quantity lot = q.
Proof.
  intros Hpos Ho Hc Hsym H. unfold _create_closed_lot in H.
  destruct (quantize _ cent) as [pnl| |]; [|done|done].
  cbn in H. inversion H; subst; clear H. unfold lot_pairs. cbn. by repeat split.
Qed.

Lemma match_loop_from (done_ : list NormalizedTrade) (sym : string) (fuel : nat)
    (trade : NormalizedTrade) (pos : string) (r : Decimal) (queue : list entry)
    (lots : list ClosedLot) (r' : Decimal) (queue' : list entry) (lots' : list ClosedLot) :
  pos = "LONG" \/ pos = "SHORT" ->
  side trade = closing_side pos -> symbol trade = sym ->
  Forall (entry_from done_ pos sym) queue ->
  Forall (lot_from (done_ ++ [trade])) lots ->
  match_loop fuel trade pos r queue lots = Returns (r', queue', lots') ->
  Forall (entry_from done_ pos sym) queue' /\ Forall (lot_from (done_ ++ [trade])) lots'.
Proof.
  intros Hpos Hside Hsym. revert r queue lots.
  induction fuel as [|fuel IH]; intros r queue lots Hq Hl H; [done|].
  cbn [match_loop] in H. destruct (dgtb r zero).
  2:{ by inversion H; subst. }
  destruct queue as [|[ot oq] rest]; [by inversion H; subst|].
  apply Forall_cons in Hq as [(Hin & Hs & Hd) Hrest]. cbn in Hin, Hs, Hd.
  destruct (_create_closed_lot ot trade (py_min r oq) pos) as [lot| |] eqn:Hlot;
    [|done|done].
  cbn in H.
  apply create_closed_lot_pairs in Hlot as (Hp & _); [|done|done|done|congruence].
  apply IH in H; [done| |].
  - destruct (deqb _ zero); [done|]. apply Forall_cons. by split.
  - apply Forall_app. split; [done|]. apply Forall_singleton.
    exists ot, trade. split; [by apply before_last|done].
Qed.

Lemma engine_from_new : engine_from [] new_engine.
Proof.
  repeat split; try (intros sym; rewrite queue_of_empty); constructor.
Qed.

Lemma queues_insert_from (trades : list NormalizedTrade) (pos : string)
    (m : gmap string (list entry)) (sym : string) (q : list entry) :
  (forall s, Forall (entry_from trades pos s) (queue_of m s)) ->
  Forall (entry_from trades pos sym) q ->
  forall s, Forall (entry_from trades pos s) (queue_of (<[sym := q]> m) s).
Proof.
  intros Hm Hq s. rewrite queue_of_insert. by destruct (decide (sym = s)) as [<-|].
Qed.

Lemma process_trade_from (done_ : list NormalizedTrade) (e e' : FIFOEngine)
    (trade : NormalizedTrade) :
  engine_from done_ e -> _process_trade e trade = Returns e' ->
  engine_from (done_ ++ [trade]) e'.
Proof.
  intros (Hlong & Hshort & Hlots) H.
  assert (Hlong' : forall s, Forall (entry_from (done_ ++ [trade]) "LONG" s)
                               (queue_of (long_queues e) s)).
  { intros s. eapply Forall_impl; [apply Hlong|]. intros en. apply entry_from_app. }
  assert (Hshort' : forall s, Forall (entry_from (done_ ++ [trade]) "SHORT" s)
                                (queue_of (short_queues e) s)).
  { intros s. eapply Forall_impl; [apply Hshort|]. intros en. apply entry_from_app. }
  assert (Hlots' : Forall (lot_from (done_ ++ [trade])) (closed_lots e)).
  { eapply Forall_impl; [apply Hlots|]. intros lot. apply lot_from_app. }
  assert (Hnew : forall pos r, side trade = opening_side pos ->
            entry_from (done_ ++ [trade]) pos (symbol trade) (trade, r)).
  { intros pos r Hs. split; [|done]. apply elem_of_app. right. by left. }
  unfold _process_trade, _match_against_queue in H.
  destruct (String.eqb (side trade) "BUY") eqn:Hbuy.
  - apply String.eqb_eq in Hbuy.
    destruct (match_loop _ _ _ _ _ _) as [[[r q] lots]| |] eqn:Hm; [|done|done].
    cbn in H. inversion H; subst; clear H.
    eapply match_loop_from in Hm as [Hq Hl]; [|by right|done|done|apply Hshort|done].
    split; [|split; [|done]]; cbn.
    + destruct (dgtb r zero); [|done].
      apply queues_insert_from; [done|]. apply Forall_app. split; [done|].
      apply Forall_singleton. by apply Hnew.
    + apply queues_insert_from; [done|].
      eapply Forall_impl; [apply Hq|]. intros en. apply entry_from_app.
  - destruct (String.eqb (side trade) "SELL") eqn:Hsell.
    2:{ inversion H; subst. by repeat split. }
    apply String.eqb_eq in Hsell.
    destruct (match_loop _ _ _ _ _ _) as [[[r q] lots]| |] eqn:Hm; [|done|done].
    cbn in H. inversion H; subst; clear H.
    eapply match_loop_from in Hm as [Hq Hl]; [|by left|done|done|apply Hlong|done].
    split; [|split; [|done]]; cbn.
    + apply queues_insert_from; [done|].
      eapply Forall_impl; [apply Hq|]. intros en. apply entry_from_app.
    + destruct (dgtb r zero); [|done].
      apply queues_insert_from; [done|]. apply Forall_app. split; [done|].
      apply Forall_singleton. by apply Hnew.
Qed.

Lemma process_each_from (trades done_ : list NormalizedTrade) (e e' : FIFOEngine) :
  engine_from done_ e -> process_each e trades = Returns e' ->
  engine_from (done_ ++ trades) e'.
Proof.
  revert done_ e. induction trades as [|t trades IH]; intros done_ e He H.
  - inversion H; subst. by rewrite app_nil_r.
  - cbn [process_each] in H.
    destruct (_process_trade e t) as [e1| |] eqn:Ht; [|done|done].
    cbn in H. replace (done_ ++ t :: trades) with ((done_ ++ [t]) ++ trades)
      by (by rewrite <- app_assoc).
    eapply IH; [|done]. by eapply process_trade_from.
Qed.

Lemma process_trades_from (self e : FIFOEngine) (trades : list NormalizedTrade)
    (lots : list ClosedLot) :
  process_trades self trades = Returns (e, lots) -> engine_from trades e /\ lots = closed_lots e.
Proof.
  unfold process_trades. intros H.
  destruct (process_each _ trades) as [e1| |] eqn:He; [|done|done].
  cbn in H. inversion H; subst. split; [|done].
  apply (process_each_from trades [] (mkEngine ∅ ∅ [])); [apply engine_from_new|done].
Qed.

(** X3. Every lot of a run pairs a trade of the input with a later trade of
    the input of the same symbol: a LONG lot a BUY with a later SELL, a SHORT
    lot a SELL with a later BUY; identifiers, prices, timestamps and account
    are copied from the two trades and the closed quantity is the opened
    one. *)
Theorem lots_pair_earlier_with_later (self e : FIFOEngine)
    (trades : list NormalizedTrade) (lots : list ClosedLot) :
  process_trades self trades = Returns (e, lots) ->
  Forall (fun lot => exists o c, before trades o c /\ lot_pairs lot o c) lots.
Proof.
  intros H. apply process_trades_from in H as [(_ & _ & Hl) ->]. exact Hl.
Qed.

Lemma lots_pair_earlier_with_later_witness :
  exists e lots,
    process_trades new_engine [buy_150; buy_155; sell_160] = Returns (e, lots) /\
    Forall (fun lot => exists o c,
              before [buy_150; buy_155; sell_160] o c /\ lot_pairs lot o c) lots.
Proof.
  eassert (Hrun : process_trades new_engine [buy_150; buy_155; sell_160] = Returns (_, _))
    by (vm_compute; reflexivity).
  eexists _, _. split; [exact Hrun|].
  exact (lots_pair_earlier_with_later _ _ _ _ Hrun).
Defined.

Lemma before_sorted (trades : list NormalizedTrade) (o c : NormalizedTrade) :
  Sorted Z.le (map executed_at trades) -> before trades o c ->
  executed_at o <= executed_at c.
Proof.
  intros Hs (l1 & l2 & l3 & ->). apply Sorted_StronglySorted in Hs; [|apply _].
  rewrite map_app in Hs. apply StronglySorted_app in Hs as (_ & _ & Hs).
  cbn [map] in Hs. apply StronglySorted_cons in Hs as [Hall _].
  rewrite Forall_forall in Hall. apply Hall.
  rewrite map_app. apply elem_of_app. right. cbn [map]. by left.
Qed.

(** X4. On trades given in ascending order of execution time, no lot
    closes before it opens. *)
Theorem lots_open_before_close (self e : FIFOEngine)
    (trades : list NormalizedTrade) (lots : list ClosedLot) :
  Sorted Z.le (map executed_at trades) ->
  process_trades self trades = Returns (e, lots) ->
  Forall (fun lot => open_executed_at lot <= close_executed_at lot) lots.
Proof.
  intros Hs H. apply process_trades_from in H as [(_ & _ & Hl) ->].
  eapply Forall_impl; [exact Hl|]. intros lot (o & c & Hb & Hp).
  destruct Hp as (_ & _ & _ & _ & _ & _ & _ & _ & _ & _ & -> & -> & _).
  by eapply before_sorted.
Qed.

Lemma lots_open_before_close_witness :
  exists e lots,
    process_trades new_engine [buy_150; buy_155; sell_160] = Returns (e, lots) /\
    Forall (fun lot => open_executed_at lot <= close_executed_at lot) lots.
Proof.
  eassert (Hrun : process_trades new_engine [buy_150; buy_155; sell_160] = Returns (_, _))
    by (vm_compute; reflexivity).
  eexists _, _. split; [exact Hrun|].
  assert (Hs : Sorted Z.le (map executed_at [buy_150; buy_155; sell_160])).
  { cbn [map].
    repeat first [apply Sorted_cons | apply Sorted_nil | apply HdRel_cons | apply HdRel_nil];
      vm_compute; discriminate. }
  exact (lots_open_before_close _ _ _ _ Hs Hrun).
Defined.

(** ** Conservation of shares *)

Lemma sum_Z_cons (x : Z) (l : list Z) : sum_Z (x :: l) = x + sum_Z l.
Proof. reflexivity. Qed.

Lemma open_shares_cons (en : entry) (queue : list entry) :
  open_shares (en :: queue) = shares en.2 + open_shares queue.
Proof. reflexivity. Qed.

Lemma open_shares_app (q1 q2 : list entry) :
  open_shares (q1 ++ q2) = open_shares q1 + open_shares q2.
Proof. unfold open_shares. by rewrite map_app, sum_Z_app. Qed.

Lemma matched_shares_app (sym : string) (l1 l2 : list ClosedLot) :
  matched_shares sym (l1 ++ l2) = matched_shares sym l1 + matched_shares sym l2.
Proof. unfold matched_shares. by rewrite filter_app, map_app, sum_Z_app. Qed.

Lemma matched_shares_same (sym : string) (lots : list ClosedLot) :
  Forall (fun lot => lot_symbol lot = sym) lots ->
  matched_shares sym lots = sum_Z (map (fun lot => shares (open_quantity lot)) lots).
Proof.
  unfold matched_shares. induction 1 as [|lot lots Hlot _ IH]; [done|].
  rewrite filter_cons, decide_True by done. rewrite !map_cons, !sum_Z_cons. by rewrite IH.
Qed.

Lemma matched_shares_other (sym sym' : string) (lots : list ClosedLot) :
  sym <> sym' -> Forall (fun lot => lot_symbol lot = sym) lots ->
  matched_shares sym' lots = 0.
Proof.
  intros Hne. unfold matched_shares. induction 1 as [|lot lots Hlot _ IH]; [done|].
  rewrite filter_cons, decide_False by congruence. done.
Qed.

Lemma traded_shares_snoc (sd sym : string) (trades : list NormalizedTrade)
    (t : NormalizedTrade) :
  traded_shares sd sym (trades ++ [t])
  = traded_shares sd sym trades
    + (if decide (side t = sd /\ symbol t = sym) then shares (quantity t) else 0).
Proof.
  unfold traded_shares. rewrite filter_app, map_app, sum_Z_app.
  rewrite filter_cons, filter_nil.
  destruct (decide (side t = sd /\ symbol t = sym)); cbn; lia.
Qed.

Lemma leftover_not_positive (q : Decimal) :
  leftover q -> dgtb q zero = false -> shares q = 0.
Proof.
  intros [He [Hlo _]] Hz. rewrite dgtb_zero in Hz. apply Z.ltb_ge in Hz.
  unfold shares. pose proof (align_sign (-8) q He). lia.
Qed.

(** What one run of the matching loop moves: the lots it appends carry
    exactly the shares taken from the closing trade and from the queue. *)
Lemma match_loop_shares (sym : string) (fuel : nat) (trade : NormalizedTrade) (pos : string)
    (r : Decimal) (queue : list entry) (lots : list ClosedLot)
    (r' : Decimal) (queue' : list entry) (lots' : list ClosedLot) :
  pos = "LONG" \/ pos = "SHORT" ->
  valid_price (price trade) -> leftover r ->
  Forall entry_ok queue -> Forall (fun en => symbol en.1 = sym) queue ->
  match_loop fuel trade pos r queue lots = Returns (r', queue', lots') ->
  exists new,
    lots' = lots ++ new /\
    Forall (fun lot => lot_symbol lot = sym /\ valid_quantity (open_quantity lot)) new /\
    sum_Z (map (fun lot => shares (open_quantity lot)) new) = shares r - shares r' /\
    open_shares queue - open_shares queue' = shares r - shares r' /\
    leftover r'.
Proof.
  intros Hside Hp. revert r queue lots.
  induction fuel as [|fuel IH]; intros r queue lots Hr Hq Hs H; [done|].
  cbn [match_loop] in H. destruct (dgtb r zero) eqn:Hpos.
  2:{ inversion H; subst. exists []. rewrite app_nil_r.
      split; [done|]. split; [constructor|].
      split; [by rewrite Z.sub_diag|]. split; [lia|done]. }
  destruct queue as [|[ot oq] rest].
  { inversion H; subst. exists []. rewrite app_nil_r.
      split; [done|]. split; [constructor|].
      split; [by rewrite Z.sub_diag|]. split; [lia|done]. }
  apply Forall_cons in Hq as [[Hop Hoq] Hrest]. cbn in Hop, Hoq.
  apply Forall_cons in Hs as [Hsym Hsrest]. cbn in Hsym.
  pose proof (leftover_positive r Hr Hpos) as Hrv.
  destruct (py_min_valid r oq Hrv Hoq) as [Hmv Hmin].
  destruct (create_closed_lot_exact ot trade (py_min r oq) pos Hop Hp Hmv Hside)
    as (lot & Hlot & _ & _ & _ & _ & Hlq & _ & _ & _ & Hlsym).
  rewrite Hlot in H. cbn in H.
  destruct (dsub_quantity r (py_min r oq) Hrv Hmv ltac:(lia)) as [Hr1 Hr1eq].
  destruct (dsub_quantity oq (py_min r oq) Hoq Hmv ltac:(lia)) as [Ho1 Ho1eq].
  assert (Hq1 : Forall entry_ok
            (if deqb (dsub oq (py_min r oq)) zero then rest
             else (ot, dsub oq (py_min r oq)) :: rest)).
  { destruct (deqb _ zero) eqn:Hz; [done|]. apply Forall_cons. split; [|done].
    split; [done|]. cbn. destruct Ho1 as [He [Hlo Hhi]]. split; [done|]. split; [|done].
    rewrite deqb_zero in Hz. apply Z.eqb_neq in Hz.
    pose proof (align_sign (-8) _ He). lia. }
  assert (Hs1 : Forall (fun en => symbol en.1 = sym)
            (if deqb (dsub oq (py_min r oq)) zero then rest
             else (ot, dsub oq (py_min r oq)) :: rest)).
  { destruct (deqb _ zero); [done|]. by apply Forall_cons. }
  assert (Hopen : open_shares ((ot, oq) :: rest)
                  - open_shares (if deqb (dsub oq (py_min r oq)) zero then rest
                                 else (ot, dsub oq (py_min r oq)) :: rest)
                  = shares (py_min r oq)).
  { destruct (deqb _ zero) eqn:Hz; rewrite !open_shares_cons; cbn [snd]; unfold shares.
    - rewrite deqb_zero in Hz. apply Z.eqb_eq in Hz.
      assert (align (-8) (dsub oq (py_min r oq)) = 0)
        by (unfold align; rewrite Hz; lia).
      lia.
    - lia. }
  destruct (IH _ _ _ Hr1 Hq1 Hs1 H) as (new & -> & Hnsym & Hnsum & Hnq & Hr').
  exists (lot :: new). rewrite <- app_assoc. split; [done|].
  split; [apply Forall_cons; split; [split; [congruence|by rewrite Hlq]|done]|].
  split; [|split; [|done]].
  - rewrite map_cons, sum_Z_cons, Hnsum, Hlq. unfold shares in *. lia.
  - unfold shares in *. clear IH H Hq1 Hs1. revert Hopen Hnq.
    generalize (open_shares (if deqb (dsub oq (py_min r oq)) zero then rest
                             else (ot, dsub oq (py_min r oq)) :: rest)).
    intros A Hopen Hnq. rewrite Hr1eq in Hnq.
    assert (E : forall a b c d e f : Z, a - b = c -> b - d = e - c - f -> a - d = e - f)
      by (intros; lia).
    by eapply E.
Qed.

Lemma entry_from_symbol (trades : list NormalizedTrade) (pos sym : string)
    (queue : list entry) :
  Forall (entry_from trades pos sym) queue -> Forall (fun en => symbol en.1 = sym) queue.
Proof. intros H. eapply Forall_impl; [exact H|]. by intros en (_ & ? & _). Qed.

Lemma conserved_new : conserved [] new_engine.
Proof. intros sym. cbn. by rewrite !queue_of_empty. Qed.

Lemma process_trade_conserved (done_ : list NormalizedTrade) (e e' : FIFOEngine)
    (t : NormalizedTrade) :
  valid_trade t -> engine_ok e -> engine_from done_ e -> conserved done_ e ->
  _process_trade e t = Returns e' -> conserved (done_ ++ [t]) e'.
Proof.
  intros [Hq Hp] (Hlong & Hshort & _) (Flong & Fshort & _) Hc H sym.
  destruct (Hc sym) as [Hbuy Hsell].
  rewrite !traded_shares_snoc.
  unfold _process_trade, _match_against_queue in H.
  destruct (String.eqb (side t) "BUY") eqn:Eb.
  - apply String.eqb_eq in Eb.
    destruct (match_loop _ _ _ _ _ _) as [[[r q] lots]| |] eqn:Hm; [|done|done].
    cbn in H. inversion H; subst; clear H.
    apply (match_loop_shares (symbol t)) in Hm
      as (new & -> & Hnew & Hnsum & Hnq & Hr);
      [|by right|done|by apply valid_quantity_leftover|apply Hshort
       |eapply entry_from_symbol, Fshort].
    assert (Hnsym : Forall (fun lot => lot_symbol lot = symbol t) new)
      by (eapply Forall_impl; [exact Hnew|]; by intros ? [? _]).
    cbn [long_queues short_queues closed_lots]. rewrite !matched_shares_app.
    assert (Hlong' : open_shares (queue_of
              (if dgtb r zero
               then <[symbol t := queue_of (long_queues e) (symbol t) ++ [(t, r)]]> (long_queues e)
               else long_queues e) sym)
            = open_shares (queue_of (long_queues e) sym)
              + (if decide (symbol t = sym) then shares r else 0)).
    { destruct (dgtb r zero) eqn:Hz.
      - rewrite queue_of_insert. destruct (decide (symbol t = sym)) as [->|]; [|lia].
        rewrite open_shares_app. cbn. lia.
      - rewrite (leftover_not_positive r Hr Hz). destruct (decide _); lia. }
    rewrite Hlong', queue_of_insert. rewrite Eb.
    destruct (decide (symbol t = sym)) as [Hs|Hs].
    + rewrite decide_True by done. rewrite decide_False by (intros [? _]; done).
      rewrite Hs in *. rewrite (matched_shares_same sym new Hnsym).
      revert Hbuy Hsell Hnsum Hnq.
      generalize (traded_shares "BUY" sym done_) (traded_shares "SELL" sym done_)
        (matched_shares sym (closed_lots e)) (open_shares (queue_of (long_queues e) sym))
        (open_shares (queue_of (short_queues e) sym)) (open_shares q)
        (sum_Z (map (fun lot => shares (open_quantity lot)) new))
        (shares (quantity t)) (shares r).
      intros. lia.
    + rewrite !decide_False by (intros [_ ?]; done).
      rewrite (matched_shares_other (symbol t) sym new Hs Hnsym). lia.
  - destruct (String.eqb (side t) "SELL") eqn:Es.
    2:{ inversion H; subst.
        rewrite !decide_False; [lia| |].
        - intros [E _]. rewrite E in Es. done.
        - intros [E _]. rewrite E in Eb. done. }
    apply String.eqb_eq in Es.
    destruct (match_loop _ _ _ _ _ _) as [[[r q] lots]| |] eqn:Hm; [|done|done].
    cbn in H. inversion H; subst; clear H.
    apply (match_loop_shares (symbol t)) in Hm
      as (new & -> & Hnew & Hnsum & Hnq & Hr);
      [|by left|done|by apply valid_quantity_leftover|apply Hlong
       |eapply entry_from_symbol, Flong].
    assert (Hnsym : Forall (fun lot => lot_symbol lot = symbol t) new)
      by (eapply Forall_impl; [exact Hnew|]; by intros ? [? _]).
    cbn [long_queues short_queues closed_lots]. rewrite !matched_shares_app.
    assert (Hshort' : open_shares (queue_of
              (if dgtb r zero
               then <[symbol t := queue_of (short_queues e) (symbol t) ++ [(t, r)]]> (short_queues e)
               else short_queues e) sym)
            = open_shares (queue_of (short_queues e) sym)
              + (if decide (symbol t = sym) then shares r else 0)).
    { destruct (dgtb r zero) eqn:Hz.
      - rewrite queue_of_insert. destruct (decide (symbol t = sym)) as [->|]; [|lia].
        rewrite open_shares_app. cbn. lia.
      - rewrite (leftover_not_positive r Hr Hz). destruct (decide _); lia. }
    rewrite Hshort', queue_of_insert. rewrite Es.
    destruct (decide (symbol t = sym)) as [Hs|Hs].
    + rewrite decide_False by (intros [? _]; done). rewrite decide_True by done.
      rewrite Hs in *. rewrite (matched_shares_same sym new Hnsym).
      revert Hbuy Hsell Hnsum Hnq.
      generalize (traded_shares "BUY" sym done_) (traded_shares "SELL" sym done_)
        (matched_shares sym (closed_lots e)) (open_shares (queue_of (long_queues e) sym))
        (open_shares (queue_of (short_queues e) sym)) (open_shares q)
        (sum_Z (map (fun lot => shares (open_quantity lot)) new))
        (shares (quantity t)) (shares r).
      intros. lia.
    + rewrite !decide_False by (intros [_ ?]; done).
      rewrite (matched_shares_other (symbol t) sym new Hs Hnsym). lia.
Qed.

Lemma process_trade_positive (done_ : list NormalizedTrade) (e e' : FIFOEngine)
    (t : NormalizedTrade) :
  valid_trade t -> engine_ok e -> engine_from done_ e ->
  Forall (fun lot => valid_quantity (open_quantity lot)) (closed_lots e) ->
  _process_trade e t = Returns e' ->
  Forall (fun lot => valid_quantity (open_quantity lot)) (closed_lots e').
Proof.
  intros [Hq Hp] (Hlong & Hshort & _) (Flong & Fshort & _) Hl H.
  unfold _process_trade, _match_against_queue in H.
  destruct (String.eqb (side t) "BUY").
  - destruct (match_loop _ _ _ _ _ _) as [[[r q] lots]| |] eqn:Hm; [|done|done].
    cbn in H. inversion H; subst; clear H.
    apply (match_loop_shares (symbol t)) in Hm as (new & -> & Hnew & _);
      [|by right|done|by apply valid_quantity_leftover|apply Hshort
       |eapply entry_from_symbol, Fshort].
    cbn. apply Forall_app. split; [done|].
    eapply Forall_impl; [exact Hnew|]. by intros ? [_ ?].
  - destruct (String.eqb (side t) "SELL"); [|by inversion H; subst].
    destruct (match_loop _ _ _ _ _ _) as [[[r q] lots]| |] eqn:Hm; [|done|done].
    cbn in H. inversion H; subst; clear H.
    apply (match_loop_shares (symbol t)) in Hm as (new & -> & Hnew & _);
      [|by left|done|by apply valid_quantity_leftover|apply Hlong
       |eapply entry_from_symbol, Flong].
    cbn. apply Forall_app. split; [done|].
    eapply Forall_impl; [exact Hnew|]. by intros ? [_ ?].
Qed.

Lemma process_each_shares (trades done_ : list NormalizedTrade) (e e' : FIFOEngine) :
  Forall valid_trade trades ->
  engine_ok e -> engine_from done_ e -> conserved done_ e ->
  Forall (fun lot => valid_quantity (open_quantity lot)) (closed_lots e) ->
  process_each e trades = Returns e' ->
  engine_ok e' /\ conserved (done_ ++ trades) e' /\
  Forall (fun lot => valid_quantity (open_quantity lot)) (closed_lots e').
Proof.
  intros Hv. revert done_ e.
  induction Hv as [|t trades Ht Hv IH]; intros done_ e Hok Hfrom Hc Hpos H.
  - inversion H; subst. by rewrite app_nil_r.
  - cbn [process_each] in H.
    destruct (process_trade_valid e t Hok Ht) as (e1 & H1 & Hok1).
    rewrite H1 in H. cbn in H.
    replace (done_ ++ t :: trades) with ((done_ ++ [t]) ++ trades)
      by (by rewrite <- app_assoc).
    apply (IH (done_ ++ [t]) e1); try done.
    + exact (process_trade_from _ _ _ _ Hfrom H1).
    + exact (process_trade_conserved _ _ _ _ Ht Hok Hfrom Hc H1).
    + exact (process_trade_positive _ _ _ _ Ht Hok Hfrom Hpos H1).
Qed.

(** X5. Shares are conserved on validated trades: in every symbol the
    shares bought are the shares matched into lots plus the shares still open
    long, and the shares sold are the shares matched plus the shares still
    open short (in units of 1e-8 shares); every lot and every open entry holds
    a positive quantity. *)
Theorem shares_conserved (self e : FIFOEngine) (trades : list NormalizedTrade)
    (lots : list ClosedLot) (sym : string) :
  Forall valid_trade trades ->
  process_trades self trades = Returns (e, lots) ->
  traded_shares "BUY" sym trades
    = matched_shares sym lots + open_shares (queue_of (long_queues e) sym) /\
  traded_shares "SELL" sym trades
    = matched_shares sym lots + open_shares (queue_of (short_queues e) sym) /\
  Forall (fun lot => 0 < shares (open_quantity lot)) lots /\
  Forall (fun en => 0 < shares en.2) (queue_of (long_queues e) sym) /\
  Forall (fun en => 0 < shares en.2) (queue_of (short_queues e) sym).
Proof.
  intros Hv H. unfold process_trades in H.
  destruct (process_each _ trades) as [e1| |] eqn:He; [|done|done].
  cbn in H. inversion H; subst; clear H.
  destruct (process_each_shares trades [] _ _ Hv new_engine_ok engine_from_new
              conserved_new ltac:(constructor) He) as ((Hlong & Hshort & _) & Hc & Hpos).
  destruct (Hc sym) as [Hb Hs]. split; [done|]. split; [done|].
  split; [|split].
  - eapply Forall_impl; [exact Hpos|]. intros lot [_ [? _]]. done.
  - eapply Forall_impl; [apply Hlong|]. intros en [_ [_ [? _]]]. done.
  - eapply Forall_impl; [apply Hshort|]. intros en [_ [_ [? _]]]. done.
Qed.

Lemma shares_conserved_witness :
  exists e lots,
    process_trades new_engine [buy_150; buy_155; sell_160] = Returns (e, lots) /\
    traded_shares "BUY" "AAPL" [buy_150; buy_155; sell_160]
      = matched_shares "AAPL" lots + open_shares (queue_of (long_queues e) "AAPL") /\
    traded_shares "SELL" "AAPL" [buy_150; buy_155; sell_160]
      = matched_shares "AAPL" lots + open_shares (queue_of (short_queues e) "AAPL").
Proof.
  eassert (Hrun : process_trades new_engine [buy_150; buy_155; sell_160] = Returns (_, _))
    by (vm_compute; reflexivity).
  assert (Hv : Forall valid_trade [buy_150; buy_155; sell_160]).
  { repeat constructor; unfold valid_quantity, valid_price, align; simpl; lia. }
  destruct (shares_conserved _ _ _ _ "AAPL" Hv Hrun) as (H1 & H2 & _).
  eexists _, _. split; [exact Hrun|]. split; [exact H1|exact H2].
Defined.

(** ** The matching loop on arbitrary input *)

Lemma match_loop_lengths (fuel : nat) (trade : NormalizedTrade) (pos : string)
    (r : Decimal) (queue : list entry) (lots : list ClosedLot)
    (r' : Decimal) (queue' : list entry) (lots' : list ClosedLot) :
  match_loop fuel trade pos r queue lots = Returns (r', queue', lots') ->
  exists new,
    lots' = lots ++ new /\
    (length new + length queue' <= length queue + (if queue' is [] then 0 else 1))%nat /\
    (length queue' <= length queue)%nat /\
    Forall (fun lot => close_trade_id lot = id trade /\ position_type lot = pos) new.
Proof.
  revert r queue lots. induction fuel as [|fuel IH]; intros r queue lots H; [done|].
  cbn [match_loop] in H. destruct (dgtb r zero) eqn:Hr.
  2:{ inversion H; subst. exists []. rewrite app_nil_r. split; [done|].
      split; [destruct queue'; cbn [length]; lia|]. split; [lia|constructor]. }
  destruct queue as [|[ot oq] rest].
  { inversion H; subst. exists []. rewrite app_nil_r. split; [done|].
    split; [cbn [length]; lia|]. split; [lia|constructor]. }
  destruct (_create_closed_lot ot trade (py_min r oq) pos) as [lot| |] eqn:Hlot;
    [|done|done].
  cbn in H.
  assert (Hl : close_trade_id lot = id trade /\ position_type lot = pos).
  { unfold _create_closed_lot in Hlot. destruct (quantize _ cent); [|done|done].
    cbn in Hlot. by inversion Hlot; subst. }
  destruct (deqb (dsub oq (py_min r oq)) zero) eqn:Hz.
  - destruct (IH _ _ _ H) as (new & -> & Hlen & Hle & Hnew).
    exists (lot :: new). rewrite <- app_assoc. split; [done|].
    split; [|split; [cbn [length]; lia|by apply Forall_cons]].
    clear H IH. destruct queue'; cbn [length] in *; lia.
  - pose proof (partial_match_exhausts r oq Hz) as Hex.
    destruct fuel as [|fuel]; [done|]. cbn [match_loop] in H. rewrite Hex in H.
    inversion H; subst. exists [lot]. split; [done|].
    split; [cbn [length]; lia|]. split; [cbn [length]; lia|]. by apply Forall_singleton.
Qed.

(** X6. [_match_against_queue] on any input, valid or not: the loop ends
    (it returns or [quantize] raises); when it returns, it has only appended
    lots, all closed by the given trade, at most one for each entry the queue
    held, it has not lengthened the queue, and a positive remainder means the
    queue is drained. *)
Theorem match_against_queue_completes (lots : list ClosedLot) (trade : NormalizedTrade)
    (qty : Decimal) (queue : list entry) (pos : string) :
  _match_against_queue lots trade qty queue pos <> NoFuel /\
  forall r queue' lots',
    _match_against_queue lots trade qty queue pos = Returns (r, queue', lots') ->
    (exists new,
       lots' = lots ++ new /\ (length new <= length queue)%nat /\
       Forall (fun lot => close_trade_id lot = id trade /\ position_type lot = pos) new) /\
    (length queue' <= length queue)%nat /\
    (dgtb r zero = true -> queue' = []).
Proof.
  split.
  - apply match_loop_fuel. left. lia.
  - intros r queue' lots' H. unfold _match_against_queue in H.
    destruct (match_loop_lengths _ _ _ _ _ _ _ _ _ H) as (new & -> & Hlen & Hle & Hnew).
    apply match_loop_drained in H as [Hd _].
    split; [|split; [done|done]].
    exists new. split; [done|]. split; [|done]. clear Hd Hnew.
    destruct queue'; cbn [length] in *; lia.
Qed.

(** ** Open positions *)

Lemma items_of_NoDup (m : gmap string (list entry)) (items : list (string * list entry)) :
  items_of m items -> NoDup items.*1.
Proof. intros H. unfold items_of in H. rewrite H. apply NoDup_fst_map_to_list. Qed.

Lemma items_of_elem (m : gmap string (list entry)) (items : list (string * list entry))
    (sym : string) (q : list entry) :
  items_of m items -> (sym, q) ∈ items <-> m !! sym = Some q.
Proof. intros H. unfold items_of in H. rewrite H. apply elem_of_map_to_list. Qed.

Lemma items_of_nonempty (m : gmap string (list entry)) (items : list (string * list entry))
    (sym : string) :
  items_of m items -> queue_of m sym <> [] -> (sym, queue_of m sym) ∈ items.
Proof.
  intros H Hne. apply (items_of_elem m items sym _ H). unfold queue_of in *.
  by destruct (m !! sym).
Qed.

Lemma items_of_empty (m : gmap string (list entry)) (items : list (string * list entry))
    (sym : string) (q : list entry) :
  items_of m items -> queue_of m sym = [] -> (sym, q) ∈ items -> q = [].
Proof.
  intros H He Hin. apply (items_of_elem m items sym q H) in Hin.
  unfold queue_of in He. by rewrite Hin in He.
Qed.

Lemma NoDup_fst_unique {A B : Type} (l : list (A * B)) (k : A) (v1 v2 : B) :
  NoDup l.*1 -> (k, v1) ∈ l -> (k, v2) ∈ l -> v1 = v2.
Proof.
  induction l as [|[k0 v0] l IH]; cbn; intros Hnd H1 H2.
  - by apply elem_of_nil in H1.
  - apply NoDup_cons in Hnd as [Hk Hnd].
    apply elem_of_cons in H1 as [E1|H1]; apply elem_of_cons in H2 as [E2|H2].
    + congruence.
    + inversion E1; subst. exfalso. apply Hk. apply list_elem_of_fmap. by exists (k0, v2).
    + inversion E2; subst. exfalso. apply Hk. apply list_elem_of_fmap. by exists (k0, v1).
    + by apply IH.
Qed.

Lemma long_positions_spec (items : list (string * list entry))
    (acc positions : list (string * Position)) (k : string) :
  NoDup items.*1 ->
  long_positions items acc = Returns positions ->
  (forall q, (k, q) ∈ items -> q <> [] ->
     exists p, position_of "LONG" q = Returns p /\ dict_get positions k = Some p) /\
  ((forall q, (k, q) ∈ items -> q = []) -> dict_get positions k = dict_get acc k).
Proof.
  revert acc. induction items as [|[s q0] rest IH]; intros acc Hnd H.
  { inversion H; subst. split; [by intros q ?%elem_of_nil|done]. }
  cbn in Hnd. apply NoDup_cons in Hnd as [Hs Hnd].
  assert (Hrest : forall q, (s, q) ∈ rest -> False).
  { intros q Hq. apply Hs. apply list_elem_of_fmap. by exists (s, q). }
  cbn [long_positions] in H. destruct q0 as [|en q0].
  - destruct (IH _ Hnd H) as [I1 I2]. split.
    + intros q [E|Hq]%elem_of_cons Hne; [by inversion E; subst|by apply I1].
    + intros Hall. apply I2. intros q Hq. apply Hall. by right.
  - destruct (position_of "LONG" (en :: q0)) as [p| |] eqn:Hp; [|done|done].
    cbn in H. destruct (IH _ Hnd H) as [I1 I2]. split.
    + intros q [E|Hq]%elem_of_cons Hne; [|by apply I1].
      inversion E; subst. exists p. split; [done|].
      rewrite I2; [|by intros q ?%Hrest]. rewrite dict_get_set. by rewrite decide_True.
    + intros Hall. destruct (decide (s = k)) as [->|Hne].
      { by specialize (Hall (en :: q0) ltac:(by left)). }
      rewrite I2; [|intros q Hq; apply Hall; by right].
      rewrite dict_get_set. by rewrite decide_False.
Qed.

Lemma short_positions_spec (items : list (string * list entry))
    (acc positions : list (string * Position)) (k : string) :
  NoDup items.*1 ->
  (forall s q, (s, q) ∈ items -> q <> [] -> dict_get acc s = None) ->
  short_positions items acc = Returns positions ->
  (forall q, (k, q) ∈ items -> q <> [] ->
     exists p, position_of "SHORT" q = Returns p /\ dict_get positions k = Some p) /\
  ((forall q, (k, q) ∈ items -> q = []) -> dict_get positions k = dict_get acc k).
Proof.
  revert acc. induction items as [|[s q0] rest IH]; intros acc Hnd Hfree H.
  { inversion H; subst. split; [by intros q ?%elem_of_nil|done]. }
  cbn in Hnd. apply NoDup_cons in Hnd as [Hs Hnd].
  assert (Hrest : forall q, (s, q) ∈ rest -> False).
  { intros q Hq. apply Hs. apply list_elem_of_fmap. by exists (s, q). }
  cbn [short_positions] in H. destruct q0 as [|en q0].
  - destruct (IH acc Hnd) as [I1 I2]; [|done|].
    { intros s' q' Hin. apply Hfree. by right. }
    split.
    + intros q [E|Hq]%elem_of_cons Hne; [by inversion E; subst|by apply I1].
    + intros Hall. apply I2. intros q Hq. apply Hall. by right.
  - destruct (position_of "SHORT" (en :: q0)) as [p| |] eqn:Hp; [|done|done].
    cbn in H.
    assert (Hmem : dict_mem acc s = false).
    { unfold dict_mem. rewrite (Hfree s (en :: q0)); [done|by left|done]. }
    rewrite Hmem in H.
    destruct (IH (dict_set acc s p) Hnd) as [I1 I2]; [|done|].
    { intros s' q' Hin Hne. rewrite dict_get_set.
      rewrite decide_False; [apply (Hfree s' q'); [by right|done]|].
      intros ->. by apply (Hrest q'). }
    split.
    + intros q [E|Hq]%elem_of_cons Hne; [|by apply I1].
      inversion E; subst. exists p. split; [done|].
      rewrite I2; [|by intros q ?%Hrest]. rewrite dict_get_set. by rewrite decide_True.
    + intros Hall. destruct (decide (s = k)) as [->|Hne].
      { by specialize (Hall (en :: q0) ltac:(by left)). }
      rewrite I2; [|intros q Hq; apply Hall; by right].
      rewrite dict_get_set. by rewrite decide_False.
Qed.

(** X7. Open positions after a run: whatever the order of the two
    [.items()] sequences, when [get_open_positions] returns, a symbol with open
    long entries is reported under its own name with the LONG summary of its
    queue, a symbol with open short entries under its own name with the SHORT
    summary, and a name with neither is not a key: the ["..._SHORT"] key of
    the both-sides branch is never used. *)
Theorem open_positions_after_run (self e : FIFOEngine) (trades : list NormalizedTrade)
    (lots : list ClosedLot) (long_items short_items : list (string * list entry))
    (positions : list (string * Position)) (sym : string) :
  process_trades self trades = Returns (e, lots) ->
  items_of (long_queues e) long_items -> items_of (short_queues e) short_items ->
  get_open_positions long_items short_items = Returns positions ->
  (queue_of (long_queues e) sym <> [] ->
     exists p, position_of "LONG" (queue_of (long_queues e) sym) = Returns p /\
               dict_get positions sym = Some p) /\
  (queue_of (short_queues e) sym <> [] ->
     exists p, position_of "SHORT" (queue_of (short_queues e) sym) = Returns p /\
               dict_get positions sym = Some p) /\
  (queue_of (long_queues e) sym = [] -> queue_of (short_queues e) sym = [] ->
     dict_get positions sym = None).
Proof.
  intros Hrun Hli Hsi H.
  assert (Hone : one_sided e).
  { unfold process_trades in Hrun.
    destruct (process_each _ trades) as [e1| |] eqn:He; [|done|done].
    cbn in Hrun. inversion Hrun; subst.
    eapply process_each_one_sided; [|exact He]. apply new_engine_one_sided. }
  unfold get_open_positions in H.
  destruct (long_positions long_items []) as [p1| |] eqn:Hl; [|done|done].
  cbn in H.
  pose proof (items_of_NoDup _ _ Hli) as Hnl. pose proof (items_of_NoDup _ _ Hsi) as Hns.
  assert (Hfree : forall s q, (s, q) ∈ short_items -> q <> [] -> dict_get p1 s = None).
  { intros s q Hin Hne.
    destruct (long_positions_spec long_items [] p1 s Hnl Hl) as [_ L2].
    rewrite L2; [done|]. intros q' Hq'.
    apply (items_of_empty _ _ s q' Hli); [|done].
    destruct (Hone s) as [?|Hs]; [done|]. exfalso. apply Hne.
    by apply (items_of_empty _ _ s q Hsi). }
  destruct (long_positions_spec long_items [] p1 sym Hnl Hl) as [L1 L2].
  destruct (short_positions_spec short_items p1 positions sym Hns Hfree H) as [S1 S2].
  split; [|split].
  - intros Hne. destruct (L1 _ (items_of_nonempty _ _ sym Hli Hne) Hne) as (p & Hp & Hg).
    exists p. split; [done|]. rewrite S2; [done|]. intros q Hq.
    apply (items_of_empty _ _ sym q Hsi); [|done].
    destruct (Hone sym); done.
  - intros Hne. by apply S1; [apply items_of_nonempty|].
  - intros El Es. rewrite S2, L2; [done| |].
    + intros q Hq. by apply (items_of_empty _ _ sym q Hli).
    + intros q Hq. by apply (items_of_empty _ _ sym q Hsi).
Qed.

Lemma open_positions_after_run_witness :
  exists e positions,
    process_trades new_engine partial_fill_trades = Returns (e, closed_lots e) /\
    get_open_positions
      [("AAPL", [(sample_trade 1 "AAPL" "BUY" (mkDecimal 100 0) (mkDecimal 15000 (-2)) jan1,
                  mkDecimal 40 0)])]
      [("AAPL", [])]
    = Returns positions /\
    dict_get positions "AAPL"
    = Some (mkPosition "LONG" (mkDecimal 40 0) (mkDecimal 15000 (-2)) 1) /\
    dict_get positions "AAPL_SHORT" = None.
Proof.
  eassert (Hrun : process_trades new_engine partial_fill_trades = Returns (_, _))
    by (vm_compute; reflexivity).
  eassert (Hpos : get_open_positions
      [("AAPL", [(sample_trade 1 "AAPL" "BUY" (mkDecimal 100 0) (mkDecimal 15000 (-2)) jan1,
                  mkDecimal 40 0)])]
      [("AAPL", [])] = Returns _) by (vm_compute; reflexivity).
  eexists _, _. split; [exact Hrun|]. split; [exact Hpos|]. split; [reflexivity|].
  refine (proj2 (proj2 (open_positions_after_run _ _ _ _ _ _ _ "AAPL_SHORT" Hrun _ _ Hpos))
            _ _).
  - unfold items_of. vm_compute. apply Permutation_refl.
  - unfold items_of. vm_compute. apply Permutation_refl.
  - vm_compute. reflexivity.
  - vm_compute. reflexivity.
Defined.

(** ** The order of decimals *)

Lemma dltb_common (e0 : Z) (a b : Decimal) :
  e0 <= dexp a -> e0 <= dexp b ->
  dltb a b = (align e0 a <? align e0 b) /\ dgtb a b = (align e0 b <? align e0 a).
Proof. intros Ha Hb. unfold dgtb. by rewrite !(dltb_align e0). Qed.

Lemma dgtb_irrefl (a : Decimal) : dgtb a a = false.
Proof.
  destruct (dltb_common (dexp a) a a) as [_ ->]; [lia|lia|]. apply Z.ltb_irrefl.
Qed.

Lemma dltb_irrefl (a : Decimal) : dltb a a = false.
Proof. apply dgtb_irrefl. Qed.

(** [b] is not above [a], and [c] is above [a]: [b] is below [c]. *)
Lemma dle_lt_trans (a b c : Decimal) :
  dgtb b a = false -> dgtb c a = true -> dltb b c = true.
Proof.
  set (e0 := Z.min (dexp a) (Z.min (dexp b) (dexp c))).
  destruct (dltb_common e0 b a) as [_ ->]; [lia|lia|].
  destruct (dltb_common e0 c a) as [_ ->]; [lia|lia|].
  destruct (dltb_common e0 b c) as [-> _]; [lia|lia|].
  intros H1%Z.ltb_ge H2%Z.ltb_lt. apply Z.ltb_lt. lia.
Qed.

Lemma dlt_trans (a b c : Decimal) :
  dltb a b = true -> dltb b c = true -> dltb a c = true.
Proof.
  set (e0 := Z.min (dexp a) (Z.min (dexp b) (dexp c))).
  destruct (dltb_common e0 a b) as [-> _]; [lia|lia|].
  destruct (dltb_common e0 b c) as [-> _]; [lia|lia|].
  destruct (dltb_common e0 a c) as [-> _]; [lia|lia|].
  intros H1%Z.ltb_lt H2%Z.ltb_lt. apply Z.ltb_lt. lia.
Qed.

Lemma dltb_not_gtb (a b : Decimal) : dltb a b = true -> dgtb a b = false.
Proof.
  destruct (dltb_common (Z.min (dexp a) (dexp b)) a b) as [-> ->]; [lia|lia|].
  intros H%Z.ltb_lt. apply Z.ltb_ge. lia.
Qed.

(** ** The first maximum and the first minimum of a table *)

Lemma py_max_by_spec {K : Type} (l : list (K * Decimal)) (x : K * Decimal) :
  exists l1 l2,
    x :: l = l1 ++ py_max_by x l :: l2 /\
    Forall (fun item => dltb item.2 (py_max_by x l).2 = true) l1 /\
    Forall (fun item => dgtb item.2 (py_max_by x l).2 = false) l2.
Proof.
  unfold py_max_by.
  assert (Hgen : forall seen best l1 l2,
    seen = l1 ++ best :: l2 ->
    Forall (fun item => dltb item.2 best.2 = true) l1 ->
    Forall (fun item => dgtb item.2 best.2 = false) l2 ->
    exists l1' l2',
      seen ++ l = l1' ++ fold_left (fun best item : K * Decimal =>
                                      if dgtb item.2 best.2 then item else best) l best :: l2' /\
      Forall (fun item => dltb item.2
                (fold_left (fun best item : K * Decimal =>
                              if dgtb item.2 best.2 then item else best) l best).2 = true) l1' /\
      Forall (fun item => dgtb item.2
                (fold_left (fun best item : K * Decimal =>
                              if dgtb item.2 best.2 then item else best) l best).2 = false) l2').
  { induction l as [|item l IH]; intros seen best l1 l2 Hs H1 H2.
    - exists l1, l2. by rewrite app_nil_r.
    - cbn [fold_left]. replace (seen ++ item :: l) with ((seen ++ [item]) ++ l)
        by (by rewrite <- app_assoc).
      destruct (dgtb item.2 best.2) eqn:Hg.
      + apply (IH _ item (l1 ++ best :: l2) []).
        * by rewrite Hs.
        * apply Forall_app. split; [|apply Forall_cons; split].
          -- eapply Forall_impl; [exact H1|]. intros y Hy. cbn in Hy.
             eapply dlt_trans; [exact Hy|exact Hg].
          -- exact Hg.
          -- eapply Forall_impl; [exact H2|]. intros y Hy. cbn in Hy.
             by eapply dle_lt_trans.
        * constructor.
      + apply (IH _ best l1 (l2 ++ [item])).
        * by rewrite Hs, <- app_assoc.
        * done.
        * apply Forall_app. split; [done|]. by apply Forall_singleton. }
  destruct (Hgen [x] x [] [] eq_refl ltac:(constructor) ltac:(constructor)) as (l1 & l2 & H).
  by exists l1, l2.
Qed.

Lemma dge_gt_trans (a b c : Decimal) :
  dltb b a = false -> dltb c a = true -> dgtb b c = true.
Proof.
  set (e0 := Z.min (dexp a) (Z.min (dexp b) (dexp c))).
  destruct (dltb_common e0 b a) as [-> _]; [lia|lia|].
  destruct (dltb_common e0 c a) as [-> _]; [lia|lia|].
  destruct (dltb_common e0 b c) as [_ ->]; [lia|lia|].
  intros H1%Z.ltb_ge H2%Z.ltb_lt. apply Z.ltb_lt. lia.
Qed.

Lemma dgt_trans (a b c : Decimal) :
  dgtb a b = true -> dgtb b c = true -> dgtb a c = true.
Proof. unfold dgtb. intros H1 H2. by eapply dlt_trans. Qed.

Lemma py_min_by_spec {K : Type} (l : list (K * Decimal)) (x : K * Decimal) :
  exists l1 l2,
    x :: l = l1 ++ py_min_by x l :: l2 /\
    Forall (fun item => dgtb item.2 (py_min_by x l).2 = true) l1 /\
    Forall (fun item => dltb item.2 (py_min_by x l).2 = false) l2.
Proof.
  unfold py_min_by.
  assert (Hgen : forall seen best l1 l2,
    seen = l1 ++ best :: l2 ->
    Forall (fun item => dgtb item.2 best.2 = true) l1 ->
    Forall (fun item => dltb item.2 best.2 = false) l2 ->
    exists l1' l2',
      seen ++ l = l1' ++ fold_left (fun best item : K * Decimal =>
                                      if dltb item.2 best.2 then item else best) l best :: l2' /\
      Forall (fun item => dgtb item.2
                (fold_left (fun best item : K * Decimal =>
                              if dltb item.2 best.2 then item else best) l best).2 = true) l1' /\
      Forall (fun item => dltb item.2
                (fold_left (fun best item : K * Decimal =>
                              if dltb item.2 best.2 then item else best) l best).2 = false) l2').
  { induction l as [|item l IH]; intros seen best l1 l2 Hs H1 H2.
    - exists l1, l2. by rewrite app_nil_r.
    - cbn [fold_left]. replace (seen ++ item :: l) with ((seen ++ [item]) ++ l)
        by (by rewrite <- app_assoc).
      destruct (dltb item.2 best.2) eqn:Hg.
      + apply (IH _ item (l1 ++ best :: l2) []).
        * by rewrite Hs.
        * apply Forall_app. split; [|apply Forall_cons; split].
          -- eapply Forall_impl; [exact H1|]. intros y Hy. cbn in Hy.
             eapply dgt_trans; [exact Hy|exact Hg].
          -- exact Hg.
          -- eapply Forall_impl; [exact H2|]. intros y Hy. cbn in Hy.
             by eapply dge_gt_trans.
        * constructor.
      + apply (IH _ best l1 (l2 ++ [item])).
        * by rewrite Hs, <- app_assoc.
        * done.
        * apply Forall_app. split; [done|]. by apply Forall_singleton. }
  destruct (Hgen [x] x [] [] eq_refl ltac:(constructor) ltac:(constructor)) as (l1 & l2 & H).
  by exists l1, l2.
Qed.

(** ** The P&L table of [calculate_aggregates] *)

Lemma pnl_by_fold (key : ClosedLot -> string) (lots : list ClosedLot)
    (acc : list (string * Decimal)) (k : string) :
  dict_get
    (fold_left (fun pnl lot =>
                  dict_set pnl (key lot)
                    (dadd (default zero (dict_get pnl (key lot))) (realized_pnl lot)))
               lots acc) k
  = match filter (fun lot => key lot = k) lots with
    | [] => dict_get acc k
    | ls => Some (fold_left dadd (map realized_pnl ls) (default zero (dict_get acc k)))
    end.
Proof.
  revert acc. induction lots as [|lot lots IH]; intros acc.
  { rewrite filter_nil. done. }
  cbn [fold_left]. rewrite IH, filter_cons, dict_get_set.
  destruct (decide (key lot = k)) as [->|Hne].
  - cbn [default from_option Datatypes.id map fold_left].
    by destruct (filter _ lots).
  - done.
Qed.

Lemma pnl_by_get (key : ClosedLot -> string) (lots : list ClosedLot) (k : string) :
  dict_get (pnl_by key lots) k
  = match filter (fun lot => key lot = k) lots with
    | [] => None
    | ls => Some (py_sum (map realized_pnl ls))
    end.
Proof. unfold pnl_by. by rewrite pnl_by_fold. Qed.

Lemma pnl_by_NoDup (key : ClosedLot -> string) (lots : list ClosedLot) :
  NoDup (dict_keys (pnl_by key lots)).
Proof.
  unfold pnl_by.
  assert (Hgen : forall acc : list (string * Decimal), NoDup (dict_keys acc) ->
    NoDup (dict_keys (fold_left (fun pnl lot =>
                  dict_set pnl (key lot)
                    (dadd (default zero (dict_get pnl (key lot))) (realized_pnl lot)))
               lots acc))).
  { induction lots as [|lot lots IH]; intros acc Hacc; [done|].
    cbn [fold_left]. apply IH. by apply dict_set_NoDup. }
  apply Hgen. constructor.
Qed.

Lemma pnl_by_entry (key : ClosedLot -> string) (lots : list ClosedLot)
    (k : string) (v : Decimal) :
  (k, v) ∈ pnl_by key lots ->
  k ∈ map key lots /\ v = py_sum (map realized_pnl (filter (fun lot => key lot = k) lots)).
Proof.
  intros Hin.
  apply (dict_get_elem_of _ _ _ (pnl_by_NoDup key lots)) in Hin. rewrite pnl_by_get in Hin.
  destruct (filter (fun lot => key lot = k) lots) as [|l ls] eqn:E; [done|].
  inversion Hin; subst. split; [|done].
  assert (Hl : l ∈ filter (fun lot => key lot = k) lots) by (rewrite E; by left).
  apply list_elem_of_filter in Hl as [<- Hl]. apply list_elem_of_In, in_map.
  by apply list_elem_of_In.
Qed.

Lemma pnl_by_present (key : ClosedLot -> string) (lots : list ClosedLot) (lot : ClosedLot) :
  lot ∈ lots ->
  (key lot, py_sum (map realized_pnl (filter (fun l => key l = key lot) lots)))
  ∈ pnl_by key lots.
Proof.
  intros Hin. apply dict_get_Some_elem_of. rewrite pnl_by_get.
  destruct (filter (fun l => key l = key lot) lots) as [|l ls] eqn:E; [|done].
  assert (Hl : lot ∈ filter (fun l => key l = key lot) lots)
    by (by apply list_elem_of_filter).
  rewrite E in Hl. by apply elem_of_nil in Hl.
Qed.

Lemma best_of_spec (pnl : list (string * Decimal)) :
  pnl <> [] ->
  exists b, b ∈ pnl /\ best_of pnl = (Some b.1, Some b.2) /\
            Forall (fun item => dgtb item.2 b.2 = false) pnl.
Proof.
  destruct pnl as [|x l]; [done|]. intros _.
  destruct (py_max_by_spec l x) as (l1 & l2 & Hs & H1 & H2).
  exists (py_max_by x l). split; [|split; [done|]].
  - rewrite Hs. apply elem_of_app. right. by left.
  - rewrite Hs. apply Forall_app. split.
    + eapply Forall_impl; [exact H1|]. intros y. apply dltb_not_gtb.
    + apply Forall_cons. split; [apply dgtb_irrefl|done].
Qed.

Lemma worst_of_spec (pnl : list (string * Decimal)) :
  pnl <> [] ->
  exists w, w ∈ pnl /\ worst_of pnl = (Some w.1, Some w.2) /\
            Forall (fun item => dltb item.2 w.2 = false) pnl.
Proof.
  destruct pnl as [|x l]; [done|]. intros _.
  destruct (py_min_by_spec l x) as (l1 & l2 & Hs & H1 & H2).
  exists (py_min_by x l). split; [|split; [done|]].
  - rewrite Hs. apply elem_of_app. right. by left.
  - rewrite Hs. apply Forall_app. split.
    + eapply Forall_impl; [exact H1|]. intros y Hy. cbn in Hy.
      unfold dgtb in Hy. by apply dltb_not_gtb in Hy.
    + apply Forall_cons. split; [apply dltb_irrefl|done].
Qed.

(** X8. Best and worst symbol of a returned aggregate: both are symbols of
    lots, no symbol's summed P&L is above the best one's or below the worst
    one's, and the reported amounts are those sums quantized to cents (absent
    when the sum is zero). *)
Theorem best_and_worst_symbol (est_date : datetime -> date) (acct : option string)
    (lots : list ClosedLot) (series : list PerDayPnL) (agg : Aggregate) :
  lots <> [] ->
  calculate_aggregates est_date acct lots series = Returns agg ->
  exists best worst,
    best_symbol agg = Some best /\ worst_symbol agg = Some worst /\
    best ∈ map lot_symbol lots /\ worst ∈ map lot_symbol lots /\
    (forall lot, lot ∈ lots ->
       dgtb (symbol_total (lot_symbol lot) lots) (symbol_total best lots) = false /\
       dltb (symbol_total (lot_symbol lot) lots) (symbol_total worst lots) = false) /\
    quantize_if (Some (symbol_total best lots)) cent = Returns (best_symbol_pnl agg) /\
    quantize_if (Some (symbol_total worst lots)) cent = Returns (worst_symbol_pnl agg).
Proof.
  intros Hne H.
  assert (Hpnl : pnl_by lot_symbol lots <> []).
  { destruct lots as [|lot lots']; [done|].
    pose proof (pnl_by_present lot_symbol (lot :: lots') lot ltac:(by left)) as Hin.
    intros E. rewrite E in Hin. by apply elem_of_nil in Hin. }
  destruct (best_of_spec _ Hpnl) as ([b vb] & Hb & Eb & Hball).
  destruct (worst_of_spec _ Hpnl) as ([w vw] & Hw & Ew & Hwall).
  apply pnl_by_entry in Hb as Hb'. destruct Hb' as [Hbin Hbv].
  apply pnl_by_entry in Hw as Hw'. destruct Hw' as [Hwin Hwv].
  cbn [fst snd] in *. fold (symbol_total b lots) in Hbv. fold (symbol_total w lots) in Hwv.
  unfold calculate_aggregates in H. destruct lots as [|lot0 lots0]; [done|].
  rewrite Eb, Ew in H.
  returned H. inversion H; subst agg; clear H. cbn.
  exists b, w. split; [done|]. split; [done|].
  split; [exact Hbin|]. split; [exact Hwin|].
  split; [|by subst vb vw].
  intros lot Hlot. pose proof (pnl_by_present lot_symbol _ lot Hlot) as Hin.
  rewrite Forall_forall in Hball, Hwall.
  pose proof (Hball _ Hin) as Gb. pose proof (Hwall _ Hin) as Gw.
  cbn [snd] in Gb, Gw. rewrite Hbv in Gb. rewrite Hwv in Gw. split; [exact Gb|exact Gw].
Qed.

Lemma best_and_worst_symbol_witness :
  exists agg best worst,
    calculate_aggregates fixed_est_date None two_symbol_lots [] = Returns agg /\
    best_symbol agg = Some best /\ worst_symbol agg = Some worst /\
    best ∈ map lot_symbol two_symbol_lots /\ worst ∈ map lot_symbol two_symbol_lots /\
    quantize_if (Some (symbol_total best two_symbol_lots)) cent = Returns (best_symbol_pnl agg) /\
    quantize_if (Some (symbol_total worst two_symbol_lots)) cent = Returns (worst_symbol_pnl agg).
Proof.
  eassert (Hrun : calculate_aggregates fixed_est_date None two_symbol_lots [] = Returns _)
    by (vm_compute; reflexivity).
  destruct (best_and_worst_symbol fixed_est_date None two_symbol_lots [] _ ltac:(discriminate) Hrun)
    as (b & w & Hb & Hw & Hbin & Hwin & _ & Hbp & Hwp).
  eexists. exists b, w. split; [exact Hrun|]. split; [exact Hb|]. split; [exact Hw|].
  split; [exact Hbin|]. split; [exact Hwin|]. split; [exact Hbp|exact Hwp].
Defined.

(** ** Symbols do not interact *)

Lemma filter_Forall_all {A : Type} (P : A -> Prop) `{!forall x, Decision (P x)} (l : list A) :
  Forall P l -> filter P l = l.
Proof.
  induction 1 as [|x l Hx _ IH]; [done|]. rewrite filter_cons_True by done. by rewrite IH.
Qed.

Lemma filter_Forall_none {A : Type} (P : A -> Prop) `{!forall x, Decision (P x)} (l : list A) :
  Forall (fun x => ~ P x) l -> filter P l = [].
Proof.
  induction 1 as [|x l Hx _ IH]; [done|]. by rewrite filter_cons_False.
Qed.

(** The loop keeps the trades of the deque, appends lots of the deque's
    symbol, and does not look at the lots it was given. *)
Lemma match_loop_symbol (s : string) (fuel : nat) (trade : NormalizedTrade) (pos : string)
    (r : Decimal) (queue : list entry) (lots : list ClosedLot)
    (r' : Decimal) (queue' : list entry) (lots' : list ClosedLot) :
  Forall (fun en : entry => symbol en.1 = s) queue ->
  match_loop fuel trade pos r queue lots = Returns (r', queue', lots') ->
  Forall (fun en : entry => symbol en.1 = s) queue' /\
  exists new, lots' = lots ++ new /\ Forall (fun lot => lot_symbol lot = s) new /\
    forall lots2, match_loop fuel trade pos r queue lots2 = Returns (r', queue', lots2 ++ new).
Proof.
  revert r queue lots. induction fuel as [|fuel IH]; intros r queue lots Hq H; [done|].
  cbn [match_loop] in H |- *. destruct (dgtb r zero) eqn:Hr.
  2:{ inversion H; subst. split; [done|]. exists []. rewrite app_nil_r.
      split; [done|]. split; [constructor|]. intros lots2. by rewrite app_nil_r. }
  destruct queue as [|[ot oq] rest].
  { inversion H; subst. split; [done|]. exists []. rewrite app_nil_r.
    split; [done|]. split; [constructor|]. intros lots2. by rewrite app_nil_r. }
  destruct (_create_closed_lot ot trade (py_min r oq) pos) as [lot| |] eqn:Hc; [|done|done].
  cbn [mbind result_bind] in H |- *.
  assert (Hsym : lot_symbol lot = s).
  { unfold _create_closed_lot in Hc. destruct (quantize _ cent); [|done|done].
    cbn in Hc. inversion Hc; subst lot. cbn. by inversion Hq. }
  apply IH in H as (Hq' & new & -> & Hnew & Hall).
  2:{ inversion Hq; subst. destruct (deqb _ zero); [done|by constructor]. }
  split; [done|]. exists (lot :: new). rewrite <- app_assoc. split; [done|].
  split; [by constructor|].
  intros lots2. rewrite Hall. by rewrite <- app_assoc.
Qed.

Lemma new_engine_keyed : queues_keyed new_engine.
Proof. intros s. cbn. rewrite queue_of_empty. by split. Qed.

Lemma new_engine_view (sym : string) : symbol_view sym new_engine new_engine.
Proof. done. Qed.

Lemma process_trade_view (sym : string) (e es e' : FIFOEngine) (trade : NormalizedTrade) :
  queues_keyed e -> symbol_view sym e es -> _process_trade e trade = Returns e' ->
  queues_keyed e' /\
  exists es',
    (if decide (symbol trade = sym) then _process_trade es trade else Returns es) = Returns es' /\
    symbol_view sym e' es'.
Proof.
  intros Hk (Vl & Vs & Vc) H. unfold _process_trade in H |- *.
  destruct (String.eqb (side trade) "BUY") eqn:Hbuy.
  { destruct (_match_against_queue _ _ _ _ _) as [[[r q] lots']| |] eqn:Hm; [|done|done].
    cbn in H. inversion H; subst e'; clear H. unfold _match_against_queue in Hm |- *.
    apply (match_loop_symbol (symbol trade)) in Hm as (Hq' & new & -> & Hnew & Hall);
      [|apply Hk].
    split.
    { intros s. cbn. split.
      - destruct (dgtb r zero); [|apply Hk]. rewrite queue_of_insert.
        destruct (decide (symbol trade = s)) as [<-|]; [|apply Hk].
        apply Forall_app. split; [apply Hk|]. by repeat constructor.
      - rewrite queue_of_insert. destruct (decide (symbol trade = s)) as [<-|]; [done|apply Hk]. }
    destruct (decide (symbol trade = sym)) as [Hs|Hs].
    - rewrite Hs in *. rewrite Vs, Hall. cbn [mbind result_bind]. eexists. split; [done|].
      split; [|split]; cbn.
      + destruct (dgtb r zero); [|exact Vl].
        rewrite !queue_of_insert, !decide_True by done. by rewrite Vl.
      + by rewrite !queue_of_insert, !decide_True by done.
      + rewrite Vc. unfold lots_of_symbol. rewrite filter_app.
        by rewrite (filter_Forall_all _ new).
    - exists es. split; [done|]. split; [|split]; cbn.
      + rewrite Vl. destruct (dgtb r zero); [|done]. rewrite queue_of_insert.
        by rewrite decide_False by done.
      + rewrite Vs, queue_of_insert. by rewrite decide_False by done.
      + rewrite Vc. unfold lots_of_symbol. rewrite filter_app.
        rewrite (filter_Forall_none _ new); [by rewrite app_nil_r|].
        eapply Forall_impl; [exact Hnew|]. intros lot Hl. cbn in Hl. congruence. }
  destruct (String.eqb (side trade) "SELL") eqn:Hsell.
  { destruct (_match_against_queue _ _ _ _ _) as [[[r q] lots']| |] eqn:Hm; [|done|done].
    cbn in H. inversion H; subst e'; clear H. unfold _match_against_queue in Hm |- *.
    apply (match_loop_symbol (symbol trade)) in Hm as (Hq' & new & -> & Hnew & Hall);
      [|apply Hk].
    split.
    { intros s. cbn. split.
      - rewrite queue_of_insert. destruct (decide (symbol trade = s)) as [<-|]; [done|apply Hk].
      - destruct (dgtb r zero); [|apply Hk]. rewrite queue_of_insert.
        destruct (decide (symbol trade = s)) as [<-|]; [|apply Hk].
        apply Forall_app. split; [apply Hk|]. by repeat constructor. }
    destruct (decide (symbol trade = sym)) as [Hs|Hs].
    - rewrite Hs in *. rewrite Vl, Hall. cbn [mbind result_bind]. eexists. split; [done|].
      split; [|split]; cbn.
      + by rewrite !queue_of_insert, !decide_True by done.
      + destruct (dgtb r zero); [|exact Vs].
        rewrite !queue_of_insert, !decide_True by done. by rewrite Vs.
      + rewrite Vc. unfold lots_of_symbol. rewrite filter_app.
        by rewrite (filter_Forall_all _ new).
    - exists es. split; [done|]. split; [|split]; cbn.
      + rewrite Vl, queue_of_insert. by rewrite decide_False by done.
      + rewrite Vs. destruct (dgtb r zero); [|done]. rewrite queue_of_insert.
        by rewrite decide_False by done.
      + rewrite Vc. unfold lots_of_symbol. rewrite filter_app.
        rewrite (filter_Forall_none _ new); [by rewrite app_nil_r|].
        eapply Forall_impl; [exact Hnew|]. intros lot Hl. cbn in Hl. congruence. }
  inversion H; subst e'. split; [done|]. exists es. split; [by destruct (decide _)|done].
Qed.

Lemma process_each_view (sym : string) (trades : list NormalizedTrade) (e es e' : FIFOEngine) :
  queues_keyed e -> symbol_view sym e es -> process_each e trades = Returns e' ->
  exists es', process_each es (on_symbol sym trades) = Returns es' /\ symbol_view sym e' es'.
Proof.
  revert e es. induction trades as [|t trades IH]; intros e es Hk Hv H.
  { inversion H; subst. by exists es. }
  cbn [process_each] in H. destruct (_process_trade e t) as [e1| |] eqn:Ht; [|done|done].
  cbn [mbind result_bind] in H.
  destruct (process_trade_view sym e es e1 t Hk Hv Ht) as (Hk1 & es1 & Hs1 & Hv1).
  destruct (IH e1 es1 Hk1 Hv1 H) as (es' & Hrun & Hv').
  exists es'. split; [|done]. unfold on_symbol in *. rewrite filter_cons.
  destruct (decide (symbol t = sym)).
  - cbn [process_each]. rewrite Hs1. done.
  - inversion Hs1; subst es1. done.
Qed.

(** X9. Symbols do not interact: the lots that a returning run produces for
    a symbol, and what it leaves open in that symbol, are exactly what a run
    on that symbol's trades alone produces, lot for lot in the same order. *)
Theorem lots_of_symbol_alone (self self' : FIFOEngine) (trades : list NormalizedTrade)
    (sym : string) (e : FIFOEngine) (lots : list ClosedLot) :
  process_trades self trades = Returns (e, lots) ->
  exists es,
    process_trades self' (on_symbol sym trades) = Returns (es, lots_of_symbol sym lots) /\
    queue_of (long_queues es) sym = queue_of (long_queues e) sym /\
    queue_of (short_queues es) sym = queue_of (short_queues e) sym.
Proof.
  unfold process_trades. intros H.
  destruct (process_each _ trades) as [e1| |] eqn:Hrun; [|done|done].
  cbn in H. inversion H; subst e lots; clear H.
  destruct (process_each_view sym trades _ _ e1 new_engine_keyed (new_engine_view sym) Hrun)
    as (es & Hs & Vl & Vs & Vc).
  exists es. fold new_engine. rewrite Hs. cbn. by rewrite Vc.
Qed.

Lemma lots_of_symbol_alone_witness :
  exists e lots es,
    process_trades new_engine two_symbol_trades = Returns (e, lots) /\
    length lots = 2%nat /\
    process_trades new_engine (on_symbol "AAPL" two_symbol_trades)
    = Returns (es, lots_of_symbol "AAPL" lots) /\
    queue_of (long_queues es) "AAPL" = queue_of (long_queues e) "AAPL" /\
    queue_of (short_queues es) "AAPL" = queue_of (short_queues e) "AAPL".
Proof.
  eassert (Hrun : process_trades new_engine two_symbol_trades = Returns (_, _))
    by (vm_compute; reflexivity).
  destruct (lots_of_symbol_alone new_engine new_engine two_symbol_trades "AAPL" _ _ Hrun)
    as (es & H1 & H2 & H3).
  eexists _, _, es. split; [exact Hrun|]. split; [reflexivity|].
  split; [exact H1|]. split; [exact H2|exact H3].
Defined.

(** ** Best and worst weekday *)

Lemma weekday_name_elem (est_date : datetime -> date) (lot : ClosedLot) :
  weekday_name est_date lot ∈ weekday_names.
Proof.
  unfold weekday_name.
  assert (Hlt : (weekday (close_date est_date lot) < 7)%nat).
  { unfold weekday. pose proof (Z.mod_pos_bound (close_date est_date lot + 6) 7). lia. }
  destruct (weekday (close_date est_date lot)) as [|[|[|[|[|[|[|n]]]]]]];
    [cbn; unfold weekday_names; set_solver..|lia].
Qed.

(** X10. Best and worst weekday of a returned aggregate: both are names of
    days of the week on which a lot closed, no weekday's summed P&L is above
    the best one's or below the worst one's, and the reported amounts are
    those sums quantized to cents (absent when the sum is zero). *)
Theorem best_and_worst_weekday (est_date : datetime -> date) (acct : option string)
    (lots : list ClosedLot) (series : list PerDayPnL) (agg : Aggregate) :
  lots <> [] ->
  calculate_aggregates est_date acct lots series = Returns agg ->
  exists best worst,
    best_weekday agg = Some best /\ worst_weekday agg = Some worst /\
    best ∈ weekday_names /\ worst ∈ weekday_names /\
    best ∈ map (weekday_name est_date) lots /\ worst ∈ map (weekday_name est_date) lots /\
    (forall lot, lot ∈ lots ->
       dgtb (weekday_total est_date (weekday_name est_date lot) lots)
            (weekday_total est_date best lots) = false /\
       dltb (weekday_total est_date (weekday_name est_date lot) lots)
            (weekday_total est_date worst lots) = false) /\
    quantize_if (Some (weekday_total est_date best lots)) cent
    = Returns (best_weekday_pnl agg) /\
    quantize_if (Some (weekday_total est_date worst lots)) cent
    = Returns (worst_weekday_pnl agg).
Proof.
  intros Hne H.
  assert (Hpnl : pnl_by (weekday_name est_date) lots <> []).
  { destruct lots as [|lot lots']; [done|].
    pose proof (pnl_by_present (weekday_name est_date) (lot :: lots') lot ltac:(by left)) as Hin.
    intros E. rewrite E in Hin. by apply elem_of_nil in Hin. }
  destruct (best_of_spec _ Hpnl) as ([b vb] & Hb & Eb & Hball).
  destruct (worst_of_spec _ Hpnl) as ([w vw] & Hw & Ew & Hwall).
  apply pnl_by_entry in Hb as Hb'. destruct Hb' as [Hbin Hbv].
  apply pnl_by_entry in Hw as Hw'. destruct Hw' as [Hwin Hwv].
  cbn [fst snd] in *.
  fold (weekday_total est_date b lots) in Hbv. fold (weekday_total est_date w lots) in Hwv.
  assert (Hbn : b ∈ weekday_names).
  { apply list_elem_of_fmap in Hbin as (lot & -> & _). apply weekday_name_elem. }
  assert (Hwn : w ∈ weekday_names).
  { apply list_elem_of_fmap in Hwin as (lot & -> & _). apply weekday_name_elem. }
  unfold calculate_aggregates in H. destruct lots as [|lot0 lots0]; [done|].
  rewrite Eb, Ew in H.
  returned H. inversion H; subst agg; clear H. cbn.
  exists b, w. split; [done|]. split; [done|]. split; [exact Hbn|]. split; [exact Hwn|].
  split; [exact Hbin|]. split; [exact Hwin|].
  split; [|by subst vb vw].
  intros lot Hlot. pose proof (pnl_by_present (weekday_name est_date) _ lot Hlot) as Hin.
  rewrite Forall_forall in Hball, Hwall.
  pose proof (Hball _ Hin) as Gb. pose proof (Hwall _ Hin) as Gw.
  cbn [snd] in Gb, Gw. rewrite Hbv in Gb. rewrite Hwv in Gw. split; [exact Gb|exact Gw].
Qed.

Lemma best_and_worst_weekday_witness :
  exists agg best worst,
    calculate_aggregates fixed_est_date None two_symbol_lots [] = Returns agg /\
    best_weekday agg = Some best /\ worst_weekday agg = Some worst /\
    best ∈ weekday_names /\ worst ∈ weekday_names /\
    quantize_if (Some (weekday_total fixed_est_date best two_symbol_lots)) cent
    = Returns (best_weekday_pnl agg) /\
    quantize_if (Some (weekday_total fixed_est_date worst two_symbol_lots)) cent
    = Returns (worst_weekday_pnl agg).
Proof.
  eassert (Hrun : calculate_aggregates fixed_est_date None two_symbol_lots [] = Returns _)
    by (vm_compute; reflexivity).
  destruct (best_and_worst_weekday fixed_est_date None two_symbol_lots [] _
              ltac:(discriminate) Hrun)
    as (b & w & Hb & Hw & Hbn & Hwn & _ & _ & _ & Hbp & Hwp).
  eexists. exists b, w. split; [exact Hrun|]. split; [exact Hb|]. split; [exact Hw|].
  split; [exact Hbn|]. split; [exact Hwn|]. split; [exact Hbp|exact Hwp].
Defined.

(** ** Gains and losses *)

Lemma money_lots_filter (P : ClosedLot -> Prop) `{!forall x, Decision (P x)}
    (lots : list ClosedLot) :
  money_lots lots -> money_lots (filter P lots).
Proof.
  intros [Hexp Hsum]. split.
  - rewrite Forall_forall in Hexp |- *. intros lot [_ Hin]%list_elem_of_filter. by apply Hexp.
  - eapply Z.le_lt_trans; [|exact Hsum].
    apply (sum_Z_filter_le (fun lot => Z.abs (cents (realized_pnl lot)))). intros; lia.
Qed.

(** The rounded sum of amounts in cents is their sum. *)
Lemma money_sum (lots : list ClosedLot) :
  money_lots lots ->
  quantize (py_sum (map realized_pnl lots)) cent
  = Returns (mkDecimal (sum_Z (map pnl_cents lots)) (-2)).
Proof.
  intros [Hexp Hsum].
  destruct (py_sum_cents (map realized_pnl lots)) as [He Hc].
  { by apply Forall_fmap. }
  { by rewrite map_map. }
  rewrite map_map in Hc. fold pnl_cents in Hc.
  rewrite quantize_cents; [by rewrite Hc|done|].
  rewrite Hc. eapply Z.le_lt_trans; [apply sum_Z_abs_ge|].
  rewrite map_map. exact Hsum.
Qed.

Lemma winners_losers_cents (lots : list ClosedLot) :
  Forall (fun lot => -2 <= dexp (realized_pnl lot)) lots ->
  sum_Z (map pnl_cents lots)
  = sum_Z (map pnl_cents (winners lots)) + sum_Z (map pnl_cents (losers lots)) /\
  0 <= sum_Z (map pnl_cents (winners lots)) /\
  sum_Z (map pnl_cents (losers lots)) <= 0.
Proof.
  unfold winners, losers.
  induction 1 as [|lot lots Hlot _ IH]; [done|].
  rewrite !filter_cons, dgtb_zero, dltb_zero.
  pose proof (align_sign (-2) (realized_pnl lot) Hlot) as Hs. fold (cents (realized_pnl lot)) in Hs.
  fold (pnl_cents lot) in Hs.
  destruct (Z.ltb_spec 0 (coef (realized_pnl lot))),
           (Z.ltb_spec (coef (realized_pnl lot)) 0); try lia;
    repeat (first [rewrite decide_True by done | rewrite decide_False by done]);
    cbn [map]; rewrite ?sum_Z_cons; lia.
Qed.

(** X11. For lots whose P&L is in cents, the reported total is the reported
    gains plus the reported losses; gains are the winners' P&L and never
    negative, losses are the losers' P&L and never positive. *)
Theorem totals_add_up (est_date : datetime -> date) (acct : option string)
    (lots : list ClosedLot) (series : list PerDayPnL) (agg : Aggregate) :
  lots <> [] -> money_lots lots ->
  calculate_aggregates est_date acct lots series = Returns agg ->
  exists t g l,
    total_realized_pnl agg = Some (mkDecimal t (-2)) /\
    total_gains agg = Some (mkDecimal g (-2)) /\
    total_losses agg = Some (mkDecimal l (-2)) /\
    t = g + l /\ 0 <= g /\ l <= 0 /\
    g = sum_Z (map pnl_cents (winners lots)) /\
    l = sum_Z (map pnl_cents (losers lots)).
Proof.
  intros Hne Hm H.
  pose proof (money_sum _ Hm) as Ht.
  pose proof (money_sum _ (money_lots_filter
                (fun lot => dgtb (realized_pnl lot) zero = true) _ Hm)) as Hg.
  pose proof (money_sum _ (money_lots_filter
                (fun lot => dltb (realized_pnl lot) zero = true) _ Hm)) as Hl.
  fold (winners lots) in Hg. fold (losers lots) in Hl.
  destruct (winners_losers_cents lots (proj1 Hm)) as (Hsum & Hpos & Hneg).
  unfold calculate_aggregates in H. destruct lots as [|lot0 lots0]; [done|].
  returned H.
  rewrite Ht in *. rewrite Hg in *. rewrite Hl in *.
  repeat match goal with E : Returns _ = Returns _ |- _ => inversion E; subst; clear E end.
  cbn [total_realized_pnl total_gains total_losses].
  eexists _, _, _. repeat split; [exact Hsum|exact Hpos|exact Hneg].
Qed.

Lemma totals_add_up_witness :
  exists agg t g l,
    calculate_aggregates fixed_est_date None [winning_lot; losing_lot; breakeven_lot] []
    = Returns agg /\
    total_realized_pnl agg = Some (mkDecimal t (-2)) /\
    total_gains agg = Some (mkDecimal g (-2)) /\
    total_losses agg = Some (mkDecimal l (-2)) /\
    t = g + l /\ 0 <= g /\ l <= 0.
Proof.
  eassert (Hrun : calculate_aggregates fixed_est_date None
                    [winning_lot; losing_lot; breakeven_lot] [] = Returns _)
    by (vm_compute; reflexivity).
  assert (Hm : money_lots [winning_lot; losing_lot; breakeven_lot]).
  { split; [repeat constructor; vm_compute; discriminate|by vm_compute]. }
  destruct (totals_add_up fixed_est_date None [winning_lot; losing_lot; breakeven_lot] [] _
              ltac:(discriminate) Hm Hrun)
    as (t & g & l & H1 & H2 & H3 & H4 & H5 & H6 & _).
  eexists. exists t, g, l. split; [exact Hrun|]. split; [exact H1|]. split; [exact H2|].
  split; [exact H3|]. split; [exact H4|]. split; [exact H5|exact H6].
Defined.

(** ** The rows of the daily series *)

Lemma dict_get_day_total (g : list (date * list ClosedLot)) (k : date) :
  dict_get (map day_total g) k
  = (fun ls => (py_sum (map realized_pnl ls), length ls)) <$> dict_get g k.
Proof.
  induction g as [|[k0 ls] g IH]; [done|].
  cbn [map day_total dict_get fst snd]. by destruct (decide (k0 = k)).
Qed.

Lemma dict_keys_day_total (g : list (date * list ClosedLot)) :
  dict_keys (map day_total g) = dict_keys g.
Proof. unfold dict_keys. induction g as [|[k0 ls] g IH]; [done|]. cbn. by f_equal. Qed.

Lemma group_table_ok (est_date : datetime -> date) (lots : list ClosedLot) :
  table_ok est_date lots (map day_total (group_by_date est_date lots)).
Proof.
  unfold group_by_date. split; [|split].
  - rewrite dict_keys_day_total. apply group_NoDup. constructor.
  - intros lot Hlot. rewrite dict_keys_day_total. apply group_keys. right. by exists lot.
  - intros k v. rewrite dict_get_day_total. pose proof (group_get est_date lots [] k) as Hg.
    destruct (dict_get (fold_left (append_lot est_date) lots []) k) as [ls|]; [|done].
    cbn in Hg. intros [= <-]. unfold day_spec, lots_on. by rewrite <- Hg.
Qed.

(** Filling gaps adds only days without lots, with a zero total. *)
Lemma fill_gaps_ok (est_date : datetime -> date) (lots : list ClosedLot) (fuel : nat)
    (current_date max_date : date) (d d' : list (date * (Decimal * nat))) :
  table_ok est_date lots d ->
  fill_gaps_loop fuel current_date max_date d = Returns d' ->
  table_ok est_date lots d'.
Proof.
  revert current_date d. induction fuel as [|fuel IH]; intros cur d Hd H; [done|].
  cbn [fill_gaps_loop] in H. destruct (cur <=? max_date); [|by inversion H; subst].
  apply IH in H; [done|]. clear IH H. unfold dict_mem.
  destruct (dict_get d cur) eqn:E; [done|].
  destruct Hd as (Hnd & Hkeys & Hspec).
  assert (Hcur : cur ∉ dict_keys d).
  { intros Hin%dict_keys_get. rewrite E in Hin. by destruct Hin. }
  split; [|split].
  - by apply dict_set_NoDup.
  - intros lot Hlot. rewrite dict_keys_set. unfold dict_mem. rewrite E.
    apply elem_of_app. left. by apply Hkeys.
  - intros k v. rewrite dict_get_set. destruct (decide (cur = k)) as [<-|]; [|apply Hspec].
    intros [= <-]. unfold day_spec, lots_on.
    rewrite filter_Forall_none; [done|].
    apply Forall_forall. intros lot Hlot Hc. apply Hcur. rewrite <- Hc. by apply Hkeys.
Qed.

(** Every row is built from the table's entry of its date. *)
Lemma rows_loop_spec (acct : option string) (d : list (date * (Decimal * nat)))
    (dates : list date) (cumulative : Decimal) (acc rows : list PerDayPnL) :
  rows_loop acct d dates cumulative acc = Returns rows ->
  exists new,
    rows = acc ++ new /\ map day_date new = dates /\
    Forall (fun row =>
              day_account_id row = acct /\
              exists v, dict_get d (day_date row) = Some v /\
                        lots_closed row = v.2 /\
                        quantize v.1 cent = Returns (daily_pnl row)) new.
Proof.
  revert cumulative acc. induction dates as [|day dates IH]; intros cum acc H.
  { inversion H; subst. exists []. by rewrite app_nil_r. }
  cbn [rows_loop] in H. destruct (dict_get d day) as [[daily_total lots_count]|] eqn:E; [|done].
  destruct (quantize daily_total cent) as [daily| |] eqn:Ed; [|done|done].
  cbn [mbind result_bind] in H.
  destruct (quantize (dadd cum daily_total) cent) as [cum'| |] eqn:Ec; [|done|done].
  cbn [mbind result_bind] in H.
  apply IH in H as (new & -> & Hdates & Hnew).
  eexists (_ :: new). rewrite <- app_assoc. split; [done|]. split; [by cbn; rewrite Hdates|].
  constructor; [|done]. cbn. split; [done|]. exists (daily_total, lots_count). by rewrite E.
Qed.

Lemma sorted_lt (l : list Z) : Sorted Z.le l -> NoDup l -> StronglySorted Z.lt l.
Proof.
  intros Hs%Sorted_StronglySorted; [|intros x y z; lia].
  induction Hs as [|x l Hs IH Hx]; intros Hnd; [constructor|].
  apply NoDup_cons in Hnd as [Hnx Hnd]. constructor; [by apply IH|].
  rewrite Forall_forall in Hx |- *. intros y Hy. pose proof (Hx y Hy).
  assert (x <> y) by (by intros ->). lia.
Qed.

Lemma rows_of_table (est_date : datetime -> date) (acct : option string)
    (lots : list ClosedLot) (d : list (date * (Decimal * nat))) (rows : list PerDayPnL) :
  table_ok est_date lots d ->
  rows_loop acct d (py_sorted (fun k => k) (dict_keys d)) zero [] = Returns rows ->
  StronglySorted Z.lt (map day_date rows) /\
  (forall k, k ∈ map day_date rows <-> k ∈ dict_keys d) /\
  Forall (fun row =>
            day_account_id row = acct /\
            lots_closed row = length (lots_on est_date (day_date row) lots) /\
            quantize (py_sum (map realized_pnl (lots_on est_date (day_date row) lots))) cent
            = Returns (daily_pnl row)) rows.
Proof.
  intros (Hnd & Hkeys & Hspec) H.
  apply rows_loop_spec in H as (new & -> & Hdates & Hnew). cbn [app].
  split; [|split].
  - rewrite Hdates. apply sorted_lt; [apply py_sorted_sorted|]. by rewrite py_sorted_perm.
  - intros k. rewrite Hdates. by rewrite py_sorted_perm.
  - eapply Forall_impl; [exact Hnew|]. intros row (Ha & v & Hv & Hc & Hq). cbn beta.
    apply Hspec in Hv. subst v. by cbn in Hc, Hq.
Qed.


(** A returned series of some lots is made of the rows of a table that
    [table_ok] describes; without gap filling the table is the grouping
    itself. *)
Lemma series_table (est_date : datetime -> date) (acct : option string)
    (lots : list ClosedLot) (fill_gaps : bool) (rows : list PerDayPnL) :
  lots <> [] ->
  generate_daily_pnl_series est_date acct lots fill_gaps = Returns rows ->
  exists d,
    table_ok est_date lots d /\
    rows_loop acct d (py_sorted (fun k => k) (dict_keys d)) zero [] = Returns rows /\
    (fill_gaps = false -> d = map day_total (group_by_date est_date lots)).
Proof.
  intros Hne H. pose proof (group_table_ok est_date lots) as Hd0.
  unfold generate_daily_pnl_series in H. destruct lots as [|lot0 lots0] eqn:Hlots; [done|].
  rewrite <- Hlots in *.
  destruct (dict_keys (map day_total (group_by_date est_date lots))) as [|k0 ks] eqn:Ek.
  { destruct Hd0 as (_ & Hkeys & _). rewrite Ek in Hkeys.
    specialize (Hkeys lot0). rewrite Hlots in Hkeys.
    exfalso. eapply elem_of_nil, Hkeys. by left. }
  destruct fill_gaps.
  - destruct (fill_gaps_loop _ _ _ _) as [d'| |] eqn:Ef; [|done|done].
    cbn [mbind result_bind] in H. exists d'.
    split; [exact (fill_gaps_ok _ _ _ _ _ _ _ Hd0 Ef)|]. by split.
  - cbn [mbind result_bind] in H. eexists. split; [exact Hd0|]. by split.
Qed.

(** X12. The rows of a returned daily series: their dates are strictly
    ascending (one row per date), every closing date of a lot has its row,
    every row carries the account, the number of lots closing on its date
    and their summed P&L quantized to cents; without gap filling every row
    has a lot. *)
Theorem daily_rows (est_date : datetime -> date) (acct : option string)
    (lots : list ClosedLot) (fill_gaps : bool) (rows : list PerDayPnL) :
  generate_daily_pnl_series est_date acct lots fill_gaps = Returns rows ->
  StronglySorted Z.lt (map day_date rows) /\
  (forall lot, lot ∈ lots -> close_date est_date lot ∈ map day_date rows) /\
  (fill_gaps = false ->
   forall row, row ∈ rows -> lots_on est_date (day_date row) lots <> []) /\
  Forall (fun row =>
            day_account_id row = acct /\
            lots_closed row = length (lots_on est_date (day_date row) lots) /\
            quantize (py_sum (map realized_pnl (lots_on est_date (day_date row) lots))) cent
            = Returns (daily_pnl row)) rows.
Proof.
  intros H. destruct (decide (lots = [])) as [->|Hne].
  { inversion H; subst. split; [constructor|]. split; [by intros lot ?%elem_of_nil|].
    split; [by intros _ row ?%elem_of_nil|constructor]. }
  destruct (series_table _ _ _ _ _ Hne H) as (d & Hd & Hrows & Hplain).
  destruct (rows_of_table est_date acct lots d rows Hd Hrows) as (Hs & Hk & Hall).
  split; [done|]. split; [|split; [|done]].
  - intros lot Hlot. apply Hk. by apply Hd.
  - intros Hfill row Hrow. specialize (Hplain Hfill). subst d.
    assert (Hin : day_date row ∈ dict_keys (map day_total (group_by_date est_date lots))).
    { apply Hk. apply list_elem_of_fmap. by exists row. }
    rewrite dict_keys_day_total in Hin. unfold group_by_date in Hin.
    apply group_keys in Hin as [Hin|(lot & Hlot & Hday)]; [by apply elem_of_nil in Hin|].
    intros Hnone. assert (Hl : lot ∈ lots_on est_date (day_date row) lots).
    { by apply list_elem_of_filter. }
    rewrite Hnone in Hl. by apply elem_of_nil in Hl.
Qed.

Lemma daily_rows_witness :
  exists rows,
    generate_daily_pnl_series fixed_est_date None [winning_lot; losing_lot; breakeven_lot] true
    = Returns rows /\
    length rows = 2%nat /\
    StronglySorted Z.lt (map day_date rows) /\
    Forall (fun row =>
              lots_closed row
              = length (lots_on fixed_est_date (day_date row)
                          [winning_lot; losing_lot; breakeven_lot])) rows.
Proof.
  eassert (Hrun : generate_daily_pnl_series fixed_est_date None
                    [winning_lot; losing_lot; breakeven_lot] true = Returns _)
    by (vm_compute; reflexivity).
  destruct (daily_rows fixed_est_date None [winning_lot; losing_lot; breakeven_lot] true _ Hrun)
    as (Hs & _ & _ & Hrows).
  eexists. split; [exact Hrun|]. split; [reflexivity|]. split; [exact Hs|].
  eapply Forall_impl; [exact Hrows|]. by intros row (_ & Hc & _).
Defined.

(** ** Every lot is counted once *)

Lemma sum_by_day (est_date : datetime -> date) (g : ClosedLot -> Z)
    (lots : list ClosedLot) (dates : list date) :
  NoDup dates ->
  sum_Z (map (fun k => sum_Z (map g (lots_on est_date k lots))) dates)
  = sum_Z (map g (filter (fun lot => close_date est_date lot ∈ dates) lots)).
Proof.
  unfold lots_on. induction 1 as [|k ds Hk _ IH].
  { rewrite filter_Forall_none; [done|]. apply Forall_forall. by intros lot _ ?%elem_of_nil. }
  cbn [map]. rewrite sum_Z_cons, IH. clear IH.
  induction lots as [|lot lots IHl]; [done|].
  rewrite !filter_cons.
  destruct (decide (close_date est_date lot = k)) as [Heq|Hne].
  - rewrite (decide_True (P := close_date est_date lot ∈ k :: ds)) by (rewrite Heq; by left).
    rewrite (decide_False (P := close_date est_date lot ∈ ds)) by (by rewrite Heq).
    cbn [map]. rewrite !sum_Z_cons. lia.
  - destruct (decide (close_date est_date lot ∈ ds)) as [Hin|Hnin].
    + rewrite (decide_True (P := close_date est_date lot ∈ k :: ds)) by (by right).
      cbn [map]. rewrite !sum_Z_cons. lia.
    + rewrite (decide_False (P := close_date est_date lot ∈ k :: ds)); [done|].
      by intros [?|?]%elem_of_cons.
Qed.

Lemma sorted_lt_NoDup (l : list Z) : StronglySorted Z.lt l -> NoDup l.
Proof.
  induction 1 as [|x l _ IH Hx]; constructor; [|done].
  rewrite Forall_forall in Hx. intros Hin%Hx. lia.
Qed.

Lemma length_sum_Z {A : Type} (l : list A) : Z.of_nat (length l) = sum_Z (map (fun _ => 1) l).
Proof. induction l as [|x l IH]; [done|]. cbn [length map]. rewrite sum_Z_cons. lia. Qed.

(** X13. Every lot is counted in exactly one row: the [lots_closed] of the
    rows of a returned series add up to the number of lots. *)
Theorem lots_counted_once (est_date : datetime -> date) (acct : option string)
    (lots : list ClosedLot) (fill_gaps : bool) (rows : list PerDayPnL) :
  generate_daily_pnl_series est_date acct lots fill_gaps = Returns rows ->
  sum_Z (map (fun row => Z.of_nat (lots_closed row)) rows) = Z.of_nat (length lots).
Proof.
  intros H. destruct (decide (lots = [])) as [->|Hne]; [by inversion H|].
  destruct (series_table _ _ _ _ _ Hne H) as (d & Hd & Hrows & _).
  destruct (rows_of_table est_date acct lots d rows Hd Hrows) as (Hs & Hk & Hall).
  rewrite (sum_Z_map_eq _
             (fun row => sum_Z (map (fun _ => 1) (lots_on est_date (day_date row) lots)))).
  2:{ eapply Forall_impl; [exact Hall|]. intros row (_ & -> & _). apply length_sum_Z. }
  rewrite <- (map_map day_date (fun k => sum_Z (map (fun _ => 1) (lots_on est_date k lots)))).
  rewrite sum_by_day by (by apply sorted_lt_NoDup).
  rewrite filter_Forall_all; [by rewrite <- length_sum_Z|].
  apply Forall_forall. intros lot Hlot. apply Hk. by apply Hd.
Qed.

Lemma lots_counted_once_witness :
  exists rows,
    generate_daily_pnl_series fixed_est_date None two_symbol_lots true = Returns rows /\
    sum_Z (map (fun row => Z.of_nat (lots_closed row)) rows) = 2.
Proof.
  eassert (Hrun : generate_daily_pnl_series fixed_est_date None two_symbol_lots true
                  = Returns _)
    by (vm_compute; reflexivity).
  eexists. split; [exact Hrun|].
  exact (lots_counted_once fixed_est_date None two_symbol_lots true _ Hrun).
Defined.

(** ** The series of lots in cents is returned *)








(** ** Trades of another side, and lots already emitted *)

Lemma process_trade_other_side (e : FIFOEngine) (t : NormalizedTrade) :
  ~ (side t = "BUY" \/ side t = "SELL") -> _process_trade e t = Returns e.
Proof.
  intros Hs. unfold _process_trade.
  destruct (String.eqb_spec (side t) "BUY") as [Hb|_]; [by destruct Hs; left|].
  destruct (String.eqb_spec (side t) "SELL") as [Hb|_]; [by destruct Hs; right|done].
Qed.

Lemma process_each_buys_and_sells (trades : list NormalizedTrade) (e : FIFOEngine) :
  process_each e (buys_and_sells trades) = process_each e trades.
Proof.
  unfold buys_and_sells. revert e. induction trades as [|t trades IH]; intros e; [done|].
  rewrite filter_cons. destruct (decide (side t = "BUY" \/ side t = "SELL")) as [Hs|Hs].
  - cbn [process_each]. destruct (_process_trade e t) as [e1| |]; [|done|done].
    cbn [mbind result_bind]. apply IH.
  - cbn [process_each]. rewrite (process_trade_other_side e t Hs).
    cbn [mbind result_bind]. apply IH.
Qed.

(** X15. Only BUY and SELL trades act: a trade with any other side leaves the
    queues and the lots as they are, so a run gives the same result, lots or
    exception, as the run on the BUY and SELL trades alone. *)
Theorem other_sides_ignored (self self' : FIFOEngine) (trades : list NormalizedTrade) :
  process_trades self trades = process_trades self' (buys_and_sells trades).
Proof. unfold process_trades. by rewrite process_each_buys_and_sells. Qed.

Lemma process_trade_extends (e e' : FIFOEngine) (t : NormalizedTrade) :
  _process_trade e t = Returns e' -> exists more, closed_lots e' = closed_lots e ++ more.
Proof.
  unfold _process_trade. intros H.
  destruct (String.eqb (side t) "BUY").
  { destruct (_match_against_queue _ _ _ _ _) as [[[r q] lots']| |] eqn:Hm; [|done|done].
    cbn in H. inversion H; subst e'; clear H. cbn.
    apply match_loop_lengths in Hm as (new & -> & _). by exists new. }
  destruct (String.eqb (side t) "SELL").
  { destruct (_match_against_queue _ _ _ _ _) as [[[r q] lots']| |] eqn:Hm; [|done|done].
    cbn in H. inversion H; subst e'; clear H. cbn.
    apply match_loop_lengths in Hm as (new & -> & _). by exists new. }
  inversion H; subst. exists []. by rewrite app_nil_r.
Qed.

Lemma process_each_extends (trades : list NormalizedTrade) (e e' : FIFOEngine) :
  process_each e trades = Returns e' -> exists more, closed_lots e' = closed_lots e ++ more.
Proof.
  revert e. induction trades as [|t trades IH]; intros e H.
  { inversion H; subst. exists []. by rewrite app_nil_r. }
  cbn [process_each] in H. destruct (_process_trade e t) as [e1| |] eqn:Ht; [|done|done].
  cbn [mbind result_bind] in H.
  apply process_trade_extends in Ht as [m1 H1]. apply IH in H as [m2 H2].
  exists (m1 ++ m2). by rewrite H2, H1, app_assoc.
Qed.

(** X16. Lots are only appended: when a run on trades followed by more trades
    returns, the run on the first trades alone returns too, and its lots are
    the first lots of the longer run, unchanged. *)
Theorem lots_append_only (self self' : FIFOEngine) (pre post : list NormalizedTrade)
    (e : FIFOEngine) (lots : list ClosedLot) :
  process_trades self (pre ++ post) = Returns (e, lots) ->
  exists e1 lots1 more,
    process_trades self' pre = Returns (e1, lots1) /\ lots = lots1 ++ more.
Proof.
  unfold process_trades. rewrite process_each_app. intros H.
  destruct (process_each _ pre) as [e1| |] eqn:Hpre; [|done|done].
  cbn [mbind result_bind] in H |- *.
  destruct (process_each e1 post) as [e2| |] eqn:Hpost; [|done|done].
  cbn [mbind result_bind] in H. inversion H; subst e lots; clear H.
  apply process_each_extends in Hpost as [more Hmore].
  by exists e1, (closed_lots e1), more.
Qed.

Lemma lots_append_only_witness :
  exists e lots e1 lots1 more,
    process_trades new_engine ([buy_150; sell_160] ++ two_symbol_trades) = Returns (e, lots) /\
    process_trades new_engine [buy_150; sell_160] = Returns (e1, lots1) /\
    lots = lots1 ++ more /\ length lots1 = 1%nat /\ length lots = 3%nat.
Proof.
  eassert (Hrun : process_trades new_engine ([buy_150; sell_160] ++ two_symbol_trades)
                  = Returns (_, _))
    by (vm_compute; reflexivity).
  destruct (lots_append_only new_engine new_engine _ _ _ _ Hrun)
    as (e1 & lots1 & more & Hpre & Hlots).
  eexists _, _, e1, lots1, more. split; [exact Hrun|]. split; [exact Hpre|].
  split; [exact Hlots|].
  assert (Hl1 : length lots1 = 1%nat).
  { vm_compute in Hpre. by inversion Hpre. }
  split; [exact Hl1|reflexivity].
Defined.

(** ** The bounds at work *)

Lemma calculate_streaks_bounds_witness :
  winners [winning_lot; losing_lot; breakeven_lot] <> [] /\
  losers [winning_lot; losing_lot; breakeven_lot] <> [] /\
  1 <= longest_win_streak (calculate_streaks [winning_lot; losing_lot; breakeven_lot]) /\
  1 <= longest_loss_streak (calculate_streaks [winning_lot; losing_lot; breakeven_lot]).
Proof.
  assert (Hw : winners [winning_lot; losing_lot; breakeven_lot] <> [])
    by (vm_compute; discriminate).
  assert (Hl : losers [winning_lot; losing_lot; breakeven_lot] <> [])
    by (vm_compute; discriminate).
  destruct (calculate_streaks_bounds [winning_lot; losing_lot; breakeven_lot])
    as (_ & _ & _ & H1 & H2).
  split; [exact Hw|]. split; [exact Hl|]. split; [exact (H1 Hw)|exact (H2 Hl)].
Defined.

Lemma match_against_queue_completes_witness :
  exists r queue' lots',
    _match_against_queue [] sell_160 (quantity sell_160)
      [(buy_150, quantity buy_150); (buy_155, quantity buy_155)] "LONG"
    = Returns (r, queue', lots') /\
    (length lots' <= 2)%nat /\ (length queue' <= 2)%nat.
Proof.
  eassert (Hrun : _match_against_queue [] sell_160 (quantity sell_160)
                    [(buy_150, quantity buy_150); (buy_155, quantity buy_155)] "LONG"
                  = Returns (_, _, _))
    by (vm_compute; reflexivity).
  destruct (match_against_queue_completes [] sell_160 (quantity sell_160)
              [(buy_150, quantity buy_150); (buy_155, quantity buy_155)] "LONG")
    as [_ Hall].
  destruct (Hall _ _ _ Hrun) as ((new & Hnew & Hlen & _) & Hq & _).
  eexists _, _, _. split; [exact Hrun|]. split; [|exact Hq].
  rewrite Hnew. exact Hlen.
Defined.
